(** * A discrete-time multi-agent electric-racing simulator

    Shallow embedding of the race engine: the per-car Attack Mode
    controller and its manager ([attack_mode.py]), the overtaking model
    ([overtaking.py]), the race-event generator with its safety-car
    state machine ([race_events.py]) and the orchestrating step loop
    ([race_simulator.py]).

    Conventions of the embedding
    - a Python [int] is a [Z]; a Python [float] is an exact rational [Q]
      (the literal [3.6] is the rational 36/10); [np.inf] is the extra
      constructor [Inf] of [float_inf];
    - a raised exception is the [Raise] branch of [Result];
    - the process-wide generator behind [np.random] is an explicit state
      threaded through every function that draws from it;
    - a [dict] iterated in insertion order is an association list, a
      [dict] only looked up by key is a [gmap], a [set] is a [gset]. *)

From stdpp Require Import base gmap list strings.
From Stdlib Require Import ZArith QArith Qround Lia Lqa DecimalString.
Close Scope Q_scope.
Local Open Scope Z_scope.

(** ** Python values and exceptions *)

Inductive exn := ZeroDivisionError | KeyError.

Inductive Result (A : Type) : Type :=
| Ok (a : A)
| Raise (e : exn).
Arguments Ok {A} a.
Arguments Raise {A} e.

#[export] Instance Result_bind : MBind Result := fun A B k c =>
  match c with
  | Ok a => k a
  | Raise e => Raise e
  end.

#[export] Instance Result_ret : MRet Result := fun A a => Ok a.

(** Whether a call returned. *)
Definition is_ok {A : Type} (c : Result A) : bool :=
  match c with
  | Ok _ => true
  | Raise _ => false
  end.

(** A float that may be [np.inf]. *)
Inductive float_inf := Fin (q : Q) | Inf.

Module Py.

(** [x < y], [x <= y] and [x == y] on floats. *)
Definition ltb (x y : Q) : bool := negb (Qle_bool y x).
Definition leb (x y : Q) : bool := Qle_bool x y.
Definition eqb (x y : Q) : bool := Qeq_bool x y.

(** [x < y] where [y] may be [np.inf]. *)
Definition ltb_inf (x : Q) (y : float_inf) : bool :=
  match y with
  | Fin q => ltb x q
  | Inf => true
  end.

(** [x / y] on Python floats. *)
Definition div (x y : Q) : Result Q :=
  if eqb y 0 then Raise ZeroDivisionError else Ok (x / y)%Q.

(** [x % y] on Python floats: the result has the sign of [y]. *)
Definition mod_ (x y : Q) : Result Q :=
  if eqb y 0 then Raise ZeroDivisionError
  else Ok (x - y * inject_Z (Qfloor (x / y)))%Q.

(** [x % y] on Python ints. *)
Definition imod (x y : Z) : Result Z :=
  if y =? 0 then Raise ZeroDivisionError else Ok (x mod y).

(** [int(x)]: truncation towards zero. *)
Definition int (x : Q) : Z := if ltb x 0 then Qceiling x else Qfloor x.

(** [min(a, b)] and [max(a, b)]: the first argument wins ties. *)
Definition min_ (a b : Q) : Q := if ltb b a then b else a.
Definition max_ (a b : Q) : Q := if ltb a b then b else a.

(** [min(a, b)] where [b] may be [np.inf]. *)
Definition min_inf (a : Q) (b : float_inf) : Q :=
  match b with
  | Fin q => min_ a q
  | Inf => a
  end.

(** [np.clip(x, lo, hi)]. *)
Definition clip (x lo hi : Q) : Q :=
  if ltb x lo then lo else if ltb hi x then hi else x.

(** [str(n)] of an int, as an f-string interpolates it. *)
Definition str (n : Z) : string := NilZero.string_of_int (Z.to_int n).

(** [range(n)]. *)
Definition range (n : Z) : list Z := map Z.of_nat (seq 0 (Z.to_nat n)).

End Py.

(** ** The random generator

    [np.random] is one process-wide generator.  Its state is [rng];
    [seed] is [np.random.seed], [random] is [np.random.random],
    [uniform] is [np.random.uniform] and [randint] is
    [np.random.randint].  The laws are the documented ranges of the
    draws. *)

Class NumpyRandom := {
  rng : Type;
  seed : Z -> rng;
  random : rng -> Q * rng;
  uniform : Q -> Q -> rng -> Q * rng;
  randint : Z -> Z -> rng -> Z * rng;
  random_range : forall g, (0 <= (random g).1)%Q /\ ((random g).1 < 1)%Q;
  uniform_range : forall lo hi g,
    (lo <= hi)%Q -> (lo <= (uniform lo hi g).1)%Q /\ ((uniform lo hi g).1 <= hi)%Q;
  randint_range : forall lo hi g, lo < hi -> lo <= (randint lo hi g).1 < hi
}.

(** [if random_seed is not None: np.random.seed(random_seed)]. *)
Definition reseed `{NumpyRandom} (random_seed : option Z) (g : rng) : rng :=
  match random_seed with
  | Some s => seed s
  | None => g
  end.

(** A linear congruential generator: an instance of the interface on
    which the definitions below can be run. *)
Module Lcg.

Definition next (s : Z) : Z := (s * 1103515245 + 12345) mod 2147483648.

Definition random (s : Z) : Q * Z :=
  let s' := next s in (Qmake (s' mod 1000) 1000, s').

Definition uniform (lo hi : Q) (s : Z) : Q * Z :=
  let '(r, s') := random s in ((lo + (hi - lo) * r)%Q, s').

Definition randint (lo hi : Z) (s : Z) : Z * Z :=
  let s' := next s in (lo + s' mod (hi - lo), s').

#[export] Instance numpy_random : NumpyRandom.
Proof.
  refine (Build_NumpyRandom Z (fun s => s) random uniform randint _ _ _).
  - intros s. unfold random; simpl.
    pose proof (Z.mod_pos_bound (next s) 1000 ltac:(lia)) as Hb.
    unfold Qle, Qlt; simpl. lia.
  - intros lo hi s Hle. unfold uniform, random; simpl.
    pose proof (Z.mod_pos_bound (next s) 1000 ltac:(lia)) as Hb.
    assert (0 <= Qmake (next s mod 1000) 1000)%Q as H0
      by (unfold Qle; simpl; lia).
    assert (Qmake (next s mod 1000) 1000 < 1)%Q as H1
      by (unfold Qlt; simpl; lia).
    split; nra.
  - intros lo hi s Hlt. unfold randint; simpl.
    pose proof (Z.mod_pos_bound (next s) (hi - lo) ltac:(lia)). lia.
Defined.

End Lcg.

(** A scripted generator: it replays the listed draws, given in
    thousandths, and draws one half once the list is exhausted.  Every
    sequence of draws it replays is one the real generator can produce. *)
Module Script.

Definition random (g : list Z) : Q * list Z :=
  match g with
  | [] => (0.5%Q, [])
  | x :: rest => (Qmake (x mod 1000) 1000, rest)
  end.

Definition uniform (lo hi : Q) (g : list Z) : Q * list Z :=
  let '(r, g) := random g in ((lo + (hi - lo) * r)%Q, g).

Definition randint (lo hi : Z) (g : list Z) : Z * list Z :=
  match g with
  | [] => (lo + 0 mod (hi - lo), [])
  | x :: rest => (lo + x mod (hi - lo), rest)
  end.

#[export] Instance numpy_random : NumpyRandom.
Proof.
  refine (Build_NumpyRandom (list Z) (fun _ => []) random uniform randint _ _ _).
  - intros [| x g]; simpl; [split; [discriminate | reflexivity] |].
    pose proof (Z.mod_pos_bound x 1000 ltac:(lia)) as Hb.
    unfold Qle, Qlt; simpl. lia.
  - intros lo hi g Hle. unfold uniform.
    assert (0 <= (random g).1 /\ (random g).1 < 1)%Q as [H0 H1].
    { destruct g as [| x g]; simpl; [split; [discriminate | reflexivity] |].
      pose proof (Z.mod_pos_bound x 1000 ltac:(lia)) as Hb.
      unfold Qle, Qlt; simpl. lia. }
    destruct (random g) as [r g']; simpl in *. split; nra.
  - intros lo hi g Hlt. unfold randint.
    destruct g as [| x g]; simpl.
    + pose proof (Z.mod_pos_bound 0 (hi - lo) ltac:(lia)). lia.
    + pose proof (Z.mod_pos_bound x (hi - lo) ltac:(lia)). lia.
Defined.

End Script.

(** ** attack_mode.py *)

Module AttackMode.

Inductive AttackModeState := AVAILABLE | ACTIVATING | ACTIVE | USED.

#[export] Instance AttackModeState_eq_dec : EqDecision AttackModeState.
Proof. solve_decision. Defined.

Record AttackModeActivation := {
  act_car_id : Z;
  activation_lap : Z;
  activation_time : Q;
  duration : Q;
  time_loss : Q;
  power_boost : Q
}.

Record t := {
  car_id : Z;
  activation_zone_start : Q;
  activation_zone_end : Q;
  base_power_kw : Q;
  attack_mode_power_kw : Q;
  max_activations : Z;
  activation_duration : Q;
  activation_time_loss : Q;
  state : AttackModeState;
  activations_remaining : Z;
  current_activation_start_time : option Q;
  current_activation_lap : option Z;
  activation_history : list AttackModeActivation
}.

(** [AttackMode.__init__]: reseeds the generator with
    [random_seed + car_id] and draws the time loss once. *)
Definition init `{NumpyRandom} (car_id : Z) (activation_zone_start activation_zone_end : Q)
    (base_power_kw : Q) (random_seed : option Z) (g : rng) : t * rng :=
  let g := reseed ((fun s => s + car_id) <$> random_seed) g in
  let '(loss, g) := uniform 0.5 1.0 g in
  ({| car_id := car_id;
      activation_zone_start := activation_zone_start;
      activation_zone_end := activation_zone_end;
      base_power_kw := base_power_kw;
      attack_mode_power_kw := 250.0;
      max_activations := 2;
      activation_duration := 240.0;
      activation_time_loss := loss;
      state := AVAILABLE;
      activations_remaining := 2;
      current_activation_start_time := None;
      current_activation_lap := None;
      activation_history := [] |}, g).

Definition can_activate (self : t) (current_lap : Z) (race_time track_position : Q)
    : Result (bool * string) :=
  if decide (state self = USED) then Ok (false, "All activations used"%string)
  else if decide (state self = ACTIVE) then Ok (false, "Already active"%string)
  else if decide (state self = ACTIVATING) then Ok (false, "Currently activating"%string)
  else
    let zone_length := (activation_zone_end self - activation_zone_start self)%Q in
    position_in_zone ← Py.mod_ track_position (zone_length + 1000.0)%Q;
    if negb (Py.leb (activation_zone_start self) position_in_zone
             && Py.leb position_in_zone (activation_zone_end self))
    then Ok (false, "Not in activation zone"%string)
    else Ok (true, "Can activate"%string).

Definition activate (self : t) (current_lap : Z) (race_time track_position : Q)
    : Result (bool * t) :=
  '(can, reason) ← can_activate self current_lap race_time track_position;
  if negb can then Ok (false, self)
  else
    let activation :=
      {| act_car_id := car_id self;
         activation_lap := current_lap;
         activation_time := race_time;
         duration := activation_duration self;
         time_loss := activation_time_loss self;
         power_boost := (attack_mode_power_kw self - base_power_kw self)%Q |} in
    Ok (true,
        {| car_id := car_id self;
           activation_zone_start := activation_zone_start self;
           activation_zone_end := activation_zone_end self;
           base_power_kw := base_power_kw self;
           attack_mode_power_kw := attack_mode_power_kw self;
           max_activations := max_activations self;
           activation_duration := activation_duration self;
           activation_time_loss := activation_time_loss self;
           state := ACTIVE;
           activations_remaining := activations_remaining self - 1;
           current_activation_start_time := Some race_time;
           current_activation_lap := Some current_lap;
           activation_history := activation_history self ++ [activation] |}).

(** The expiry branch of [update]. *)
Definition expire (self : t) : t :=
  {| car_id := car_id self;
     activation_zone_start := activation_zone_start self;
     activation_zone_end := activation_zone_end self;
     base_power_kw := base_power_kw self;
     attack_mode_power_kw := attack_mode_power_kw self;
     max_activations := max_activations self;
     activation_duration := activation_duration self;
     activation_time_loss := activation_time_loss self;
     state := if 0 <? activations_remaining self then AVAILABLE else USED;
     activations_remaining := activations_remaining self;
     current_activation_start_time := None;
     current_activation_lap := current_activation_lap self;
     activation_history := activation_history self |}.

Definition update (self : t) (race_time : Q) : bool * t :=
  if decide (state self = ACTIVE) then
    match current_activation_start_time self with
    | Some start =>
        let elapsed := (race_time - start)%Q in
        if Py.leb (activation_duration self) elapsed then (true, expire self)
        else (false, self)
    | None => (false, self)
    end
  else (false, self).

Definition is_active (self : t) : bool := bool_decide (state self = ACTIVE).

Definition is_activating (self : t) : bool := bool_decide (state self = ACTIVATING).

Definition get_power_kw (self : t) : Q :=
  if is_active self then attack_mode_power_kw self else base_power_kw self.

Definition get_power_boost (self : t) : Q :=
  if is_active self then (attack_mode_power_kw self - base_power_kw self)%Q else 0.0%Q.

Definition get_activations_remaining (self : t) : Z := activations_remaining self.

Definition get_activation_history (self : t) : list AttackModeActivation :=
  activation_history self.

Definition get_time_loss (self : t) : Q :=
  if decide (state self = ACTIVATING) then activation_time_loss self else 0.0%Q.

End AttackMode.

Module AttackModeManager.

Record t := {
  num_cars : Z;
  track_length : Q;
  activation_zone_start : Q;
  activation_zone_end : Q;
  attack_modes : gmap Z AttackMode.t
}.

(** The constructor loop [for car_id in range(num_cars)]. *)
Definition create_modes `{NumpyRandom} (ids : list Z) (zone_start zone_end : Q)
    (random_seed : option Z) (g : rng) : gmap Z AttackMode.t * rng :=
  foldl (fun '(modes, g) car_id =>
           let '(am, g) := AttackMode.init car_id zone_start zone_end 200.0 random_seed g in
           (<[car_id := am]> modes, g))
        (∅, g) ids.

Definition init `{NumpyRandom} (num_cars : Z) (track_length : Q)
    (activation_zone_start activation_zone_end : option Q)
    (random_seed : option Z) (g : rng) : t * rng :=
  let zone_start := default (track_length * 0.20)%Q activation_zone_start in
  let zone_end := default (track_length * 0.25)%Q activation_zone_end in
  let '(modes, g) := create_modes (Py.range num_cars) zone_start zone_end random_seed g in
  ({| num_cars := num_cars;
      track_length := track_length;
      activation_zone_start := zone_start;
      activation_zone_end := zone_end;
      attack_modes := modes |}, g).

Definition set_modes (self : t) (modes : gmap Z AttackMode.t) : t :=
  {| num_cars := num_cars self;
     track_length := track_length self;
     activation_zone_start := activation_zone_start self;
     activation_zone_end := activation_zone_end self;
     attack_modes := modes |}.

Definition can_activate (self : t) (car_id current_lap : Z) (race_time track_position : Q)
    : Result (bool * string) :=
  match attack_modes self !! car_id with
  | None => Ok (false, "Invalid car ID"%string)
  | Some am => AttackMode.can_activate am current_lap race_time track_position
  end.

Definition activate (self : t) (car_id current_lap : Z) (race_time track_position : Q)
    : Result (bool * t) :=
  match attack_modes self !! car_id with
  | None => Ok (false, self)
  | Some am =>
      '(ok, am') ← AttackMode.activate am current_lap race_time track_position;
      Ok (ok, set_modes self (<[car_id := am']> (attack_modes self)))
  end.

Definition update_all (self : t) (race_time : Q) : t :=
  set_modes self ((fun am => (AttackMode.update am race_time).2) <$> attack_modes self).

Definition is_active (self : t) (car_id : Z) : bool :=
  match attack_modes self !! car_id with
  | None => false
  | Some am => AttackMode.is_active am
  end.

Definition get_power_kw (self : t) (car_id : Z) : Q :=
  match attack_modes self !! car_id with
  | None => 200.0%Q
  | Some am => AttackMode.get_power_kw am
  end.

Definition get_activations_remaining (self : t) (car_id : Z) : Z :=
  match attack_modes self !! car_id with
  | None => 0
  | Some am => AttackMode.get_activations_remaining am
  end.

End AttackModeManager.

(** ** overtaking.py *)

Module OvertakingModel.

Record OvertakingAttempt := {
  attacker_id : Z;
  defender_id : Z;
  success : bool;
  speed_differential : Q;
  time_gain : Q;
  timestamp : Q
}.

Record t := {
  track_length : Q;
  min_speed_diff : Q;
  slipstream_distance : Q;
  slipstream_drag_reduction : Q;
  success_probabilities : list (Q * float_inf * Q);
  attack_mode_power_boost : Q;
  attack_mode_speed_advantage : Q;
  overtaking_history : list OvertakingAttempt
}.

(** The dictionary returned by [attempt_overtake]. *)
Record Outcome := {
  res_success : bool;
  res_speed_differential_kmh : Q;
  res_time_gain : Q;
  res_slipstream_active : bool
}.

(** The dictionary returned by [get_overtaking_statistics]. *)
Record Statistics := {
  total_attempts : Z;
  successful_overtakes : Z;
  success_rate : Q;
  avg_speed_differential : Q
}.

Definition init `{NumpyRandom} (track_length : Q) (random_seed : option Z) (g : rng)
    : t * rng :=
  let g := reseed random_seed g in
  ({| track_length := track_length;
      min_speed_diff := 5.0;
      slipstream_distance := 1.0;
      slipstream_drag_reduction := 0.05;
      success_probabilities :=
        [ (5.0%Q, Fin 10.0, 0.20%Q);
          (10.0%Q, Fin 15.0, 0.50%Q);
          (15.0%Q, Inf, 0.80%Q) ];
      attack_mode_power_boost := 50.0;
      attack_mode_speed_advantage := 8.0;
      overtaking_history := [] |}, g).

Definition calculate_slipstream_effect (self : t) (gap_seconds base_drag : Q) : Result Q :=
  if Py.leb gap_seconds (slipstream_distance self) then
    ratio ← Py.div gap_seconds (slipstream_distance self);
    let drag_reduction := (slipstream_drag_reduction self * (1.0 - ratio))%Q in
    Ok (base_drag * (1.0 - drag_reduction))%Q
  else Ok base_drag.

(** The loop [for min_diff, max_diff, prob in self.success_probabilities]
    with its fall-through value. *)
Fixpoint find_probability (table : list (Q * float_inf * Q)) (speed_diff_kmh : Q) : Q :=
  match table with
  | [] => 0.95%Q
  | (min_diff, max_diff, prob) :: rest =>
      if Py.leb min_diff speed_diff_kmh && Py.ltb_inf speed_diff_kmh max_diff
      then prob
      else find_probability rest speed_diff_kmh
  end.

(** The differential after the attack-mode adjustments. *)
Definition adjusted_diff (self : t) (speed_diff_kmh : Q)
    (attacker_has_attack_mode defender_has_attack_mode : bool) : Q :=
  let d := if attacker_has_attack_mode
           then (speed_diff_kmh + attack_mode_speed_advantage self)%Q
           else speed_diff_kmh in
  if defender_has_attack_mode then (d - attack_mode_speed_advantage self)%Q else d.

Definition get_overtaking_success_probability (self : t) (speed_diff_kmh : Q)
    (attacker_has_attack_mode defender_has_attack_mode : bool) : Q :=
  let speed_diff_kmh :=
    adjusted_diff self speed_diff_kmh attacker_has_attack_mode defender_has_attack_mode in
  if Py.ltb speed_diff_kmh (min_speed_diff self) then 0.0%Q
  else find_probability (success_probabilities self) speed_diff_kmh.

Definition record_attempt (self : t) (attempt : OvertakingAttempt) : t :=
  {| track_length := track_length self;
     min_speed_diff := min_speed_diff self;
     slipstream_distance := slipstream_distance self;
     slipstream_drag_reduction := slipstream_drag_reduction self;
     success_probabilities := success_probabilities self;
     attack_mode_power_boost := attack_mode_power_boost self;
     attack_mode_speed_advantage := attack_mode_speed_advantage self;
     overtaking_history := overtaking_history self ++ [attempt] |}.

(** The time gain computed on a successful pass. *)
Definition successful_time_gain (attacker_speed defender_speed speed_diff_kmh : Q)
    : Result Q :=
  let speed_diff_ms := (speed_diff_kmh / 3.6)%Q in
  let overtaking_distance := 250.0%Q in
  t_attacker ← Py.div overtaking_distance (attacker_speed + speed_diff_ms / 2)%Q;
  t_defender ← Py.div overtaking_distance defender_speed;
  Ok (Py.max_ 0.0 (t_attacker - t_defender)%Q).

Definition attempt_overtake `{NumpyRandom} (self : t) (attacker_id defender_id : Z)
    (attacker_speed defender_speed gap_seconds track_position : Q)
    (attacker_has_attack_mode defender_has_attack_mode : bool)
    (timestamp : Q) (g : rng) : Result (Outcome * t * rng) :=
  let attacker_speed_kmh := (attacker_speed * 3.6)%Q in
  let defender_speed_kmh := (defender_speed * 3.6)%Q in
  let speed_diff_kmh := (attacker_speed_kmh - defender_speed_kmh)%Q in
  if Py.ltb speed_diff_kmh (min_speed_diff self) then
    Ok ({| res_success := false;
           res_speed_differential_kmh := speed_diff_kmh;
           res_time_gain := 0.0;
           res_slipstream_active := Py.leb gap_seconds (slipstream_distance self) |},
        self, g)
  else
    let slipstream_active := Py.leb gap_seconds (slipstream_distance self) in
    let success_prob :=
      get_overtaking_success_probability self speed_diff_kmh
        attacker_has_attack_mode defender_has_attack_mode in
    let '(u, g) := random g in
    let success := Py.ltb u success_prob in
    time_gain ← (if success
                 then successful_time_gain attacker_speed defender_speed speed_diff_kmh
                 else Ok 0.0%Q);
    let attempt :=
      {| attacker_id := attacker_id;
         defender_id := defender_id;
         success := success;
         speed_differential := speed_diff_kmh;
         time_gain := time_gain;
         timestamp := timestamp |} in
    Ok ({| res_success := success;
           res_speed_differential_kmh := speed_diff_kmh;
           res_time_gain := time_gain;
           res_slipstream_active := slipstream_active |},
        record_attempt self attempt, g).

Definition can_overtake (self : t) (attacker_speed defender_speed gap_seconds : Q) : bool :=
  let speed_diff_kmh := ((attacker_speed - defender_speed) * 3.6)%Q in
  Py.leb (min_speed_diff self) speed_diff_kmh && Py.leb gap_seconds 2.0.

Definition sum_Q (l : list Q) : Q := foldr Qplus 0%Q l.

Definition get_overtaking_statistics (self : t) : Statistics :=
  match overtaking_history self with
  | [] =>
      {| total_attempts := 0; successful_overtakes := 0;
         success_rate := 0.0; avg_speed_differential := 0.0 |}
  | _ =>
      let n := Z.of_nat (length (overtaking_history self)) in
      let successful := Z.of_nat (length (filter (fun a => success a = true)
                                                 (overtaking_history self))) in
      {| total_attempts := n;
         successful_overtakes := successful;
         success_rate := (inject_Z successful / inject_Z n)%Q;
         avg_speed_differential :=
           (sum_Q (speed_differential <$> overtaking_history self) / inject_Z n)%Q |}
  end.

End OvertakingModel.

(** ** race_events.py *)

Module RaceEvents.

Inductive EventType := SAFETY_CAR | CRASH | WEATHER_CHANGE | VIRTUAL_SAFETY_CAR.

Inductive SafetyCarState := DEPLOYED | STANDING | RETURNING | CLEAR.

#[export] Instance SafetyCarState_eq_dec : EqDecision SafetyCarState.
Proof. solve_decision. Defined.

Record RaceEvent := {
  event_type : EventType;
  timestamp : Q;
  car_id : option Z;
  description : string
}.

Record t := {
  num_cars : Z;
  track_length : Q;
  safety_car_state : SafetyCarState;
  safety_car_active : bool;
  safety_car_laps_remaining : Z;
  safety_car_deployment_lap : option Z;
  safety_car_speed : Q;
  safety_car_probability : Q;
  crash_probability_per_car : Q;
  weather_change_probability : Q;
  weather_dry : bool;
  mu_weather : Q;
  track_temperature : Q;
  event_log : list RaceEvent;
  crashed_cars : gset Z;
  total_safety_cars : Z;
  total_crashes : Z
}.

(** The dictionary returned by [check_lap_events]. *)
Record LapEvents := {
  safety_car_deployed : bool;
  crashes : list Z;
  weather_changed : bool;
  new_mu_weather : Q
}.

(** The dictionary returned by [get_event_summary]. *)
Record Summary := {
  sum_total_safety_cars : Z;
  sum_total_crashes : Z;
  sum_crashed_cars : gset Z;
  sum_weather_dry : bool;
  sum_mu_weather : Q;
  sum_track_temperature : Q;
  sum_event_count : Z
}.

(** [RaceEvents.__init__].  It also seeds Python's own [random] module,
    from which nothing is ever drawn. *)
Definition init `{NumpyRandom} (num_cars : Z) (track_length : Q)
    (random_seed : option Z) (g : rng) : t * rng :=
  let g := reseed random_seed g in
  ({| num_cars := num_cars;
      track_length := track_length;
      safety_car_state := CLEAR;
      safety_car_active := false;
      safety_car_laps_remaining := 0;
      safety_car_deployment_lap := None;
      safety_car_speed := (80.0 / 3.6)%Q;
      safety_car_probability := 0.03;
      crash_probability_per_car := 0.015;
      weather_change_probability := 0.02;
      weather_dry := true;
      mu_weather := 1.0;
      track_temperature := 25.0;
      event_log := [];
      crashed_cars := ∅;
      total_safety_cars := 0;
      total_crashes := 0 |}, g).

(** Assignment to the four safety-car attributes. *)
Definition set_safety_car (self : t) (st : SafetyCarState) (active : bool)
    (laps_remaining : Z) (deployment_lap : option Z) : t :=
  {| num_cars := num_cars self;
     track_length := track_length self;
     safety_car_state := st;
     safety_car_active := active;
     safety_car_laps_remaining := laps_remaining;
     safety_car_deployment_lap := deployment_lap;
     safety_car_speed := safety_car_speed self;
     safety_car_probability := safety_car_probability self;
     crash_probability_per_car := crash_probability_per_car self;
     weather_change_probability := weather_change_probability self;
     weather_dry := weather_dry self;
     mu_weather := mu_weather self;
     track_temperature := track_temperature self;
     event_log := event_log self;
     crashed_cars := crashed_cars self;
     total_safety_cars := total_safety_cars self;
     total_crashes := total_crashes self |}.

(** Append to the log and assign the two counters and the crashed set. *)
Definition log_event (self : t) (event : RaceEvent) (safety_cars crashes_ : Z)
    (crashed : gset Z) : t :=
  {| num_cars := num_cars self;
     track_length := track_length self;
     safety_car_state := safety_car_state self;
     safety_car_active := safety_car_active self;
     safety_car_laps_remaining := safety_car_laps_remaining self;
     safety_car_deployment_lap := safety_car_deployment_lap self;
     safety_car_speed := safety_car_speed self;
     safety_car_probability := safety_car_probability self;
     crash_probability_per_car := crash_probability_per_car self;
     weather_change_probability := weather_change_probability self;
     weather_dry := weather_dry self;
     mu_weather := mu_weather self;
     track_temperature := track_temperature self;
     event_log := event_log self ++ [event];
     crashed_cars := crashed;
     total_safety_cars := safety_cars;
     total_crashes := crashes_ |}.

(** Assignment to the three weather attributes. *)
Definition set_weather (self : t) (dry : bool) (mu temperature : Q) : t :=
  {| num_cars := num_cars self;
     track_length := track_length self;
     safety_car_state := safety_car_state self;
     safety_car_active := safety_car_active self;
     safety_car_laps_remaining := safety_car_laps_remaining self;
     safety_car_deployment_lap := safety_car_deployment_lap self;
     safety_car_speed := safety_car_speed self;
     safety_car_probability := safety_car_probability self;
     crash_probability_per_car := crash_probability_per_car self;
     weather_change_probability := weather_change_probability self;
     weather_dry := dry;
     mu_weather := mu;
     track_temperature := temperature;
     event_log := event_log self;
     crashed_cars := crashed_cars self;
     total_safety_cars := total_safety_cars self;
     total_crashes := total_crashes self |}.

Definition _deploy_safety_car `{NumpyRandom} (self : t) (lap : Z) (race_time : Q) (g : rng)
    : t * rng :=
  let '(laps, g) := randint 3 9 g in
  let self := set_safety_car self DEPLOYED true laps (Some lap) in
  let event :=
    {| event_type := SAFETY_CAR;
       timestamp := race_time;
       car_id := None;
       description := ("Safety car deployed on lap " ++ Py.str lap ++ " for "
                       ++ Py.str (safety_car_laps_remaining self) ++ " laps")%string |} in
  (log_event self event (total_safety_cars self + 1) (total_crashes self)
     (crashed_cars self), g).

Definition _register_crash (self : t) (car : Z) (race_time : Q) : t :=
  let event :=
    {| event_type := CRASH;
       timestamp := race_time;
       car_id := Some car;
       description := ("Car " ++ Py.str car ++ " crashed and retired")%string |} in
  log_event self event (total_safety_cars self) (total_crashes self + 1)
    ({[car]} ∪ crashed_cars self).

Definition _change_weather `{NumpyRandom} (self : t) (g : rng) : t * rng :=
  let '(self, g) :=
    if weather_dry self then
      let '(grip_reduction, g) := uniform 0.15 0.30 g in
      let '(cooling, g) := uniform 5 15 g in
      (set_weather self false (1.0 - grip_reduction)%Q (track_temperature self - cooling)%Q, g)
    else
      let '(u, g) := random g in
      if Py.ltb u 0.3 then
        let '(mu, g) := uniform 0.85 1.0 g in
        let '(warming, g) := uniform 2 8 g in
        (set_weather self true mu (track_temperature self + warming)%Q, g)
      else (self, g) in
  (set_weather self (weather_dry self) (Py.clip (mu_weather self) 0.5 1.0)
     (Py.clip (track_temperature self) 10 50), g).

(** One iteration of the crash loop of [check_lap_events]. *)
Definition check_crash `{NumpyRandom} (current_lap : Z) (race_time : Q)
    (acc : t * LapEvents * rng) (car : Z) : t * LapEvents * rng :=
  let '(self, events, g) := acc in
  if decide (car ∈ crashed_cars self) then acc
  else
    let '(u, g) := random g in
    if Py.ltb u (crash_probability_per_car self) then
      let self := _register_crash self car race_time in
      let events :=
        {| safety_car_deployed := safety_car_deployed events;
           crashes := crashes events ++ [car];
           weather_changed := weather_changed events;
           new_mu_weather := new_mu_weather events |} in
      if safety_car_active self then (self, events, g)
      else
        let '(u, g) := random g in
        if Py.ltb u 0.5 then
          let '(self, g) := _deploy_safety_car self current_lap race_time g in
          (self,
           {| safety_car_deployed := true;
              crashes := crashes events;
              weather_changed := weather_changed events;
              new_mu_weather := new_mu_weather events |}, g)
        else (self, events, g)
    else (self, events, g).

Definition check_lap_events `{NumpyRandom} (self : t) (current_lap : Z) (race_time : Q)
    (active_cars : list Z) (g : rng) : LapEvents * t * rng :=
  let events :=
    {| safety_car_deployed := false; crashes := [];
       weather_changed := false; new_mu_weather := mu_weather self |} in
  let '(self, events, g) :=
    if safety_car_active self then (self, events, g)
    else
      let '(u, g) := random g in
      if Py.ltb u (safety_car_probability self) then
        let '(self, g) := _deploy_safety_car self current_lap race_time g in
        (self,
         {| safety_car_deployed := true;
            crashes := crashes events;
            weather_changed := weather_changed events;
            new_mu_weather := new_mu_weather events |}, g)
      else (self, events, g) in
  let '(self, events, g) :=
    foldl (check_crash current_lap race_time) (self, events, g) active_cars in
  let '(u, g) := random g in
  if Py.ltb u (weather_change_probability self) then
    let '(self, g) := _change_weather self g in
    ({| safety_car_deployed := safety_car_deployed events;
        crashes := crashes events;
        weather_changed := true;
        new_mu_weather := mu_weather self |}, self, g)
  else (events, self, g).

Definition update_safety_car (self : t) (current_lap : Z) : bool * t :=
  if negb (safety_car_active self) then (false, self)
  else
    let self := set_safety_car self (safety_car_state self) (safety_car_active self)
                  (safety_car_laps_remaining self - 1) (safety_car_deployment_lap self) in
    if safety_car_laps_remaining self <=? 0 then
      if decide (safety_car_state self = DEPLOYED) then
        (true, set_safety_car self RETURNING (safety_car_active self) 1
                 (safety_car_deployment_lap self))
      else if decide (safety_car_state self = RETURNING) then
        (true, set_safety_car self CLEAR false 0 (safety_car_deployment_lap self))
      else (false, self)
    else (false, self).

Definition get_safety_car_speed (self : t) : float_inf :=
  if safety_car_active self then Fin (safety_car_speed self) else Inf.

Definition is_car_crashed (self : t) (car : Z) : bool := bool_decide (car ∈ crashed_cars self).

Definition get_active_cars (self : t) (all_car_ids : list Z) : list Z :=
  filter (fun cid => cid ∉ crashed_cars self) all_car_ids.

Definition get_weather_factor (self : t) : Q := mu_weather self.

Definition get_event_summary (self : t) : Summary :=
  {| sum_total_safety_cars := total_safety_cars self;
     sum_total_crashes := total_crashes self;
     sum_crashed_cars := crashed_cars self;
     sum_weather_dry := weather_dry self;
     sum_mu_weather := mu_weather self;
     sum_track_temperature := track_temperature self;
     sum_event_count := Z.of_nat (length (event_log self)) |}.

Definition get_events_log (self : t) : list RaceEvent := event_log self.

End RaceEvents.

(** ** race_simulator.py: the data model *)

Module CarState.

Record t := {
  car_id : Z;
  position : Z;
  lap : Z;
  track_distance : Q;
  track_position_normalized : Q;
  speed : Q;
  energy_remaining : Q;
  race_time : Q;
  gap_to_leader : Q;
  gap_to_car_ahead : Q;
  gap_to_car_behind : Q;
  lap_times : list Q;
  is_active : bool
}.

(** [state.position = p]. *)
Definition set_position (p : Z) (c : t) : t :=
  {| car_id := car_id c; position := p; lap := lap c;
     track_distance := track_distance c;
     track_position_normalized := track_position_normalized c;
     speed := speed c; energy_remaining := energy_remaining c;
     race_time := race_time c; gap_to_leader := gap_to_leader c;
     gap_to_car_ahead := gap_to_car_ahead c;
     gap_to_car_behind := gap_to_car_behind c;
     lap_times := lap_times c; is_active := is_active c |}.

(** [state.lap = n]. *)
Definition set_lap (n : Z) (c : t) : t :=
  {| car_id := car_id c; position := position c; lap := n;
     track_distance := track_distance c;
     track_position_normalized := track_position_normalized c;
     speed := speed c; energy_remaining := energy_remaining c;
     race_time := race_time c; gap_to_leader := gap_to_leader c;
     gap_to_car_ahead := gap_to_car_ahead c;
     gap_to_car_behind := gap_to_car_behind c;
     lap_times := lap_times c; is_active := is_active c |}.

(** [state.is_active = False]. *)
Definition deactivate (c : t) : t :=
  {| car_id := car_id c; position := position c; lap := lap c;
     track_distance := track_distance c;
     track_position_normalized := track_position_normalized c;
     speed := speed c; energy_remaining := energy_remaining c;
     race_time := race_time c; gap_to_leader := gap_to_leader c;
     gap_to_car_ahead := gap_to_car_ahead c;
     gap_to_car_behind := gap_to_car_behind c;
     lap_times := lap_times c; is_active := false |}.

(** Assignment to the three gap attributes. *)
Definition set_gaps (leader ahead behind : Q) (c : t) : t :=
  {| car_id := car_id c; position := position c; lap := lap c;
     track_distance := track_distance c;
     track_position_normalized := track_position_normalized c;
     speed := speed c; energy_remaining := energy_remaining c;
     race_time := race_time c; gap_to_leader := leader;
     gap_to_car_ahead := ahead;
     gap_to_car_behind := behind;
     lap_times := lap_times c; is_active := is_active c |}.

(** The assignments of one pass of [_update_cars] over a car. *)
Definition set_kinematics (v distance normalized energy : Q) (active : bool) (c : t) : t :=
  {| car_id := car_id c; position := position c; lap := lap c;
     track_distance := distance;
     track_position_normalized := normalized;
     speed := v; energy_remaining := energy;
     race_time := race_time c; gap_to_leader := gap_to_leader c;
     gap_to_car_ahead := gap_to_car_ahead c;
     gap_to_car_behind := gap_to_car_behind c;
     lap_times := lap_times c; is_active := active |}.

End CarState.

Module RaceState.

Record t := {
  race_time : Q;
  current_lap : Z;
  leader_id : Z;
  positions : gmap Z Z;
  safety_car_active : bool;
  weather_dry : bool;
  mu_weather : Q
}.

Definition set_race_time (x : Q) (r : t) : t :=
  {| race_time := x; current_lap := current_lap r; leader_id := leader_id r;
     positions := positions r; safety_car_active := safety_car_active r;
     weather_dry := weather_dry r; mu_weather := mu_weather r |}.

Definition set_current_lap (n : Z) (r : t) : t :=
  {| race_time := race_time r; current_lap := n; leader_id := leader_id r;
     positions := positions r; safety_car_active := safety_car_active r;
     weather_dry := weather_dry r; mu_weather := mu_weather r |}.

Definition set_leader_id (n : Z) (r : t) : t :=
  {| race_time := race_time r; current_lap := current_lap r; leader_id := n;
     positions := positions r; safety_car_active := safety_car_active r;
     weather_dry := weather_dry r; mu_weather := mu_weather r |}.

Definition set_positions (p : gmap Z Z) (r : t) : t :=
  {| race_time := race_time r; current_lap := current_lap r; leader_id := leader_id r;
     positions := p; safety_car_active := safety_car_active r;
     weather_dry := weather_dry r; mu_weather := mu_weather r |}.

Definition set_safety_car_active (b : bool) (r : t) : t :=
  {| race_time := race_time r; current_lap := current_lap r; leader_id := leader_id r;
     positions := positions r; safety_car_active := b;
     weather_dry := weather_dry r; mu_weather := mu_weather r |}.

Definition set_mu_weather (x : Q) (r : t) : t :=
  {| race_time := race_time r; current_lap := current_lap r; leader_id := leader_id r;
     positions := positions r; safety_car_active := safety_car_active r;
     weather_dry := weather_dry r; mu_weather := x |}.

End RaceState.

(** A [dict] with int keys, kept in insertion order. *)
Module Dict.

Fixpoint get {V : Type} (d : list (Z * V)) (k : Z) : Result V :=
  match d with
  | [] => Raise KeyError
  | (k', v) :: rest => if decide (k' = k) then Ok v else get rest k
  end.

(** Mutation of the object stored under [k]; no effect on a missing key. *)
Definition alter {V : Type} (f : V -> V) (k : Z) (d : list (Z * V)) : list (Z * V) :=
  (fun kv : Z * V => if decide (kv.1 = k) then (kv.1, f kv.2) else kv) <$> d.

Definition keys {V : Type} (d : list (Z * V)) : list Z := fst <$> d.

(** [d[k] = v]: in place for a present key, appended for a new one. *)
Definition set {V : Type} (k : Z) (v : V) (d : list (Z * V)) : list (Z * V) :=
  if decide (k ∈ keys d) then alter (fun _ => v) k d else d ++ [(k, v)].

Definition values {V : Type} (d : list (Z * V)) : list V := snd <$> d.

End Dict.

(** [sorted]: a stable sort.  [before y x] says that [y] sorts strictly
    before [x]; elements that compare equal keep their order. *)
Module Sorted.

Fixpoint insert {A : Type} (before : A -> A -> bool) (x : A) (l : list A) : list A :=
  match l with
  | [] => [x]
  | y :: l' => if before y x then y :: insert before x l' else x :: y :: l'
  end.

Definition sorted {A : Type} (before : A -> A -> bool) (l : list A) : list A :=
  foldr (insert before) [] l.

End Sorted.

(** ** race_simulator.py: the orchestrator

    The track loader, the car parameter file and the lap solver belong
    to the lap-time package outside this module.  What the simulator
    reads from them is taken as data: the loaded [Track], the base
    [CarElectric] of the parameter file.  The lap solver only yields the
    reference lap time that [run_race] prints. *)

Module RaceSimulator.

Record Track := {
  track_length : Q;
  stepsize : Q;
  no_points : Z;
  mu : list Q;
  pars_track_mu_weather : Q
}.

Record CarElectric := {
  m : Q;
  eta_e_motor : Q
}.

Record t := {
  num_cars : Z;
  track_name : string;
  race_duration_minutes : Q;
  time_step : Q;
  track : Track;
  cars : gmap Z CarElectric;
  car_states : list (Z * CarState.t);
  race_events : RaceEvents.t;
  overtaking : OvertakingModel.t;
  attack_mode_manager : AttackModeManager.t;
  race_state : RaceState.t;
  race_history : list RaceState.t;
  position_history : gmap Z (list (Q * Z));
  _last_lap_checked : option Z
}.

(** The dictionary returned by [run_race]. *)
Record Results := {
  final_positions : list (Z * Z);
  final_times : list (Z * Q);
  laps_completed : list (Z * Z);
  event_log : list RaceEvents.RaceEvent;
  res_position_history : gmap Z (list (Q * Z));
  overtaking_stats : OvertakingModel.Statistics;
  race_events_summary : RaceEvents.Summary
}.

Definition set_track (x : Track) (s : t) : t :=
  {| num_cars := num_cars s; track_name := track_name s;
     race_duration_minutes := race_duration_minutes s; time_step := time_step s;
     track := x; cars := cars s; car_states := car_states s;
     race_events := race_events s; overtaking := overtaking s;
     attack_mode_manager := attack_mode_manager s; race_state := race_state s;
     race_history := race_history s; position_history := position_history s;
     _last_lap_checked := _last_lap_checked s |}.

Definition set_cars (x : gmap Z CarElectric) (s : t) : t :=
  {| num_cars := num_cars s; track_name := track_name s;
     race_duration_minutes := race_duration_minutes s; time_step := time_step s;
     track := track s; cars := x; car_states := car_states s;
     race_events := race_events s; overtaking := overtaking s;
     attack_mode_manager := attack_mode_manager s; race_state := race_state s;
     race_history := race_history s; position_history := position_history s;
     _last_lap_checked := _last_lap_checked s |}.

Definition set_car_states (x : list (Z * CarState.t)) (s : t) : t :=
  {| num_cars := num_cars s; track_name := track_name s;
     race_duration_minutes := race_duration_minutes s; time_step := time_step s;
     track := track s; cars := cars s; car_states := x;
     race_events := race_events s; overtaking := overtaking s;
     attack_mode_manager := attack_mode_manager s; race_state := race_state s;
     race_history := race_history s; position_history := position_history s;
     _last_lap_checked := _last_lap_checked s |}.

Definition set_race_events (x : RaceEvents.t) (s : t) : t :=
  {| num_cars := num_cars s; track_name := track_name s;
     race_duration_minutes := race_duration_minutes s; time_step := time_step s;
     track := track s; cars := cars s; car_states := car_states s;
     race_events := x; overtaking := overtaking s;
     attack_mode_manager := attack_mode_manager s; race_state := race_state s;
     race_history := race_history s; position_history := position_history s;
     _last_lap_checked := _last_lap_checked s |}.

Definition set_overtaking (x : OvertakingModel.t) (s : t) : t :=
  {| num_cars := num_cars s; track_name := track_name s;
     race_duration_minutes := race_duration_minutes s; time_step := time_step s;
     track := track s; cars := cars s; car_states := car_states s;
     race_events := race_events s; overtaking := x;
     attack_mode_manager := attack_mode_manager s; race_state := race_state s;
     race_history := race_history s; position_history := position_history s;
     _last_lap_checked := _last_lap_checked s |}.

Definition set_attack_mode_manager (x : AttackModeManager.t) (s : t) : t :=
  {| num_cars := num_cars s; track_name := track_name s;
     race_duration_minutes := race_duration_minutes s; time_step := time_step s;
     track := track s; cars := cars s; car_states := car_states s;
     race_events := race_events s; overtaking := overtaking s;
     attack_mode_manager := x; race_state := race_state s;
     race_history := race_history s; position_history := position_history s;
     _last_lap_checked := _last_lap_checked s |}.

Definition set_race_state (x : RaceState.t) (s : t) : t :=
  {| num_cars := num_cars s; track_name := track_name s;
     race_duration_minutes := race_duration_minutes s; time_step := time_step s;
     track := track s; cars := cars s; car_states := car_states s;
     race_events := race_events s; overtaking := overtaking s;
     attack_mode_manager := attack_mode_manager s; race_state := x;
     race_history := race_history s; position_history := position_history s;
     _last_lap_checked := _last_lap_checked s |}.

Definition set_history (h : list RaceState.t) (p : gmap Z (list (Q * Z))) (s : t) : t :=
  {| num_cars := num_cars s; track_name := track_name s;
     race_duration_minutes := race_duration_minutes s; time_step := time_step s;
     track := track s; cars := cars s; car_states := car_states s;
     race_events := race_events s; overtaking := overtaking s;
     attack_mode_manager := attack_mode_manager s; race_state := race_state s;
     race_history := h; position_history := p;
     _last_lap_checked := _last_lap_checked s |}.

Definition set_last_lap_checked (x : option Z) (s : t) : t :=
  {| num_cars := num_cars s; track_name := track_name s;
     race_duration_minutes := race_duration_minutes s; time_step := time_step s;
     track := track s; cars := cars s; car_states := car_states s;
     race_events := race_events s; overtaking := overtaking s;
     attack_mode_manager := attack_mode_manager s; race_state := race_state s;
     race_history := race_history s; position_history := position_history s;
     _last_lap_checked := x |}.

(** [_initialize_track]: the loader is given [mu_weather = 1.0]. *)
Definition _initialize_track (loaded : Track) : Track :=
  {| track_length := track_length loaded; stepsize := stepsize loaded;
     no_points := no_points loaded; mu := mu loaded;
     pars_track_mu_weather := 1.0 |}.

Definition init `{NumpyRandom} (num_cars : Z) (track_name : string)
    (race_duration_minutes time_step : Q) (random_seed : option Z)
    (loaded : Track) (g : rng) : t * rng :=
  let g := reseed random_seed g in
  let track := _initialize_track loaded in
  let '(events, g) := RaceEvents.init num_cars (track_length track) random_seed g in
  let '(overtaking, g) := OvertakingModel.init (track_length track) random_seed g in
  let '(manager, g) :=
    AttackModeManager.init num_cars (track_length track) None None random_seed g in
  ({| num_cars := num_cars; track_name := track_name;
      race_duration_minutes := race_duration_minutes; time_step := time_step;
      track := track; cars := ∅; car_states := [];
      race_events := events; overtaking := overtaking;
      attack_mode_manager := manager;
      race_state :=
        {| RaceState.race_time := 0.0; RaceState.current_lap := 0;
           RaceState.leader_id := 0; RaceState.positions := ∅;
           RaceState.safety_car_active := false; RaceState.weather_dry := true;
           RaceState.mu_weather := 1.0 |};
      race_history := []; position_history := ∅;
      _last_lap_checked := None |}, g).

Definition initial_car_state (car_id : Z) : CarState.t :=
  {| CarState.car_id := car_id; CarState.position := car_id + 1; CarState.lap := 0;
     CarState.track_distance := 0.0; CarState.track_position_normalized := 0.0;
     CarState.speed := 0.0; CarState.energy_remaining := 4.58e6;
     CarState.race_time := 0.0; CarState.gap_to_leader := 0.0;
     CarState.gap_to_car_ahead := 0.0; CarState.gap_to_car_behind := 0.0;
     CarState.lap_times := []; CarState.is_active := true |}.

(** One iteration of the loop of [_initialize_cars]. *)
Definition initialize_car `{NumpyRandom} (base : CarElectric) (acc : t * rng) (car_id : Z)
    : t * rng :=
  let '(s, g) := acc in
  let '(skill_factor, g) := uniform 0.98 1.02 g in
  let '(efficiency_factor, g) := uniform 0.97 1.03 g in
  let car := {| m := (m base * skill_factor)%Q;
                eta_e_motor := (eta_e_motor base * efficiency_factor)%Q |} in
  let s := set_cars (<[car_id := car]> (cars s)) s in
  (set_car_states (Dict.set car_id (initial_car_state car_id) (car_states s)) s, g).

Definition _initialize_cars `{NumpyRandom} (base : CarElectric) (s : t) (g : rng) : t * rng :=
  foldl (initialize_car base) (s, g) (Py.range (num_cars s)).

(** [_calculate_reference_lap_time] reads [self.laps[0]]. *)
Definition _calculate_reference_lap_time (s : t) : Result unit :=
  match cars s !! 0 with
  | Some _ => Ok tt
  | None => Raise KeyError
  end.

(** [self.car_states[crashed_id].is_active = False] for every crash. *)
Definition handle_crashes (crashes : list Z) (cs : list (Z * CarState.t))
    : list (Z * CarState.t) :=
  foldl (fun cs crashed_id => Dict.alter CarState.deactivate crashed_id cs) cs crashes.

Definition _update_race_events `{NumpyRandom} (s : t) (g : rng) : Result (t * rng) :=
  '(s, g) ←
    match _last_lap_checked s with
    | Some last =>
        if negb (RaceState.current_lap (race_state s) =? last) then
          let active_cars :=
            fst <$> filter (fun kv => CarState.is_active kv.2 = true) (car_states s) in
          let '(events, re, g) :=
            RaceEvents.check_lap_events (race_events s)
              (RaceState.current_lap (race_state s))
              (RaceState.race_time (race_state s)) active_cars g in
          let s := set_race_events re s in
          let s := set_car_states
                     (handle_crashes (RaceEvents.crashes events) (car_states s)) s in
          s ←
            (if RaceEvents.weather_changed events then
               let new := RaceEvents.new_mu_weather events in
               let s := set_race_state (RaceState.set_mu_weather new (race_state s)) s in
               ratio ← Py.div new (pars_track_mu_weather (track s));
               Ok (set_track
                     {| track_length := track_length (track s);
                        stepsize := stepsize (track s);
                        no_points := no_points (track s);
                        mu := (fun x => (x * ratio)%Q) <$> mu (track s);
                        pars_track_mu_weather := new |} s)
             else Ok s);
          Ok (set_last_lap_checked (Some (RaceState.current_lap (race_state s))) s, g)
        else Ok (s, g)
    | None => Ok (set_last_lap_checked (Some 0) s, g)
    end;
  let '(_, re) :=
    RaceEvents.update_safety_car (race_events s) (RaceState.current_lap (race_state s)) in
  let s := set_race_events re s in
  Ok (set_race_state
        (RaceState.set_safety_car_active (RaceEvents.safety_car_active re) (race_state s)) s,
      g).

(** The body of the loop of [_update_cars] for one car. *)
Definition update_car (s : t) (safety_car_speed : float_inf) (car_id : Z)
    (state : CarState.t) : Result CarState.t :=
  if negb (CarState.is_active state) then Ok state
  else
    v ←
      (if RaceState.safety_car_active (race_state s) then
         Ok (Py.min_inf (CarState.speed state) safety_car_speed)
       else
         cell ← Py.div (CarState.track_distance state) (stepsize (track s));
         track_idx ← Py.imod (Py.int cell) (no_points (track s));
         let reference_speed := 50.0%Q in
         match cars s !! car_id with
         | None => Raise KeyError
         | Some car =>
             let skill_factor := (m car / 880.0)%Q in
             Ok (reference_speed * (1.0 + (1.0 - skill_factor) * 0.1))%Q
         end);
    let distance := (CarState.track_distance state + v * time_step s)%Q in
    distance ← Py.mod_ distance (track_length (track s));
    normalized ← Py.div distance (track_length (track s));
    let power_kw := AttackModeManager.get_power_kw (attack_mode_manager s) car_id in
    let energy_consumed := ((power_kw * 1000.0 * time_step s) / 0.9)%Q in
    let energy := (CarState.energy_remaining state - energy_consumed)%Q in
    if Py.leb energy 0 then
      Ok (CarState.set_kinematics v distance normalized 0.0 false state)
    else
      Ok (CarState.set_kinematics v distance normalized energy true state).

(** A loop over [self.car_states.items()] whose body may raise. *)
Fixpoint for_each_car (f : Z -> CarState.t -> Result CarState.t)
    (cs : list (Z * CarState.t)) : Result (list (Z * CarState.t)) :=
  match cs with
  | [] => Ok []
  | (car_id, state) :: rest =>
      state' ← f car_id state;
      rest' ← for_each_car f rest;
      Ok ((car_id, state') :: rest')
  end.

Definition _update_cars (s : t) : Result t :=
  let safety_car_speed := RaceEvents.get_safety_car_speed (race_events s) in
  cs ← for_each_car (update_car s safety_car_speed) (car_states s);
  Ok (set_car_states cs s).

(** The sort key [(lap, track_distance)] compared as Python compares tuples. *)
Definition key_lt (a b : Z * CarState.t) : bool :=
  (CarState.lap a.2 <? CarState.lap b.2)
  || ((CarState.lap a.2 =? CarState.lap b.2)
      && Py.ltb (CarState.track_distance a.2) (CarState.track_distance b.2)).

(** [sorted(items, key=lambda x: (x[1].lap, x[1].track_distance), reverse=True)]. *)
Definition sorted_by_progress (items : list (Z * CarState.t)) : list (Z * CarState.t) :=
  Sorted.sorted (fun y x => key_lt x y) items.

(** [for position, (car_id, state) in enumerate(sorted_cars, 1)]. *)
Fixpoint assign_positions (position : Z) (sorted_ids : list Z)
    (acc : list (Z * CarState.t) * gmap Z Z) : list (Z * CarState.t) * gmap Z Z :=
  match sorted_ids with
  | [] => acc
  | car_id :: rest =>
      assign_positions (position + 1) rest
        (Dict.alter (CarState.set_position position) car_id acc.1,
         <[car_id := position]> acc.2)
  end.

(** The body of the loop of [_calculate_gaps] for one car. *)
Definition calculate_gap (s : t) (leader_state : CarState.t) (car_id : Z)
    (state : CarState.t) : CarState.t :=
  if negb (CarState.is_active state) then state
  else
    let gap :=
      if decide (car_id = RaceState.leader_id (race_state s)) then 0.0%Q
      else
        let lap_diff := CarState.lap leader_state - CarState.lap state in
        let dist_diff :=
          (CarState.track_distance leader_state - CarState.track_distance state)%Q in
        let dist_diff :=
          if Py.ltb dist_diff 0 then (dist_diff + track_length (track s))%Q
          else dist_diff in
        if Py.ltb 0 (CarState.speed state) then
          ((inject_Z lap_diff * track_length (track s) + dist_diff)
           / CarState.speed state)%Q
        else 999.0%Q in
    CarState.set_gaps gap 0.5 0.5 state.

Definition _calculate_gaps (s : t) : Result t :=
  leader_state ← Dict.get (car_states s) (RaceState.leader_id (race_state s));
  Ok (set_car_states
        ((fun kv : Z * CarState.t => (kv.1, calculate_gap s leader_state kv.1 kv.2))
           <$> car_states s) s).

Definition _update_positions (s : t) : Result t :=
  let sorted_cars := sorted_by_progress (car_states s) in
  let '(cs, positions) :=
    assign_positions 1 (Dict.keys sorted_cars)
      (car_states s, RaceState.positions (race_state s)) in
  let s := set_car_states cs s in
  let s := set_race_state (RaceState.set_positions positions (race_state s)) s in
  let s :=
    match sorted_cars with
    | [] => s
    | (leader, _) :: _ => set_race_state (RaceState.set_leader_id leader (race_state s)) s
    end in
  _calculate_gaps s.

(** The simultaneous assignment
    [attacker_state.position, defender_state.position =
     defender_state.position, attacker_state.position]. *)
Definition swap_positions (attacker_id defender_id : Z) (cs : list (Z * CarState.t))
    : Result (list (Z * CarState.t)) :=
  attacker_state ← Dict.get cs attacker_id;
  defender_state ← Dict.get cs defender_id;
  Ok (Dict.alter (CarState.set_position (CarState.position attacker_state)) defender_id
        (Dict.alter (CarState.set_position (CarState.position defender_state)) attacker_id
           cs)).

(** The body of the loop of [_check_overtaking] for one adjacent pair. *)
Definition check_pair `{NumpyRandom} (defender attacker : Z * CarState.t) (s : t) (g : rng)
    : Result (t * rng) :=
  let '(attacker_id, attacker_state) := attacker in
  let '(defender_id, defender_state) := defender in
  let gap_seconds :=
    if Py.ltb 0 (CarState.speed attacker_state) then
      ((CarState.track_distance defender_state - CarState.track_distance attacker_state)
       / CarState.speed attacker_state)%Q
    else 999.0%Q in
  if Py.ltb 0 gap_seconds && Py.ltb gap_seconds 2.0 then
    '(result, overtaking, g) ←
      OvertakingModel.attempt_overtake (overtaking s) attacker_id defender_id
        (CarState.speed attacker_state) (CarState.speed defender_state) gap_seconds
        (CarState.track_position_normalized attacker_state)
        (AttackModeManager.is_active (attack_mode_manager s) attacker_id)
        (AttackModeManager.is_active (attack_mode_manager s) defender_id)
        (RaceState.race_time (race_state s)) g;
    let s := set_overtaking overtaking s in
    if OvertakingModel.res_success result then
      cs ← swap_positions attacker_id defender_id (car_states s);
      Ok (set_car_states cs s, g)
    else Ok (s, g)
  else Ok (s, g).

(** [for i in range(len(sorted_cars) - 1)] over the adjacent pairs. *)
Fixpoint overtaking_loop `{NumpyRandom} (sorted_cars : list (Z * CarState.t)) (s : t)
    (g : rng) : Result (t * rng) :=
  match sorted_cars with
  | defender :: rest =>
      match rest with
      | attacker :: _ =>
          '(s, g) ← check_pair defender attacker s g;
          overtaking_loop rest s g
      | [] => Ok (s, g)
      end
  | [] => Ok (s, g)
  end.

Definition _check_overtaking `{NumpyRandom} (s : t) (g : rng) : Result (t * rng) :=
  let sorted_cars :=
    sorted_by_progress
      (filter (fun kv => CarState.is_active kv.2 = true) (car_states s)) in
  overtaking_loop sorted_cars s g.

Definition _update_attack_modes (s : t) : t :=
  set_attack_mode_manager
    (AttackModeManager.update_all (attack_mode_manager s)
       (RaceState.race_time (race_state s))) s.

(** The loop of [_check_lap_completion], threading the global lap counter. *)
Fixpoint lap_completion_loop (dt : Q) (cs : list (Z * CarState.t)) (current_lap : Z)
    : list (Z * CarState.t) * Z :=
  match cs with
  | [] => ([], current_lap)
  | (car_id, state) :: rest =>
      let '(state, current_lap) :=
        if negb (CarState.is_active state) then (state, current_lap)
        else if Py.ltb (CarState.track_distance state) (dt * CarState.speed state)%Q then
          let state := CarState.set_lap (CarState.lap state + 1) state in
          (state, if current_lap <? CarState.lap state then CarState.lap state
                  else current_lap)
        else (state, current_lap) in
      let '(rest, current_lap) := lap_completion_loop dt rest current_lap in
      ((car_id, state) :: rest, current_lap)
  end.

Definition _check_lap_completion (s : t) : t :=
  let '(cs, current_lap) :=
    lap_completion_loop (time_step s) (car_states s)
      (RaceState.current_lap (race_state s)) in
  set_race_state (RaceState.set_current_lap current_lap (race_state s))
    (set_car_states cs s).

Definition _store_history (s : t) : t :=
  let snapshot :=
    {| RaceState.race_time := RaceState.race_time (race_state s);
       RaceState.current_lap := RaceState.current_lap (race_state s);
       RaceState.leader_id := RaceState.leader_id (race_state s);
       RaceState.positions := RaceState.positions (race_state s);
       RaceState.safety_car_active := RaceState.safety_car_active (race_state s);
       RaceState.weather_dry := RaceEvents.weather_dry (race_events s);
       RaceState.mu_weather := RaceState.mu_weather (race_state s) |} in
  let history :=
    foldl (fun (h : gmap Z (list (Q * Z))) (kv : Z * CarState.t) =>
             <[kv.1 := default [] (h !! kv.1)
                       ++ [(RaceState.race_time (race_state s), CarState.position kv.2)]]> h)
          (position_history s) (car_states s) in
  set_history (race_history s ++ [snapshot]) history s.

Definition _compile_results (s : t) : Results :=
  let final_order :=
    Sorted.sorted (fun y x : Z * CarState.t =>
                     CarState.position y.2 <? CarState.position x.2) (car_states s) in
  {| final_positions := (fun kv => (kv.1, CarState.position kv.2)) <$> final_order;
     final_times := (fun kv => (kv.1, CarState.race_time kv.2)) <$> final_order;
     laps_completed := (fun kv => (kv.1, CarState.lap kv.2)) <$> final_order;
     event_log := RaceEvents.get_events_log (race_events s);
     res_position_history := position_history s;
     overtaking_stats := OvertakingModel.get_overtaking_statistics (overtaking s);
     race_events_summary := RaceEvents.get_event_summary (race_events s) |}.

(** One iteration of the race loop of [run_race]; the result carries the
    two loop flags [race_finished] and [leader_finished]. *)
Definition loop_body `{NumpyRandom} (s : t) (leader_finished : bool) (g : rng)
    : Result (t * bool * bool * rng) :=
  let max_race_time := (race_duration_minutes s * 60.0)%Q in
  let s := set_race_state
             (RaceState.set_race_time
                (RaceState.race_time (race_state s) + time_step s)%Q (race_state s)) s in
  let '(race_finished, leader_finished) :=
    if Py.leb max_race_time (RaceState.race_time (race_state s)) then
      if leader_finished then (true, leader_finished) else (false, true)
    else (false, leader_finished) in
  '(s, g) ← _update_race_events s g;
  s ← _update_cars s;
  s ← _update_positions s;
  '(s, g) ← _check_overtaking s g;
  let s := _update_attack_modes s in
  let s := _check_lap_completion s in
  let s := if Py.int (RaceState.race_time (race_state s)) mod 5 =? 0
           then _store_history s else s in
  Ok (s, race_finished, leader_finished, g).

(** [while not race_finished], unrolled at most [fuel] times; [None]
    when the loop is still running after [fuel] iterations. *)
Fixpoint race_loop `{NumpyRandom} (fuel : nat) (s : t) (leader_finished : bool) (g : rng)
    : Result (option (t * rng)) :=
  match fuel with
  | O => Ok None
  | S fuel =>
      '(s, race_finished, leader_finished, g) ← loop_body s leader_finished g;
      if race_finished : bool then Ok (Some (s, g))
      else race_loop fuel s leader_finished g
  end.

Definition run_race `{NumpyRandom} (fuel : nat) (base : CarElectric) (s : t) (g : rng)
    : Result (option (Results * t * rng)) :=
  let '(s, g) := _initialize_cars base s g in
  _ ← _calculate_reference_lap_time s;
  finished ← race_loop fuel s false g;
  match finished with
  | Some (s, g) => Ok (Some (_compile_results s, s, g))
  | None => Ok None
  end.

End RaceSimulator.

(** ** Sample inputs and auxiliary notions used by the statements *)

Module Samples.

(** The reason with which [can_activate] refuses a request made outside
    the activation zone, by controller state. *)
Definition refusal_reason (st : AttackMode.AttackModeState) : string :=
  match st with
  | AttackMode.USED => "All activations used"
  | AttackMode.ACTIVE => "Already active"
  | AttackMode.ACTIVATING => "Currently activating"
  | AttackMode.AVAILABLE => "Not in activation zone"
  end.

(** A controller for car 1 with the zone [500, 625] of a 2500 m track. *)
Definition mode : AttackMode.t :=
  (AttackMode.init (H := Lcg.numpy_random) 1 500.0 625.0 200.0 (Some 42) 0).1.

(** A controller for car 0 with the zone [1400, 1750], from 20 % to 25 %
    of a 7000 m track: the zone starts beyond the period of 1350 m. *)
Definition far_mode : AttackMode.t :=
  (AttackMode.init (H := Lcg.numpy_random) 0 1400.0 1750.0 200.0 (Some 42) 0).1.

(** The same controller after an activation inside the zone. *)
Definition active_mode : AttackMode.t :=
  match AttackMode.activate mode 1 0.0 550.0 with
  | Ok (_, am) => am
  | Raise _ => mode
  end.

(** A manager for the two cars 0 and 1 of a 2500 m track. *)
Definition manager : AttackModeManager.t :=
  (AttackModeManager.init (H := Lcg.numpy_random) 2 2500.0 None None (Some 42) 0).1.

(** An overtaking model for a 2500 m track, seeded with 0, and the
    generator state its constructor leaves behind. *)
Definition overtaking : OvertakingModel.t * Z :=
  OvertakingModel.init (H := Lcg.numpy_random) 2500.0 (Some 0) 7.

End Samples.

(** Runs of the race-event engine. *)
Module EventRuns.

(** Successive calls of [update_safety_car], one per element of [laps]. *)
Definition updates (self : RaceEvents.t) (laps : list Z) : RaceEvents.t :=
  foldl (fun s lap => (RaceEvents.update_safety_car s lap).2) self laps.

(** What the safety-car attributes satisfy on every reachable engine. *)
Definition safety_car_inv (self : RaceEvents.t) : Prop :=
  (RaceEvents.safety_car_active self = true <->
   RaceEvents.safety_car_state self = RaceEvents.DEPLOYED
   \/ RaceEvents.safety_car_state self = RaceEvents.RETURNING)
  /\ RaceEvents.safety_car_speed self = (80.0 / 3.6)%Q.

(** The engines that calls of the methods can produce from a freshly
    constructed one. *)
Inductive reachable `{NumpyRandom} : RaceEvents.t -> Prop :=
| reach_init num_cars track_length random_seed g :
    reachable (RaceEvents.init num_cars track_length random_seed g).1
| reach_check self current_lap race_time active_cars g :
    reachable self ->
    reachable (RaceEvents.check_lap_events self current_lap race_time active_cars g).1.2
| reach_update self current_lap :
    reachable self ->
    reachable (RaceEvents.update_safety_car self current_lap).2
| reach_deploy self lap race_time g :
    reachable self ->
    reachable (RaceEvents._deploy_safety_car self lap race_time g).1
| reach_crash self car race_time :
    reachable self ->
    reachable (RaceEvents._register_crash self car race_time)
| reach_weather self g :
    reachable self ->
    reachable (RaceEvents._change_weather self g).1.

(** A fresh engine for 20 cars on a 2500 m track. *)
Definition fresh : RaceEvents.t :=
  (RaceEvents.init (H := Lcg.numpy_random) 20 2500.0 (Some 42) 0).1.

(** The draws of an eventful check, in thousandths: no safety car at
    the top of the lap; car 0 crashes and the crash brings the safety
    car out, for 3 + 2 laps; car 1 does not crash; car 2 crashes; the
    weather changes, with a grip reduction of 0.225 and a cooling of
    10 degrees. *)
Definition eventful_draws : list Z := [500; 0; 0; 2; 500; 0; 0; 500; 500].

End EventRuns.

(** The event check of lap 1, at 120 s, on the fresh engine, for the
    cars 0, 1 and 2, with the eventful draws. *)
Abbreviation eventful_check :=
  (RaceEvents.check_lap_events (H := Script.numpy_random) EventRuns.fresh 1 120.0
     [0; 1; 2] EventRuns.eventful_draws).

(** Runs of the orchestrator. *)
Module RaceRuns.

(** [n] iterations of the race loop, whatever the loop flag says. *)
Fixpoint iterations `{NumpyRandom} (n : nat) (s : RaceSimulator.t) (leader_finished : bool)
    (g : rng) : Result (RaceSimulator.t * bool * rng) :=
  match n with
  | O => Ok (s, leader_finished, g)
  | S n =>
      '(s, _, leader_finished, g) ← RaceSimulator.loop_body s leader_finished g;
      iterations n s leader_finished g
  end.

(** The simulator at the point where [run_race] enters its loop: a
    constructed simulator whose cars have been initialised. *)
Definition race_start `{NumpyRandom} (num_cars : Z) (track_name : string)
    (race_duration_minutes time_step : Q) (random_seed : option Z)
    (loaded : RaceSimulator.Track) (base : RaceSimulator.CarElectric) (g : rng)
    : RaceSimulator.t * rng :=
  let constructed :=
    RaceSimulator.init num_cars track_name race_duration_minutes time_step
      random_seed loaded g in
  RaceSimulator._initialize_cars base constructed.1 constructed.2.

(** [c'] is the car [c] with, at most, another rank. *)
Definition same_but_position (c c' : CarState.t) : Prop :=
  c' = CarState.set_position (CarState.position c') c.

(** What one car may undergo between two points of a race: a retired
    car changes in nothing but its rank, and a non-negative energy stays
    non-negative. *)
Definition car_step (c c' : CarState.t) : Prop :=
  (CarState.is_active c = false -> same_but_position c c')
  /\ ((0 <= CarState.energy_remaining c)%Q -> (0 <= CarState.energy_remaining c')%Q).

(** The same cars, under the same keys and in the same order, each
    having made a [car_step]. *)
Definition store_step (cs cs' : list (Z * CarState.t)) : Prop :=
  Forall2 (fun kv kv' : Z * CarState.t => kv.1 = kv'.1 /\ car_step kv.2 kv'.2) cs cs'.

(** Every controller of the manager is AVAILABLE and has never been
    activated. *)
Definition pristine (mgr : AttackModeManager.t) : Prop :=
  forall car_id am,
    AttackModeManager.attack_modes mgr !! car_id = Some am ->
    AttackMode.state am = AttackMode.AVAILABLE
    /\ AttackMode.activation_history am = []
    /\ AttackMode.activations_remaining am = 2
    /\ AttackMode.base_power_kw am = 200.0%Q.

(** What the parts of one loop iteration leave in place. *)
Definition sim_step (s s' : RaceSimulator.t) : Prop :=
  store_step (RaceSimulator.car_states s) (RaceSimulator.car_states s')
  /\ (pristine (RaceSimulator.attack_mode_manager s) ->
      RaceSimulator.attack_mode_manager s' = RaceSimulator.attack_mode_manager s)
  /\ RaceSimulator.time_step s' = RaceSimulator.time_step s
  /\ RaceSimulator.race_duration_minutes s' = RaceSimulator.race_duration_minutes s
  /\ RaceState.race_time (RaceSimulator.race_state s')
     = RaceState.race_time (RaceSimulator.race_state s).

End RaceRuns.

(** Sample races. *)
Module SampleRace.

(** A 2500 m track in 500 cells of 5 m, and the base car. *)
Definition loaded_track : RaceSimulator.Track :=
  {| RaceSimulator.track_length := 2500.0; RaceSimulator.stepsize := 5.0;
     RaceSimulator.no_points := 500; RaceSimulator.mu := [1.0%Q];
     RaceSimulator.pars_track_mu_weather := 1.0 |}.

Definition base_car : RaceSimulator.CarElectric :=
  {| RaceSimulator.m := 880.0; RaceSimulator.eta_e_motor := 0.9 |}.

(** A three-car race of 45 minutes in steps of 0.45 s, seeded with 42,
    at the point where [run_race] enters its loop. *)
Definition start : RaceSimulator.t * Z :=
  RaceRuns.race_start (H := Lcg.numpy_random) 3 "Berlin" 45.0 0.45 (Some 42)
    loaded_track base_car 7.

(** A car on track, given by rank, lap, distance, speed and energy. *)
Definition car (car_id position lap : Z) (distance v energy : Q) (active : bool)
    : Z * CarState.t :=
  (car_id,
   CarState.set_lap lap
     (CarState.set_position position
        (CarState.set_kinematics v distance (distance / 2500.0)%Q energy active
           (RaceSimulator.initial_car_state car_id)))).

(** Car 0 is left with exactly the energy of one time step: 200 kW over
    0.45 s at 90 % efficiency, 100 kJ. *)
Definition last_joule : RaceSimulator.t :=
  RaceSimulator.set_car_states
    [ car 0 1 3 1200.0 50.0 100000.0 true;
      car 1 2 3 1190.0 50.0 200000.0 true;
      car 2 3 3 1180.0 50.0 300000.0 true ] start.1.

(** The same race after the car update that drains car 0. *)
Definition drained : RaceSimulator.t :=
  match RaceSimulator._update_cars last_joule with
  | Ok s => s
  | Raise _ => last_joule
  end.

(** The leader, car 0, has retired 2000 m into lap 3; cars 1 and 2 are
    racing behind it on the same lap. *)
Definition retired_leader : RaceSimulator.t :=
  RaceSimulator.set_car_states
    [ car 0 1 3 2000.0 50.0 2000000.0 false;
      car 1 2 3 1500.0 50.0 2000000.0 true;
      car 2 3 3 1400.0 50.0 2000000.0 true ] start.1.

(** The record of a car, if the car exists. *)
Definition car_record (s : RaceSimulator.t) (car_id : Z) : option CarState.t :=
  match Dict.get (RaceSimulator.car_states s) car_id with
  | Ok c => Some c
  | Raise _ => None
  end.

(** The same race after [_update_positions]. *)
Definition ranked : RaceSimulator.t :=
  match RaceSimulator._update_positions retired_leader with
  | Ok s => s
  | Raise _ => retired_leader
  end.

(** And after the overtaking check that follows. *)
Definition overtaken : RaceSimulator.t :=
  match RaceSimulator._check_overtaking (H := Lcg.numpy_random) ranked start.2 with
  | Ok (s, _) => s
  | Raise _ => ranked
  end.

(** Three racing cars on lap 3, 50 m apart, ranked; cars 1 and 2 are
    faster than the car ahead of them. *)
Definition duel : RaceSimulator.t :=
  match RaceSimulator._update_positions
          (RaceSimulator.set_car_states
             [ car 0 1 3 1500.0 48.0 2000000.0 true;
               car 1 2 3 1450.0 50.0 2000000.0 true;
               car 2 3 3 1400.0 52.0 2000000.0 true ] start.1) with
  | Ok s => s
  | Raise _ => start.1
  end.

(** Car id, rank and active flag of every car. *)
Definition standings (s : RaceSimulator.t) : list (Z * Z * bool) :=
  (fun kv : Z * CarState.t => (kv.1, CarState.position kv.2, CarState.is_active kv.2))
    <$> RaceSimulator.car_states s.

(** The ranks held by the active cars. *)
Definition active_ranks (s : RaceSimulator.t) : list Z :=
  (fun kv : Z * CarState.t => CarState.position kv.2)
    <$> filter (fun kv : Z * CarState.t => CarState.is_active kv.2 = true)
          (RaceSimulator.car_states s).

End SampleRace.

(** Two iterations of the loop of the sample race. *)
Abbreviation sample_two_iterations :=
  (RaceRuns.iterations (H := Lcg.numpy_random) 2
     (RaceRuns.race_start (H := Lcg.numpy_random) 3 "Berlin" 45.0 0.45 (Some 42)
        SampleRace.loaded_track SampleRace.base_car 7).1 false
     (RaceRuns.race_start (H := Lcg.numpy_random) 3 "Berlin" 45.0 0.45 (Some 42)
        SampleRace.loaded_track SampleRace.base_car 7).2).

(** The overtaking check on the three cars of the duel: the attempt of
    car 1 on car 0 draws 0.1 and succeeds, the attempt of car 2 on
    car 1 draws 0.9 and fails. *)
Abbreviation duel_check :=
  (RaceSimulator._check_overtaking (H := Script.numpy_random) SampleRace.duel
     [100; 900]).

(** One iteration of the loop after car 0 has been drained. *)
Abbreviation drained_iteration :=
  (RaceRuns.iterations (H := Lcg.numpy_random) 1 SampleRace.drained false
     SampleRace.start.2).

(** A short race. *)
Module ShortRace.

(** Three cars for 0.6 s in steps of 0.45 s, constructed with
    [random_seed] while the process-wide generator is in state
    [ambient], and run with fuel for five iterations. *)
Definition run (random_seed : option Z) (ambient : Z)
    : Result (option (RaceSimulator.Results * RaceSimulator.t * Z)) :=
  RaceSimulator.run_race (H := Lcg.numpy_random) 5 SampleRace.base_car
    (RaceSimulator.init (H := Lcg.numpy_random) 3 "Berlin" 0.01 0.45 random_seed
       SampleRace.loaded_track ambient).1
    (RaceSimulator.init (H := Lcg.numpy_random) 3 "Berlin" 0.01 0.45 random_seed
       SampleRace.loaded_track ambient).2.

(** The final standings of a finished run. *)
Definition standings (r : Result (option (RaceSimulator.Results * RaceSimulator.t * Z)))
    : option (list (Z * Z)) :=
  match r with
  | Ok (Some (res, _, _)) => Some (RaceSimulator.final_positions res)
  | _ => None
  end.

End ShortRace.

(** Scripts that construct and run simulators in one process.  The
    generator is the one of the process: every constructor and every
    run draws from the state its predecessor left. *)
Module Process.



End Process.

(** A race in which the leader crashes. *)
Module CrashRace.

(** A circuit of 100.1 m. *)
Definition loaded_track : RaceSimulator.Track :=
  {| RaceSimulator.track_length := 100.1; RaceSimulator.stepsize := 5.0;
     RaceSimulator.no_points := 20; RaceSimulator.mu := [1.0%Q];
     RaceSimulator.pars_track_mu_weather := 1.0 |}.

(** The draws of the race, in thousandths: the two time losses of the
    attack-mode controllers; skill and efficiency of car 0 (skill factor
    0.98, 50.1 m/s) and of car 1 (skill factor 1.00, 50 m/s); then, at
    the event check of lap 1, no safety car, a crash of car 0, no safety
    car after it, no crash of car 1, no change of weather. *)
Definition draws : list Z := [500; 500; 0; 500; 500; 500; 500; 0; 500; 500; 500].

(** Two cars, steps of 0.5 s, no seed, the generator about to produce
    [draws]: the race after [n] iterations of the loop. *)
Definition after (n : nat) : Result (RaceSimulator.t * bool * list Z) :=
  RaceRuns.iterations (H := Script.numpy_random) n
    (RaceRuns.race_start (H := Script.numpy_random) 2 "Short" 45.0 0.5 None
       loaded_track SampleRace.base_car draws).1 false
    (RaceRuns.race_start (H := Script.numpy_random) 2 "Short" 45.0 0.5 None
       loaded_track SampleRace.base_car draws).2.

(** Of a state reached without exception. *)
Definition observe {A : Type} (f : RaceSimulator.t -> A)
    (r : Result (RaceSimulator.t * bool * list Z)) : option A :=
  match r with
  | Ok (s, _, _) => Some (f s)
  | Raise _ => None
  end.

(** Lap and whole metres of track distance of every car. *)
Definition progress (s : RaceSimulator.t) : list (Z * Z * Z) :=
  (fun kv : Z * CarState.t =>
     (kv.1, CarState.lap kv.2, Qfloor (CarState.track_distance kv.2)))
    <$> RaceSimulator.car_states s.

End CrashRace.

(** Runs of one Attack Mode controller. *)
Module ModeRuns.

(** The controllers that calls of [activate] and [update] can produce
    from a freshly constructed one. *)
Inductive reachable `{NumpyRandom} : AttackMode.t -> Prop :=
| mode_init car_id zone_start zone_end base_power_kw random_seed g :
    reachable
      (AttackMode.init car_id zone_start zone_end base_power_kw random_seed g).1
| mode_activate am lap race_time track_position ok am' :
    reachable am ->
    AttackMode.activate am lap race_time track_position = Ok (ok, am') ->
    reachable am'
| mode_update am race_time :
    reachable am -> reachable (AttackMode.update am race_time).2.

(** What the attributes of a controller satisfy on every such run. *)
Definition inv (am : AttackMode.t) : Prop :=
  AttackMode.max_activations am = 2
  /\ AttackMode.attack_mode_power_kw am = 250.0%Q
  /\ AttackMode.activation_duration am = 240.0%Q
  /\ (0.5 <= AttackMode.activation_time_loss am <= 1.0)%Q
  /\ AttackMode.activations_remaining am
     + Z.of_nat (length (AttackMode.activation_history am)) = 2
  /\ 0 <= AttackMode.activations_remaining am
  /\ match AttackMode.state am with
     | AttackMode.AVAILABLE =>
         0 < AttackMode.activations_remaining am
         /\ AttackMode.current_activation_start_time am = None
     | AttackMode.ACTIVE =>
         exists start,
           AttackMode.current_activation_start_time am = Some start
           /\ AttackMode.activation_time <$> last (AttackMode.activation_history am)
              = Some start
     | AttackMode.USED =>
         AttackMode.activations_remaining am = 0
         /\ AttackMode.current_activation_start_time am = None
     | AttackMode.ACTIVATING => False
     end
  /\ Forall (fun a =>
               AttackMode.act_car_id a = AttackMode.car_id am
               /\ AttackMode.duration a = 240.0%Q
               /\ AttackMode.time_loss a = AttackMode.activation_time_loss am
               /\ AttackMode.power_boost a = (250.0 - AttackMode.base_power_kw am)%Q)
            (AttackMode.activation_history am).

(** The zone test of [can_activate] passes at the track position [p]:
    the remainder of [p] modulo the period [zone_length + 1000] lies
    between the start and the end of the zone. *)
Definition in_zone (am : AttackMode.t) (p : Q) : Prop :=
  exists position_in_zone,
    Py.mod_ p (AttackMode.activation_zone_end am - AttackMode.activation_zone_start am
               + 1000.0)%Q
    = Ok position_in_zone
    /\ (AttackMode.activation_zone_start am <= position_in_zone)%Q
    /\ (position_in_zone <= AttackMode.activation_zone_end am)%Q.

End ModeRuns.

(** Runs of the overtaking model. *)
Module OvertakingRuns.

(** The models that calls of [attempt_overtake] can produce from a
    freshly constructed one. *)
Inductive reachable `{NumpyRandom} : OvertakingModel.t -> Prop :=
| model_init track_length random_seed g :
    reachable (OvertakingModel.init track_length random_seed g).1
| model_attempt self attacker defender attacker_speed defender_speed gap_seconds
    track_position attacker_am defender_am ts g res self' g' :
    reachable self ->
    OvertakingModel.attempt_overtake self attacker defender attacker_speed
      defender_speed gap_seconds track_position attacker_am defender_am ts g
    = Ok (res, self', g') ->
    reachable self'.

(** What a recorded attempt satisfies. *)
Definition sound_record (a : OvertakingModel.OvertakingAttempt) : Prop :=
  (5 <= OvertakingModel.speed_differential a)%Q
  /\ (0 <= OvertakingModel.time_gain a)%Q
  /\ (OvertakingModel.success a = false -> OvertakingModel.time_gain a = 0.0%Q).

(** The success probability of a constructed model as a function of the
    adjusted differential. *)
Definition steps (x : Q) : Q :=
  if Py.ltb x 5.0 then 0.0%Q
  else if Py.ltb x 10.0 then 0.20%Q
  else if Py.ltb x 15.0 then 0.50%Q
  else 0.80%Q.

End OvertakingRuns.

(** Steps of the race-event engine. *)
Module EventSteps.

#[export] Instance EventType_eq_dec : EqDecision RaceEvents.EventType.
Proof. solve_decision. Defined.

(** The number of logged events of one type. *)
Definition count (kind : RaceEvents.EventType) (log : list RaceEvents.RaceEvent) : Z :=
  Z.of_nat (length (filter (fun ev => RaceEvents.event_type ev = kind) log)).

(** Two engines with the same safety-car attributes. *)
Definition safety_same (a b : RaceEvents.t) : Prop :=
  RaceEvents.safety_car_state b = RaceEvents.safety_car_state a
  /\ RaceEvents.safety_car_active b = RaceEvents.safety_car_active a
  /\ RaceEvents.safety_car_laps_remaining b = RaceEvents.safety_car_laps_remaining a
  /\ RaceEvents.safety_car_deployment_lap b = RaceEvents.safety_car_deployment_lap a.

(** Two engines with the same weather attributes. *)
Definition weather_same (a b : RaceEvents.t) : Prop :=
  RaceEvents.weather_dry b = RaceEvents.weather_dry a
  /\ RaceEvents.mu_weather b = RaceEvents.mu_weather a
  /\ RaceEvents.track_temperature b = RaceEvents.track_temperature a.

(** Two engines with the same constants. *)
Definition config_same (a b : RaceEvents.t) : Prop :=
  RaceEvents.num_cars b = RaceEvents.num_cars a
  /\ RaceEvents.track_length b = RaceEvents.track_length a
  /\ RaceEvents.safety_car_speed b = RaceEvents.safety_car_speed a
  /\ RaceEvents.safety_car_probability b = RaceEvents.safety_car_probability a
  /\ RaceEvents.crash_probability_per_car b = RaceEvents.crash_probability_per_car a
  /\ RaceEvents.weather_change_probability b = RaceEvents.weather_change_probability a.

(** Between two points of one call of [check_lap_events] on lap [lap]:
    either the safety car has not been touched, or it was off and has
    been deployed once. *)
Definition deployment (lap : Z) (a : RaceEvents.t) (deployed_a : bool)
    (b : RaceEvents.t) (deployed_b : bool) : Prop :=
  (safety_same a b
   /\ RaceEvents.total_safety_cars b = RaceEvents.total_safety_cars a
   /\ deployed_b = deployed_a)
  \/ (RaceEvents.safety_car_active a = false
      /\ RaceEvents.total_safety_cars b = RaceEvents.total_safety_cars a + 1
      /\ deployed_b = true
      /\ RaceEvents.safety_car_active b = true
      /\ RaceEvents.safety_car_state b = RaceEvents.DEPLOYED
      /\ 3 <= RaceEvents.safety_car_laps_remaining b <= 8
      /\ RaceEvents.safety_car_deployment_lap b = Some lap).

(** What the safety-car check and the crash loop of [check_lap_events],
    run over the cars [cars] at time [race_time] of lap [lap], make of
    an engine [a] and the report [ea]: the cars [cs] crash and the
    events [new] are logged. *)
Definition crash_loop (lap : Z) (race_time : Q) (cars : list Z)
    (a : RaceEvents.t) (ea : RaceEvents.LapEvents)
    (b : RaceEvents.t) (eb : RaceEvents.LapEvents) : Prop :=
  exists cs new,
    RaceEvents.crashes eb = RaceEvents.crashes ea ++ cs
    /\ sublist cs cars
    /\ Forall (fun c => c ∉ RaceEvents.crashed_cars a) cs
    /\ NoDup cs
    /\ RaceEvents.crashed_cars b = list_to_set cs ∪ RaceEvents.crashed_cars a
    /\ RaceEvents.total_crashes b = RaceEvents.total_crashes a + Z.of_nat (length cs)
    /\ RaceEvents.event_log b = RaceEvents.event_log a ++ new
    /\ Z.of_nat (length new)
       = Z.of_nat (length cs)
         + (RaceEvents.total_safety_cars b - RaceEvents.total_safety_cars a)
    /\ Forall (fun ev =>
                 RaceEvents.timestamp ev = race_time
                 /\ (RaceEvents.event_type ev = RaceEvents.SAFETY_CAR
                     \/ RaceEvents.event_type ev = RaceEvents.CRASH)) new
    /\ deployment lap a (RaceEvents.safety_car_deployed ea)
         b (RaceEvents.safety_car_deployed eb)
    /\ weather_same a b
    /\ config_same a b
    /\ RaceEvents.weather_changed eb = RaceEvents.weather_changed ea
    /\ RaceEvents.new_mu_weather eb = RaceEvents.new_mu_weather ea.

(** What the log, the counters and the crashed set satisfy on every
    reachable engine. *)
Definition log_inv (self : RaceEvents.t) : Prop :=
  RaceEvents.total_safety_cars self
  = count RaceEvents.SAFETY_CAR (RaceEvents.event_log self)
  /\ RaceEvents.total_crashes self = count RaceEvents.CRASH (RaceEvents.event_log self)
  /\ Forall (fun ev =>
               (RaceEvents.event_type ev = RaceEvents.SAFETY_CAR
                /\ RaceEvents.car_id ev = None)
               \/ (RaceEvents.event_type ev = RaceEvents.CRASH
                   /\ exists c, RaceEvents.car_id ev = Some c
                                /\ c ∈ RaceEvents.crashed_cars self))
            (RaceEvents.event_log self)
  /\ (forall c, c ∈ RaceEvents.crashed_cars self ->
        exists ev, ev ∈ RaceEvents.event_log self
                   /\ RaceEvents.event_type ev = RaceEvents.CRASH
                   /\ RaceEvents.car_id ev = Some c).

(** What the weather attributes satisfy on every reachable engine. *)
Definition weather_inv (self : RaceEvents.t) : Prop :=
  (RaceEvents.weather_dry self = true ->
   (0.85 <= RaceEvents.mu_weather self <= 1.0)%Q)
  /\ (RaceEvents.weather_dry self = false ->
      (0.70 <= RaceEvents.mu_weather self <= 0.85)%Q)
  /\ (10 <= RaceEvents.track_temperature self <= 50)%Q.

End EventSteps.

(** The order of the ranking. *)
Module Ranking.

(** Car [a] has made more progress than car [b]: more laps, or as many
    laps and more distance. *)
Definition ahead (a b : CarState.t) : Prop :=
  CarState.lap b < CarState.lap a
  \/ (CarState.lap b = CarState.lap a
      /\ (CarState.track_distance b < CarState.track_distance a)%Q).

(** The two cars have made the same progress. *)
Definition level (a b : CarState.t) : Prop :=
  CarState.lap a = CarState.lap b
  /\ (CarState.track_distance a == CarState.track_distance b)%Q.

(** The entry [x] comes before the entry [y] in the store [cs]. *)
Definition earlier (cs : list (Z * CarState.t)) (x y : Z * CarState.t) : Prop :=
  exists i j : nat, (i < j)%nat /\ cs !! i = Some x /\ cs !! j = Some y.

(** The entry [x] is to be ranked before the entry [y]: more progress,
    or as much progress and an earlier place in the store. *)
Definition precedes (cs : list (Z * CarState.t)) (x y : Z * CarState.t) : Prop :=
  RaceSimulator.key_lt y x = true
  \/ (RaceSimulator.key_lt x y = false /\ earlier cs x y).

(** A list in which every element stands in [R] to all later ones. *)
Inductive ordered {A : Type} (R : A -> A -> Prop) : list A -> Prop :=
| ordered_nil : ordered R []
| ordered_cons x l : Forall (R x) l -> ordered R l -> ordered R (x :: l).

(** The rank of every car of the store. *)
Definition ranks (cs : list (Z * CarState.t)) : list Z :=
  (fun kv : Z * CarState.t => CarState.position kv.2) <$> cs.

End Ranking.

(** What the overtaking check may do to the store. *)
Module RankSteps.

(** The cars keep their keys and their order and change in nothing but
    their rank; a retired car does not change at all. *)
Definition reranked (cs cs' : list (Z * CarState.t)) : Prop :=
  Forall2 (fun kv kv' : Z * CarState.t =>
             kv'.1 = kv.1
             /\ RaceRuns.same_but_position kv.2 kv'.2
             /\ (CarState.is_active kv.2 = false -> kv'.2 = kv.2)) cs cs'.

(** The car under [k] is in the store and racing. *)
Definition racing (cs : list (Z * CarState.t)) (k : Z) : Prop :=
  exists c, Dict.get cs k = Ok c /\ CarState.is_active c = true.

End RankSteps.

(** Relations between the stores of two points of a race. *)
Module StoreSteps.

(** The same cars, under the same keys and in the same order, each
    standing in [R] to what it was. *)
Definition related (R : CarState.t -> CarState.t -> Prop)
    (cs cs' : list (Z * CarState.t)) : Prop :=
  Forall2 (fun kv kv' : Z * CarState.t => kv'.1 = kv.1 /\ R kv.2 kv'.2) cs cs'.

(** What a race never changes in a car: its id, its own clock and its
    lap times; the lap count never falls, and a retired car stays
    retired on the lap it was on. *)
Definition kept (c c' : CarState.t) : Prop :=
  CarState.car_id c' = CarState.car_id c
  /\ CarState.race_time c' = CarState.race_time c
  /\ CarState.lap_times c' = CarState.lap_times c
  /\ CarState.lap c <= CarState.lap c'
  /\ (CarState.is_active c = false ->
      CarState.is_active c' = false /\ CarState.lap c' = CarState.lap c).

(** An energy that is not negative neither rises nor becomes negative. *)
Definition discharged (c c' : CarState.t) : Prop :=
  (0 <= CarState.energy_remaining c)%Q ->
  (0 <= CarState.energy_remaining c')%Q
  /\ (CarState.energy_remaining c' <= CarState.energy_remaining c)%Q.

(** A simulator whose time step is not negative and whose controllers
    have never been activated. *)
Definition steady (s : RaceSimulator.t) : Prop :=
  (0 <= RaceSimulator.time_step s)%Q
  /\ RaceRuns.pristine (RaceSimulator.attack_mode_manager s).

(** The parts of the simulator that only [_store_history] writes. *)
Definition history_same (s s' : RaceSimulator.t) : Prop :=
  RaceSimulator.race_history s' = RaceSimulator.race_history s
  /\ RaceSimulator.position_history s' = RaceSimulator.position_history s.

(** The store that [_initialize_cars] builds for the car ids [ids]. *)
Definition grid (ids : list Z) : list (Z * CarState.t) :=
  (fun k => (k, RaceSimulator.initial_car_state k)) <$> ids.

End StoreSteps.

(** * Properties *)

(** ** Comparisons and arithmetic on floats *)

Lemma ltb_lt (x y : Q) : Py.ltb x y = true <-> (x < y)%Q.
Proof.
  unfold Py.ltb. rewrite negb_true_iff, <- not_true_iff_false, Qle_bool_iff.
  split; [apply Qnot_le_lt | apply Qlt_not_le].
Qed.

Lemma ltb_ge (x y : Q) : Py.ltb x y = false <-> (y <= x)%Q.
Proof. unfold Py.ltb. rewrite negb_false_iff. apply Qle_bool_iff. Qed.

Lemma leb_le (x y : Q) : Py.leb x y = true <-> (x <= y)%Q.
Proof. apply Qle_bool_iff. Qed.

Lemma leb_gt (x y : Q) : Py.leb x y = false <-> (y < x)%Q.
Proof.
  unfold Py.leb. rewrite <- not_true_iff_false, Qle_bool_iff.
  split; [apply Qnot_le_lt | apply Qlt_not_le].
Qed.

Lemma eqb_eq (x y : Q) : Py.eqb x y = true <-> (x == y)%Q.
Proof. apply Qeq_bool_iff. Qed.

Lemma eqb_neq (x y : Q) : Py.eqb x y = false <-> ~ (x == y)%Q.
Proof. unfold Py.eqb. rewrite <- not_true_iff_false, Qeq_bool_iff. tauto. Qed.

(** Case analysis on a float comparison in the goal or in a hypothesis. *)
Ltac case_ltb x y :=
  let H := fresh "Hcmp" in
  destruct (Py.ltb x y) eqn:H; [apply ltb_lt in H | apply ltb_ge in H].

Ltac case_leb x y :=
  let H := fresh "Hcmp" in
  destruct (Py.leb x y) eqn:H; [apply leb_le in H | apply leb_gt in H].

Lemma div_ok (x y : Q) : ~ (y == 0)%Q -> Py.div x y = Ok (x / y)%Q.
Proof. intros Hy. unfold Py.div. apply eqb_neq in Hy. by rewrite Hy. Qed.

(** A position below the modulus is left as it is, up to the value. *)
Lemma mod_small (x y : Q) :
  (0 <= x)%Q -> (x < y)%Q -> exists r, Py.mod_ x y = Ok r /\ (r == x)%Q.
Proof.
  intros H0 Hlt. unfold Py.mod_.
  assert (0 < y)%Q as Hy by lra.
  assert (Py.eqb y 0 = false) as ->
    by (apply eqb_neq, Qnot_eq_sym, Qlt_not_eq, Hy).
  eexists; split; [reflexivity |].
  assert (Qfloor (x / y) = 0) as ->.
  { assert (0 <= x / y)%Q as Hq0.
    { apply Qle_shift_div_l; lra. }
    assert (x / y < 1)%Q as Hq1.
    { apply Qlt_shift_div_r; lra. }
    pose proof (Qfloor_le (x / y)) as Hf1.
    pose proof (Qlt_floor (x / y)) as Hf2.
    assert (inject_Z (Qfloor (x / y)) < inject_Z 1)%Q as Hu.
    { eapply Qle_lt_trans; [apply Hf1 |]. change (inject_Z 1) with 1%Q. exact Hq1. }
    assert (inject_Z 0 < inject_Z (Qfloor (x / y) + 1))%Q as Hl.
    { eapply Qle_lt_trans; [| apply Hf2]. exact Hq0. }
    rewrite <- Zlt_Qlt in Hu, Hl. lia. }
  change (inject_Z 0) with 0%Q. ring.
Qed.

(** The remainder by a positive modulus lies between 0 and the modulus. *)
Lemma mod_range (x y : Q) :
  (0 < y)%Q -> exists r, Py.mod_ x y = Ok r /\ (0 <= r)%Q /\ (r < y)%Q.
Proof.
  intros Hy. unfold Py.mod_.
  assert (Py.eqb y 0 = false) as ->
    by (apply eqb_neq, Qnot_eq_sym, Qlt_not_eq, Hy).
  eexists; split; [reflexivity |].
  pose proof (Qfloor_le (x / y)) as Hf1.
  pose proof (Qlt_floor (x / y)) as Hf2.
  rewrite inject_Z_plus in Hf2. change (inject_Z 1) with 1%Q in Hf2.
  assert (x == x / y * y)%Q as Hx
    by (field; apply Qnot_eq_sym, Qlt_not_eq, Hy).
  set (q := (x / y)%Q) in *. set (f := inject_Z (Qfloor q)) in *.
  split; nra.
Qed.

(** ** Attack mode *)

Section AttackModeFacts.

Import AttackMode.

Lemma can_activate_not_available (am : AttackMode.t) (lap : Z) (t p : Q) :
  state am <> AVAILABLE ->
  can_activate am lap t p = Ok (false, Samples.refusal_reason (state am)).
Proof.
  intros Hst. unfold can_activate.
  destruct (state am); simpl; try reflexivity. congruence.
Qed.

Lemma can_activate_available_outside (am : AttackMode.t) (lap : Z) (t p : Q) :
  state am = AVAILABLE ->
  (0 <= p)%Q ->
  (p < activation_zone_end am - activation_zone_start am + 1000.0)%Q ->
  ~ ((activation_zone_start am <= p)%Q /\ (p <= activation_zone_end am)%Q) ->
  can_activate am lap t p = Ok (false, "Not in activation zone"%string).
Proof.
  intros Hst H0 Hlt Hout. unfold can_activate. rewrite Hst; simpl.
  destruct (mod_small p _ H0 Hlt) as (r & -> & Hr). simpl.
  case_leb (activation_zone_start am) r; simpl; [| reflexivity].
  case_leb r (activation_zone_end am); simpl; [| reflexivity].
  exfalso. apply Hout. rewrite <- Hr. split; assumption.
Qed.

End AttackModeFacts.

Section AttackModeClaims.

Import AttackMode.

Lemma sample_mode_activates :
  activate Samples.mode 1 0.0 550.0 = Ok (true, Samples.active_mode)
  /\ state Samples.active_mode = ACTIVE.
Proof. split; reflexivity. Qed.

(** C3, as stated, fails: a controller that is already active refuses a
    request made at 100 m, outside the zone [500, 625] of a 2500 m lap,
    with the reason of its state, not with "Not in activation zone". *)
Lemma can_activate_reason_follows_state :
  ~ ((500.0 <= 100.0)%Q /\ (100.0 <= 625.0)%Q)
  /\ (exists r, Py.mod_ 100.0 2500.0 = Ok r /\ (r == 100.0)%Q)
  /\ state Samples.active_mode = ACTIVE
  /\ can_activate Samples.active_mode 1 10.0 100.0 = Ok (false, "Already active"%string)
  /\ can_activate Samples.active_mode 1 10.0 100.0
     <> Ok (false, "Not in activation zone"%string).
Proof.
  split; [intros [H _]; vm_compute in H; apply H; reflexivity |].
  split; [eexists; split; reflexivity |].
  split; [reflexivity |].
  split; [reflexivity | discriminate].
Qed.

(** The wrap of [can_activate] has the period [zone_length + 1000], not
    the lap: at 1700 m of a 2500 m lap, outside the zone [500, 625], an
    available controller accepts the request. *)
Example can_activate_wrap_period :
  state Samples.mode = AVAILABLE
  /\ can_activate Samples.mode 1 0.0 1700.0 = Ok (true, "Can activate"%string).
Proof. split; reflexivity. Qed.

(** A negative position is wrapped as well: 575 m before the line, outside
    the zone [500, 625], the remainder modulo 1125 is 550 and an
    available controller accepts the request. *)
Example can_activate_negative_position :
  state Samples.mode = AVAILABLE
  /\ can_activate Samples.mode 1 0.0 (-575.0) = Ok (true, "Can activate"%string).
Proof. split; reflexivity. Qed.

(** C3 (amended): for a track position that is not negative, lies
    outside the activation zone and lies below the wrap period
    [zone_length + 1000] of the zone test, [can_activate] returns false
    in every controller state; the reason is "Not in activation zone"
    when the controller is AVAILABLE and the reason of the state (all
    activations used, already active, currently activating)
    otherwise. *)
Theorem can_activate_outside_zone (am : AttackMode.t) (lap : Z) (t p : Q) :
  (0 <= p)%Q ->
  (p < activation_zone_end am - activation_zone_start am + 1000.0)%Q ->
  ~ ((activation_zone_start am <= p)%Q /\ (p <= activation_zone_end am)%Q) ->
  can_activate am lap t p = Ok (false, Samples.refusal_reason (state am))
  /\ (state am = AVAILABLE ->
      can_activate am lap t p = Ok (false, "Not in activation zone"%string)).
Proof.
  intros H0 Hlt Hout.
  destruct (decide (state am = AVAILABLE)) as [Hst | Hst].
  - rewrite Hst. simpl. split; [| intros _];
      apply can_activate_available_outside; assumption.
  - split; [apply can_activate_not_available, Hst | intros; contradiction].
Qed.

Lemma can_activate_outside_zone_witness :
  can_activate Samples.mode 1 0.0 100.0 = Ok (false, "Not in activation zone"%string)
  /\ can_activate Samples.active_mode 1 10.0 100.0 = Ok (false, "Already active"%string).
Proof.
  split.
  - apply (can_activate_outside_zone Samples.mode 1 0.0 100.0).
    + vm_compute. discriminate.
    + vm_compute. reflexivity.
    + intros [H _]. vm_compute in H. apply H. reflexivity.
    + reflexivity.
  - apply (can_activate_outside_zone Samples.active_mode 1 10.0 100.0).
    + vm_compute. discriminate.
    + vm_compute. reflexivity.
    + intros [H _]. vm_compute in H. apply H. reflexivity.
Defined.

End AttackModeClaims.

Section AttackModeManagerClaims.

Import AttackModeManager.

(** Every reason a controller gives differs from the manager's reason
    for an unknown car. *)
Lemma controller_reason_not_invalid_id (am : AttackMode.t) (lap : Z) (t p : Q)
    (b : bool) (reason : string) :
  AttackMode.can_activate am lap t p = Ok (b, reason) ->
  reason <> "Invalid car ID"%string.
Proof.
  unfold AttackMode.can_activate.
  repeat case_decide; try (intros [= <- <-]; discriminate).
  destruct (Py.mod_ _ _) as [r |]; simpl; [| discriminate].
  destruct (negb _); intros [= <- <-]; discriminate.
Qed.

(** C8, as stated, fails: for car id 5, unknown to a manager of the cars
    0 and 1, the power query returns 200 kW, the very value it returns
    for the known car 0, the activations-remaining query returns 0, and
    [activate] returns the plain [False] that a known car gets when it
    asks outside the zone. *)
Lemma unknown_car_silent_defaults :
  attack_modes Samples.manager !! 5 = None
  /\ is_Some (attack_modes Samples.manager !! 0)
  /\ get_power_kw Samples.manager 5 = 200.0%Q
  /\ get_power_kw Samples.manager 0 = 200.0%Q
  /\ get_activations_remaining Samples.manager 5 = 0
  /\ activate Samples.manager 5 1 0.0 550.0 = Ok (false, Samples.manager)
  /\ (exists m', activate Samples.manager 0 1 0.0 100.0 = Ok (false, m')).
Proof.
  split; [reflexivity |].
  split; [eexists; reflexivity |].
  repeat (split; [reflexivity |]).
  eexists. reflexivity.
Qed.

(** C8 (amended): for a car id absent from the manager's mapping,
    [can_activate] returns false with the reason "Invalid car ID", which
    no controller ever gives, while [activate] returns a plain false and
    leaves the manager as it is, [is_active] returns false, the power
    query returns the 200 kW baseline and the activations-remaining
    query returns 0; none of them raises. *)
Theorem unknown_car_id (mgr : AttackModeManager.t) (car_id lap : Z) (t p : Q) :
  attack_modes mgr !! car_id = None ->
  can_activate mgr car_id lap t p = Ok (false, "Invalid car ID"%string)
  /\ (forall known am b reason,
        attack_modes mgr !! known = Some am ->
        can_activate mgr known lap t p = Ok (b, reason) ->
        reason <> "Invalid car ID"%string)
  /\ activate mgr car_id lap t p = Ok (false, mgr)
  /\ is_active mgr car_id = false
  /\ get_power_kw mgr car_id = 200.0%Q
  /\ get_activations_remaining mgr car_id = 0.
Proof.
  intros Hnone.
  unfold can_activate, activate, is_active, get_power_kw, get_activations_remaining.
  rewrite Hnone. repeat split; try reflexivity.
  intros known am b reason Hknown. rewrite Hknown.
  apply controller_reason_not_invalid_id.
Qed.

Lemma unknown_car_id_witness :
  can_activate Samples.manager 5 1 0.0 550.0 = Ok (false, "Invalid car ID"%string)
  /\ get_power_kw Samples.manager 5 = 200.0%Q.
Proof.
  pose proof (unknown_car_id Samples.manager 5 1 0.0 550.0 eq_refl) as H.
  split; [apply H | apply H].
Defined.

End AttackModeManagerClaims.

(** ** Overtaking *)

Section OvertakingFacts.

Import OvertakingModel.
Context `{NumpyRandom}.

(** With a slower defender ahead, the pass over the nominal 250 m takes
    the attacker less time than the defender, so the difference that
    [successful_time_gain] clamps is negative: the gain is [0.0]. *)
Lemma successful_time_gain_zero (attacker_speed defender_speed speed_diff_kmh : Q) :
  (0 < defender_speed)%Q ->
  (defender_speed <= attacker_speed)%Q ->
  (0 <= speed_diff_kmh)%Q ->
  successful_time_gain attacker_speed defender_speed speed_diff_kmh = Ok 0.0%Q.
Proof.
  intros Hd Hle Hdiff. unfold successful_time_gain.
  set (v := (attacker_speed + speed_diff_kmh / 3.6 / 2)%Q).
  assert (defender_speed <= v)%Q as Hv.
  { unfold v. assert (0 <= speed_diff_kmh / 3.6 / 2)%Q; [| lra].
    apply Qle_shift_div_l; [reflexivity |].
    apply Qle_shift_div_l; [reflexivity |]. lra. }
  rewrite (div_ok _ v) by (apply Qnot_eq_sym, Qlt_not_eq; lra). simpl.
  rewrite (div_ok _ defender_speed) by (apply Qnot_eq_sym, Qlt_not_eq; lra). simpl.
  unfold Py.max_.
  assert (Py.ltb 0.0 (250.0 / v - 250.0 / defender_speed) = false) as ->; [| reflexivity].
  apply ltb_ge.
  assert (250.0 / v <= 250.0 / defender_speed)%Q; [| lra].
  apply Qle_shift_div_l; [lra |].
  assert (defender_speed / v <= 1)%Q as H1 by (apply Qle_shift_div_r; lra).
  unfold Qdiv in *. rewrite <- Qmult_assoc, (Qmult_comm (/ v)).
  set (z := (defender_speed * / v)%Q) in *. lra.
Qed.

(** A draw is never below a probability of zero. *)
Lemma never_below_zero (g : rng) : Py.ltb (random g).1 0.0 = false.
Proof. apply ltb_ge. destruct (random_range g) as [H0 _]. lra. Qed.

Lemma probability_below_threshold (self : t) (d : Q) (a b : bool) :
  (adjusted_diff self d a b < min_speed_diff self)%Q ->
  get_overtaking_success_probability self d a b = 0.0%Q.
Proof.
  intros Hlt. unfold get_overtaking_success_probability.
  apply ltb_lt in Hlt. by rewrite Hlt.
Qed.

End OvertakingFacts.

Section OvertakingClaims.

Import OvertakingModel.
Context `{NumpyRandom}.

(** C4 (amended): a call of [attempt_overtake] whose raw speed
    differential reaches the 5 km/h threshold and that returns appends
    exactly one record, of that attempt, to the overtaking history,
    whether the attempt succeeds or fails; a call below the threshold
    returns a failure with zero time gain and leaves the model, history
    included, as it is; the only exception a call raises is the division
    by zero of the time-gain computation; no call changes or removes a
    record already in the history. *)
Theorem attempt_overtake_history (self : t) (attacker defender : Z)
    (attacker_speed defender_speed gap_seconds track_position : Q)
    (attacker_am defender_am : bool) (ts : Q) (g : rng) :
  let diff := (attacker_speed * 3.6 - defender_speed * 3.6)%Q in
  match attempt_overtake self attacker defender attacker_speed defender_speed
          gap_seconds track_position attacker_am defender_am ts g with
  | Ok (res, self', g') =>
      if Py.ltb diff (min_speed_diff self)
      then self' = self /\ g' = g /\ res_success res = false
           /\ res_time_gain res = 0.0%Q
      else overtaking_history self'
           = overtaking_history self
             ++ [ {| attacker_id := attacker; defender_id := defender;
                     success := res_success res; speed_differential := diff;
                     time_gain := res_time_gain res; timestamp := ts |} ]
  | Raise e => Py.ltb diff (min_speed_diff self) = false /\ e = ZeroDivisionError
  end.
Proof.
  intros diff. unfold attempt_overtake. fold diff.
  destruct (Py.ltb diff (min_speed_diff self)) eqn:Hthr.
  - repeat split.
  - destruct (random g) as [u g'].
    destruct (Py.ltb u _).
    + unfold successful_time_gain, Py.div.
      destruct (Py.eqb (attacker_speed + diff / 3.6 / 2) 0); simpl; [done |].
      destruct (Py.eqb defender_speed 0); simpl; done.
    + simpl. reflexivity.
Qed.

(** C5: on a model as its constructor builds it, the success probability
    is a step function of the differential adjusted by 8 km/h for the
    attacker's boost and against the defender's: 0 below 5 km/h, where
    an attempt returns a failure with zero time gain, 0.20 on [5, 10),
    0.50 on [10, 15), 0.80 from 15 on, and 0.95 for a differential that
    no row of the table covers. *)
Theorem success_probability_step_function (track_length : Q)
    (random_seed : option Z) (g : rng) (speed_diff_kmh : Q) (attacker_am defender_am : bool) :
  let self := (init track_length random_seed g).1 in
  let d := adjusted_diff self speed_diff_kmh attacker_am defender_am in
  let p := get_overtaking_success_probability self speed_diff_kmh attacker_am defender_am in
  (d == speed_diff_kmh + (if attacker_am then 8 else 0)
        - (if defender_am then 8 else 0))%Q
  /\ ((d < 5)%Q -> p = 0.0%Q)
  /\ ((5 <= d)%Q -> (d < 10)%Q -> p = 0.20%Q)
  /\ ((10 <= d)%Q -> (d < 15)%Q -> p = 0.50%Q)
  /\ ((15 <= d)%Q -> p = 0.80%Q)
  /\ (forall table : list (Q * float_inf * Q),
        Forall (fun row => Py.leb row.1.1 d && Py.ltb_inf d row.1.2 = false) table ->
        find_probability table d = 0.95%Q)
  /\ (forall attacker defender attacker_speed defender_speed gap_seconds track_position
             ts g0,
        (adjusted_diff self (attacker_speed * 3.6 - defender_speed * 3.6)
           attacker_am defender_am < 5)%Q ->
        exists res self' g',
          attempt_overtake self attacker defender attacker_speed defender_speed
            gap_seconds track_position attacker_am defender_am ts g0
          = Ok (res, self', g')
          /\ res_success res = false /\ res_time_gain res = 0.0%Q).
Proof.
  intros self d p.
  split; [unfold d, adjusted_diff; simpl; destruct attacker_am, defender_am; ring |].
  assert (forall lo : Q, (lo <= d)%Q -> (5 <= lo)%Q -> Py.ltb d 5.0 = false) as Hge
    by (intros lo ? ?; apply ltb_ge; lra).
  split; [| split; [| split; [| split; [| split]]]].
  - intros Hlt. apply probability_below_threshold. simpl. fold d. lra.
  - intros H5 H10. unfold p, get_overtaking_success_probability. fold d. simpl.
    rewrite (Hge 5%Q) by lra. simpl.
    assert (Py.leb 5.0 d = true) as -> by (apply leb_le; lra).
    assert (Py.ltb d 10.0 = true) as -> by (apply ltb_lt; lra). reflexivity.
  - intros H10 H15. unfold p, get_overtaking_success_probability. fold d. simpl.
    rewrite (Hge 10%Q) by lra. simpl.
    assert (Py.leb 5.0 d = true) as -> by (apply leb_le; lra).
    assert (Py.ltb d 10.0 = false) as -> by (apply ltb_ge; lra).
    assert (Py.leb 10.0 d = true) as -> by (apply leb_le; lra).
    assert (Py.ltb d 15.0 = true) as -> by (apply ltb_lt; lra). reflexivity.
  - intros H15. unfold p, get_overtaking_success_probability. fold d. simpl.
    rewrite (Hge 15%Q) by lra. simpl.
    assert (Py.leb 5.0 d = true) as -> by (apply leb_le; lra).
    assert (Py.ltb d 10.0 = false) as -> by (apply ltb_ge; lra).
    assert (Py.leb 10.0 d = true) as -> by (apply leb_le; lra).
    assert (Py.ltb d 15.0 = false) as -> by (apply ltb_ge; lra).
    assert (Py.leb 15.0 d = true) as -> by (apply leb_le; lra). reflexivity.
  - intros table. induction 1 as [| [[lo hi] pr] rest Hrow _ IH]; simpl in *.
    + reflexivity.
    + rewrite Hrow. exact IH.
  - intros attacker defender attacker_speed defender_speed gap_seconds track_position
      ts g0 Hlt.
    unfold attempt_overtake.
    destruct (Py.ltb _ (min_speed_diff self));
      [do 3 eexists; split; [reflexivity | split; reflexivity] |].
    rewrite probability_below_threshold by (simpl; lra).
    pose proof (never_below_zero g0) as Hu.
    destruct (random g0) as [u g1]; simpl in *. rewrite Hu. simpl.
    do 3 eexists; split; [reflexivity | split; reflexivity].
Qed.

(** The time gain of every successful pass of a slower car is zero. *)
Lemma successful_pass_gains_nothing (self : t) (attacker defender : Z)
    (attacker_speed defender_speed gap_seconds track_position : Q)
    (attacker_am defender_am : bool) (ts : Q) (g : rng) res self' g' :
  (0 < defender_speed)%Q ->
  (0 <= min_speed_diff self)%Q ->
  attempt_overtake self attacker defender attacker_speed defender_speed
    gap_seconds track_position attacker_am defender_am ts g = Ok (res, self', g') ->
  res_time_gain res = 0.0%Q.
Proof.
  intros Hd Hmin. unfold attempt_overtake.
  case_ltb (attacker_speed * 3.6 - defender_speed * 3.6)%Q (min_speed_diff self).
  - by intros [= <- <- <-].
  - destruct (random g) as [u g1].
    destruct (Py.ltb u _).
    + rewrite successful_time_gain_zero by lra. simpl. by intros [= <- <- <-].
    + simpl. by intros [= <- <- <-].
Qed.

End OvertakingClaims.

Section OvertakingExamples.

Import OvertakingModel.

(** C4, as stated, fails: a call with equal speeds, differential 0 km/h
    below the 5 km/h threshold, returns a failure and leaves the
    overtaking history empty. *)
Lemma attempt_below_threshold_not_recorded :
  overtaking_history Samples.overtaking.1 = []
  /\ exists res,
       attempt_overtake (H := Lcg.numpy_random) Samples.overtaking.1 2 1 50.0 50.0 0.8 0.5
         false false 600.0 Samples.overtaking.2
       = Ok (res, Samples.overtaking.1, Samples.overtaking.2)
       /\ res_success res = false
       /\ overtaking_history Samples.overtaking.1 = [].
Proof. split; [reflexivity |]. eexists. repeat split. Qed.

Lemma success_probability_step_function_witness :
  get_overtaking_success_probability Samples.overtaking.1 12.0 false false = 0.50%Q.
Proof.
  apply (success_probability_step_function (H := Lcg.numpy_random)
           2500.0 (Some 0) 7 12.0 false false).
  - vm_compute. discriminate.
  - vm_compute. reflexivity.
Defined.

(** C6: the code at the failing input.  The attacker runs at 192 km/h
    behind a defender at 180 km/h, 0.8 s back, without attack mode.  The
    differential is 12 km/h and the probability used is 0.50; the draw
    0.345 makes the attempt succeed, and the time gain reported for the
    successful pass is 0, not a positive time under one second: the
    traversal times over the 250 m are subtracted the wrong way round
    (4.545 s for the attacker minus 5 s for the defender) and the
    negative difference is clamped to 0. *)
Theorem twelve_kmh_success_gains_nothing :
  let attacker_speed := (192.0 / 3.6)%Q in
  let defender_speed := (180.0 / 3.6)%Q in
  let diff := (attacker_speed * 3.6 - defender_speed * 3.6)%Q in
  (diff == 12)%Q
  /\ get_overtaking_success_probability Samples.overtaking.1 diff false false = 0.50%Q
  /\ (random (NumpyRandom := Lcg.numpy_random) Samples.overtaking.2).1 = 0.345%Q
  /\ (250.0 / (attacker_speed + diff / 3.6 / 2) - 250.0 / defender_speed
      == - (5 # 11))%Q
  /\ exists self' g',
       attempt_overtake (H := Lcg.numpy_random) Samples.overtaking.1 2 1
         attacker_speed defender_speed 0.8 0.5 false false 0.0 Samples.overtaking.2
       = Ok ({| res_success := true; res_speed_differential_kmh := diff;
                res_time_gain := 0.0; res_slipstream_active := true |}, self', g').
Proof.
  split; [reflexivity |].
  split; [reflexivity |].
  split; [reflexivity |].
  split; [reflexivity |].
  eexists _, _. reflexivity.
Qed.

End OvertakingExamples.

(** ** The safety car *)

Section SafetyCarFacts.

Import RaceEvents EventRuns.
Context `{NumpyRandom}.

Lemma inv_deploy (self : t) (lap : Z) (race_time : Q) (g : rng) :
  safety_car_inv self -> safety_car_inv (_deploy_safety_car self lap race_time g).1.
Proof.
  intros [_ Hs]. unfold _deploy_safety_car.
  destruct (randint 3 9 g) as [laps g']. split; simpl; [| exact Hs]. tauto.
Qed.

Lemma inv_update (self : t) (lap : Z) :
  safety_car_inv self -> safety_car_inv (update_safety_car self lap).2.
Proof.
  intros Hinv. unfold update_safety_car.
  destruct (safety_car_active self) eqn:Hact; simpl; [| exact Hinv].
  destruct Hinv as [Ha Hs]. rewrite Hact in Ha.
  destruct (_ <=? 0); simpl.
  - destruct (safety_car_state self) eqn:Hst; simpl;
      (split; [simpl | exact Hs]); try rewrite Hact; try rewrite Hst;
      intuition congruence.
  - split; simpl; [exact Ha | exact Hs].
Qed.

Lemma inv_crash (self : t) (car : Z) (race_time : Q) :
  safety_car_inv self -> safety_car_inv (_register_crash self car race_time).
Proof. intros Hinv. exact Hinv. Qed.

Lemma inv_weather (self : t) (g : rng) :
  safety_car_inv self -> safety_car_inv (_change_weather self g).1.
Proof.
  intros Hinv. unfold _change_weather.
  destruct (weather_dry self).
  - destruct (uniform 0.15 0.30 g) as [x g1], (uniform 5 15 g1) as [y g2]. exact Hinv.
  - destruct (random g) as [u g1]. destruct (Py.ltb u 0.3); [| exact Hinv].
    destruct (uniform 0.85 1.0 g1) as [x g2], (uniform 2 8 g2) as [y g3]. exact Hinv.
Qed.

Lemma inv_check_crash (lap : Z) (race_time : Q) (acc : t * LapEvents * rng) (car : Z) :
  safety_car_inv acc.1.1 -> safety_car_inv (check_crash lap race_time acc car).1.1.
Proof.
  destruct acc as [[self events] g]; simpl. intros Hinv. unfold check_crash.
  case_decide; [exact Hinv |].
  destruct (random g) as [u g1]. destruct (Py.ltb u _); [| exact Hinv].
  destruct (safety_car_active self); [exact Hinv |].
  destruct (random g1) as [u2 g2]. destruct (Py.ltb u2 0.5); [| exact Hinv].
  pose proof (inv_deploy (_register_crash self car race_time) lap race_time g2
                (inv_crash self car race_time Hinv)) as Hd.
  destruct (_deploy_safety_car _ lap race_time g2) as [self' g3]. exact Hd.
Qed.

Lemma inv_check (self : t) (lap : Z) (race_time : Q) (cars : list Z) (g : rng) :
  safety_car_inv self -> safety_car_inv (check_lap_events self lap race_time cars g).1.2.
Proof.
  intros Hinv. unfold check_lap_events.
  set (events0 := {| safety_car_deployed := false; crashes := [];
                     weather_changed := false; new_mu_weather := mu_weather self |}).
  assert (forall acc : t * LapEvents * rng,
            safety_car_inv acc.1.1 ->
            safety_car_inv (foldl (check_crash lap race_time) acc cars).1.1) as Hloop.
  { induction cars as [| car cars IH]; intros acc Hacc; simpl; [exact Hacc |].
    apply IH, inv_check_crash, Hacc. }
  assert (forall acc : t * LapEvents * rng,
            safety_car_inv acc.1.1 ->
            safety_car_inv
              (let '(self, events, g) := foldl (check_crash lap race_time) acc cars in
               let '(u, g) := random g in
               if Py.ltb u (weather_change_probability self)
               then let '(self, g) := _change_weather self g in
                    ({| safety_car_deployed := safety_car_deployed events;
                        crashes := crashes events; weather_changed := true;
                        new_mu_weather := mu_weather self |}, self, g)
               else (events, self, g)).1.2) as Hrest.
  { intros acc Hacc. specialize (Hloop acc Hacc).
    destruct (foldl _ acc cars) as [[s1 e1] g1]; simpl in Hloop.
    destruct (random g1) as [u g2]. destruct (Py.ltb u _); [| exact Hloop].
    pose proof (inv_weather s1 g2 Hloop) as Hw.
    destruct (_change_weather s1 g2) as [s2 g3]. exact Hw. }
  destruct (safety_car_active self); [apply (Hrest (self, events0, g)), Hinv |].
  destruct (random g) as [u g1]. destruct (Py.ltb u _).
  - pose proof (inv_deploy self lap race_time g1 Hinv) as Hd.
    destruct (_deploy_safety_car self lap race_time g1) as [s1 g2].
    apply (Hrest (s1, _, g2)), Hd.
  - apply (Hrest (self, events0, g1)), Hinv.
Qed.

Lemma reachable_inv (self : t) : reachable self -> safety_car_inv self.
Proof.
  induction 1.
  - split; simpl; [| reflexivity]. split; [discriminate | intros [|]; discriminate].
  - by apply inv_check.
  - by apply inv_update.
  - by apply inv_deploy.
  - by apply inv_crash.
  - by apply inv_weather.
Qed.

(** While fewer updates than the remaining laps have run, a deployed
    safety car stays deployed and the counter has gone down by one per
    update. *)
Lemma countdown (laps : list Z) (self : t) :
  safety_car_state self = DEPLOYED ->
  safety_car_active self = true ->
  Z.of_nat (length laps) < safety_car_laps_remaining self ->
  safety_car_state (updates self laps) = DEPLOYED
  /\ safety_car_active (updates self laps) = true
  /\ safety_car_laps_remaining (updates self laps)
     = safety_car_laps_remaining self - Z.of_nat (length laps).
Proof.
  revert self. induction laps as [| lap laps IH]; intros self Hst Hact Hlen; simpl in *.
  - repeat split; [exact Hst | exact Hact | lia].
  - unfold updates in *. simpl.
    assert ((update_safety_car self lap).2
            = set_safety_car self DEPLOYED true (safety_car_laps_remaining self - 1)
                (safety_car_deployment_lap self)) as ->.
    { unfold update_safety_car. rewrite Hact. simpl.
      destruct (_ <=? 0) eqn:Hz; [apply Z.leb_le in Hz; lia |].
      simpl. by rewrite Hst. }
    destruct (IH (set_safety_car self DEPLOYED true (safety_car_laps_remaining self - 1)
                    (safety_car_deployment_lap self))) as (H1 & H2 & H3);
      [reflexivity | reflexivity | simpl; lia |].
    repeat split; [exact H1 | exact H2 |]. rewrite H3. simpl. lia.
Qed.

Lemma updates_snoc (self : t) (laps : list Z) (lap : Z) :
  updates self (laps ++ [lap]) = (update_safety_car (updates self laps) lap).2.
Proof. unfold updates. by rewrite foldl_app. Qed.

(** The update that brings the counter of a deployed safety car to zero
    sends it RETURNING for one lap. *)
Lemma last_deployed_update (self : t) (lap : Z) :
  safety_car_state self = DEPLOYED ->
  safety_car_active self = true ->
  safety_car_laps_remaining self = 1 ->
  update_safety_car self lap
  = (true, set_safety_car self RETURNING true 1 (safety_car_deployment_lap self)).
Proof.
  intros Hst Hact Hrem. unfold update_safety_car.
  rewrite Hact. simpl. rewrite Hrem, Hst. reflexivity.
Qed.

(** The update after that clears the safety car. *)
Lemma returning_update (self : t) (lap : Z) :
  safety_car_state self = RETURNING ->
  safety_car_active self = true ->
  safety_car_laps_remaining self = 1 ->
  update_safety_car self lap
  = (true, set_safety_car self CLEAR false 0 (safety_car_deployment_lap self)).
Proof.
  intros Hst Hact Hrem. unfold update_safety_car.
  rewrite Hact. simpl. rewrite Hrem, Hst. reflexivity.
Qed.

End SafetyCarFacts.

Section SafetyCarClaims.

Import RaceEvents EventRuns.
Context `{NumpyRandom}.

(** C7: a fresh engine is CLEAR; deployment moves the engine to DEPLOYED
    with a number of laps drawn by [randint(3, 9)], an integer from 3 to
    8; the safety car stays DEPLOYED while fewer updates than that
    number have run, is RETURNING after exactly that many, and is CLEAR
    after one more; on every reachable engine [safety_car_active] holds
    exactly when the state is DEPLOYED or RETURNING, and
    [get_safety_car_speed] is 80 km/h in m/s when active and [np.inf]
    otherwise. *)
Theorem safety_car_cycle (self : t) (lap : Z) (race_time : Q) (g : rng) (laps : list Z) :
  let deployed := (_deploy_safety_car self lap race_time g).1 in
  let d := safety_car_laps_remaining deployed in
  let n := Z.of_nat (length laps) in
  let later := updates deployed laps in
  (forall num_cars track_length random_seed g0,
     safety_car_state (init num_cars track_length random_seed g0).1 = CLEAR
     /\ safety_car_active (init num_cars track_length random_seed g0).1 = false)
  /\ d = (randint 3 9 g).1 /\ 3 <= d <= 8
  /\ safety_car_state deployed = DEPLOYED /\ safety_car_active deployed = true
  /\ (n < d -> safety_car_state later = DEPLOYED /\ safety_car_active later = true)
  /\ (n = d -> safety_car_state later = RETURNING /\ safety_car_active later = true)
  /\ (n = d + 1 -> safety_car_state later = CLEAR /\ safety_car_active later = false)
  /\ (forall s, reachable s ->
        (safety_car_active s = true <->
         safety_car_state s = DEPLOYED \/ safety_car_state s = RETURNING)
        /\ get_safety_car_speed s
           = if safety_car_active s then Fin (80.0 / 3.6)%Q else Inf).
Proof.
  intros deployed d n later.
  assert (d = (randint 3 9 g).1 /\ safety_car_state deployed = DEPLOYED
          /\ safety_car_active deployed = true) as (Hd & Hst & Hact).
  { unfold d, deployed, _deploy_safety_car.
    destruct (randint 3 9 g) as [k g']. repeat split. }
  assert (3 <= d <= 8) as Hrange.
  { rewrite Hd. pose proof (randint_range 3 9 g ltac:(lia)). lia. }
  split; [intros; split; reflexivity |].
  split; [exact Hd |]. split; [exact Hrange |].
  split; [exact Hst |]. split; [exact Hact |].
  assert (forall ls : list Z,
            Z.of_nat (length ls) = d ->
            safety_car_state (updates deployed ls) = RETURNING
            /\ safety_car_active (updates deployed ls) = true
            /\ safety_car_laps_remaining (updates deployed ls) = 1) as Hret.
  { intros ls Hlen.
    destruct ls as [| x ls _] using rev_ind; [simpl in Hlen; lia |].
    rewrite length_app in Hlen. simpl in Hlen.
    destruct (countdown ls deployed Hst Hact) as (H1 & H2 & H3); [fold d; lia |].
    rewrite updates_snoc, last_deployed_update; [| exact H1 | exact H2 | fold d in H3; lia].
    repeat split. }
  split; [| split; [| split]].
  - intros Hlt. destruct (countdown laps deployed Hst Hact) as (H1 & H2 & _);
      [fold d n; lia | by split].
  - intros Hn. destruct (Hret laps Hn) as (H1 & H2 & _). by split.
  - intros Hn. destruct laps as [| x ls _] using rev_ind; [simpl in n; lia |].
    unfold n in Hn. rewrite length_app in Hn. simpl in Hn.
    destruct (Hret ls) as (H1 & H2 & H3); [lia |].
    unfold later. rewrite updates_snoc, returning_update by assumption.
    split; reflexivity.
  - intros s Hs. destruct (reachable_inv s Hs) as [Ha Hspeed].
    split; [exact Ha |]. unfold get_safety_car_speed. by rewrite Hspeed.
Qed.

End SafetyCarClaims.

Section SafetyCarExamples.

Import RaceEvents EventRuns.

(** On the sample generator the draw of the deployment is 6 laps. *)
Lemma safety_car_cycle_witness :
  let deployed := (_deploy_safety_car (H := Lcg.numpy_random) fresh 4 480.0 0).1 in
  safety_car_laps_remaining deployed = 6
  /\ safety_car_state (updates deployed [5; 6; 7; 8; 9]) = DEPLOYED
  /\ safety_car_state (updates deployed [5; 6; 7; 8; 9; 10]) = RETURNING
  /\ safety_car_state (updates deployed [5; 6; 7; 8; 9; 10; 11]) = CLEAR
  /\ get_safety_car_speed deployed = Fin (80.0 / 3.6)%Q.
Proof.
  intros deployed.
  split; [reflexivity |].
  split; [apply (safety_car_cycle (H := Lcg.numpy_random) fresh 4 480.0 0
                   [5; 6; 7; 8; 9]); reflexivity |].
  split; [apply (safety_car_cycle (H := Lcg.numpy_random) fresh 4 480.0 0
                   [5; 6; 7; 8; 9; 10]); reflexivity |].
  split; [apply (safety_car_cycle (H := Lcg.numpy_random) fresh 4 480.0 0
                   [5; 6; 7; 8; 9; 10; 11]); reflexivity |].
  pose proof (safety_car_cycle (H := Lcg.numpy_random) fresh 4 480.0 0 []) as Hc.
  simpl in Hc. destruct Hc as (_ & _ & _ & _ & _ & _ & _ & _ & Hr).
  destruct (Hr deployed) as [_ Hs]; [| exact Hs].
  apply reach_deploy, (reach_init (H := Lcg.numpy_random) 20 2500.0 (Some 42) 0).
Defined.

End SafetyCarExamples.

(** ** The orchestrator: what a loop iteration preserves *)

Section Frames.

Import RaceSimulator RaceRuns.
Context `{NumpyRandom}.

Lemma same_but_position_refl (c : CarState.t) : same_but_position c c.
Proof. by destruct c. Qed.

Lemma car_step_refl (c : CarState.t) : car_step c c.
Proof. split; [intros _; apply same_but_position_refl | tauto]. Qed.

Lemma car_step_trans (c1 c2 c3 : CarState.t) :
  car_step c1 c2 -> car_step c2 c3 -> car_step c1 c3.
Proof.
  intros [Ha1 Hb1] [Ha2 Hb2]. split; [| tauto].
  intros Hin. specialize (Ha1 Hin).
  assert (CarState.is_active c2 = false) as Hin2 by (rewrite Ha1; exact Hin).
  specialize (Ha2 Hin2). unfold same_but_position in *.
  rewrite Ha2 at 1. rewrite Ha1 at 1. reflexivity.
Qed.

Lemma car_step_set_position (p : Z) (c : CarState.t) :
  car_step c (CarState.set_position p c).
Proof. split; [intros _; reflexivity | tauto]. Qed.

Lemma car_step_deactivate (c : CarState.t) : car_step c (CarState.deactivate c).
Proof.
  split; [| tauto]. intros Hin. destruct c; simpl in *; subst. reflexivity.
Qed.

Lemma car_step_active (c c' : CarState.t) :
  CarState.is_active c = true ->
  ((0 <= CarState.energy_remaining c)%Q -> (0 <= CarState.energy_remaining c')%Q) ->
  car_step c c'.
Proof. intros Hact He. split; [congruence | exact He]. Qed.

Lemma store_step_refl (cs : list (Z * CarState.t)) : store_step cs cs.
Proof. induction cs; constructor; [split; [done | apply car_step_refl] | done]. Qed.

Lemma store_step_trans (cs1 cs2 cs3 : list (Z * CarState.t)) :
  store_step cs1 cs2 -> store_step cs2 cs3 -> store_step cs1 cs3.
Proof.
  intros H12. revert cs3. induction H12 as [| x y l1 l2 [Hk Hc] _ IH]; intros cs3 H23.
  - inversion H23. constructor.
  - inversion H23 as [| y' z l2' l3 [Hk' Hc'] Hrest]; subst.
    constructor; [split; [congruence | eapply car_step_trans; eassumption] |].
    apply IH, Hrest.
Qed.

Lemma store_step_alter (f : CarState.t -> CarState.t) (k : Z) (cs : list (Z * CarState.t)) :
  (forall c, car_step c (f c)) -> store_step cs (Dict.alter f k cs).
Proof.
  intros Hf. induction cs as [| [k' c] cs IH]; simpl; constructor; [| exact IH].
  simpl. case_decide; simpl; split; auto using car_step_refl.
Qed.

Lemma store_step_map (f : Z -> CarState.t -> CarState.t) (cs : list (Z * CarState.t)) :
  (forall k c, car_step c (f k c)) ->
  store_step cs ((fun kv : Z * CarState.t => (kv.1, f kv.1 kv.2)) <$> cs).
Proof.
  intros Hf. induction cs as [| [k c] cs IH]; simpl; constructor; [| exact IH].
  simpl. split; [done | apply Hf].
Qed.

Lemma store_step_for_each (f : Z -> CarState.t -> Result CarState.t)
    (cs cs' : list (Z * CarState.t)) :
  (forall k c c', f k c = Ok c' -> car_step c c') ->
  for_each_car f cs = Ok cs' -> store_step cs cs'.
Proof.
  intros Hf. revert cs'. induction cs as [| [k c] cs IH]; simpl; intros cs' Hrun.
  - injection Hrun as <-. constructor.
  - destruct (f k c) as [c1 |] eqn:Hc; simpl in Hrun; [| discriminate].
    destruct (for_each_car f cs) as [rest |]; simpl in Hrun; [| discriminate].
    injection Hrun as <-. constructor; [split; [done | eapply Hf, Hc] |].
    by apply IH.
Qed.

(** A car found under a key is found under it after a [store_step]. *)
Lemma store_step_get (cs cs' : list (Z * CarState.t)) (k : Z) (c : CarState.t) :
  store_step cs cs' -> Dict.get cs k = Ok c ->
  exists c', Dict.get cs' k = Ok c' /\ car_step c c'.
Proof.
  induction 1 as [| [k1 c1] [k2 c2] l1 l2 [Hk Hc] _ IH]; simpl; [discriminate |].
  simpl in Hk. subst k2. case_decide.
  - intros [= <-]. eauto.
  - exact IH.
Qed.

Lemma store_step_energy (cs cs' : list (Z * CarState.t)) :
  store_step cs cs' ->
  Forall (fun kv : Z * CarState.t => (0 <= CarState.energy_remaining kv.2)%Q) cs ->
  Forall (fun kv : Z * CarState.t => (0 <= CarState.energy_remaining kv.2)%Q) cs'.
Proof.
  induction 1 as [| x y l1 l2 [_ [_ He]] _ IH]; intros Hall; [constructor |].
  inversion Hall; subst. constructor; auto.
Qed.

End Frames.

Section Substeps.

Import RaceSimulator RaceRuns.
Context `{NumpyRandom}.

Lemma sim_step_refl (s : t) : sim_step s s.
Proof. repeat split; auto using store_step_refl. Qed.

Lemma sim_step_trans (s1 s2 s3 : t) : sim_step s1 s2 -> sim_step s2 s3 -> sim_step s1 s3.
Proof.
  intros (Hc1 & Hm1 & Ht1 & Hd1 & Hr1) (Hc2 & Hm2 & Ht2 & Hd2 & Hr2).
  split; [eapply store_step_trans; eassumption |].
  split; [| repeat split; congruence].
  intros Hp. rewrite Hm2; [by apply Hm1 |]. by rewrite Hm1.
Qed.

Lemma handle_crashes_step (crashes : list Z) (cs : list (Z * CarState.t)) :
  store_step cs (handle_crashes crashes cs).
Proof.
  revert cs. induction crashes as [| k crashes IH]; intros cs; simpl.
  - apply store_step_refl.
  - eapply store_step_trans; [| apply IH].
    apply store_step_alter, car_step_deactivate.
Qed.

Lemma update_race_events_step (s s' : t) (g g' : rng) :
  _update_race_events s g = Ok (s', g') -> sim_step s s'.
Proof.
  unfold _update_race_events.
  destruct (_last_lap_checked s) as [last |]; simpl.
  - destruct (negb _); simpl.
    + destruct (RaceEvents.check_lap_events _ _ _ _ g) as [[events re] g1].
      destruct (RaceEvents.weather_changed events); simpl.
      * destruct (Py.div _ _) as [ratio |]; simpl; [| discriminate].
        destruct (RaceEvents.update_safety_car _ _) as [changed re'].
        intros [= <- <-]. repeat split; simpl. apply handle_crashes_step.
      * destruct (RaceEvents.update_safety_car _ _) as [changed re'].
        intros [= <- <-]. repeat split; simpl. apply handle_crashes_step.
    + destruct (RaceEvents.update_safety_car _ _) as [changed re'].
      intros [= <- <-]. repeat split; simpl. apply store_step_refl.
  - destruct (RaceEvents.update_safety_car _ _) as [changed re'].
    intros [= <- <-]. repeat split; simpl. apply store_step_refl.
Qed.

Lemma update_car_step (s : t) (v : float_inf) (k : Z) (c c' : CarState.t) :
  update_car s v k c = Ok c' -> car_step c c'.
Proof.
  unfold update_car.
  destruct (CarState.is_active c) eqn:Hact; simpl;
    [| intros [= <-]; apply car_step_refl].
  destruct (_ : Result Q) as [speed |]; simpl; [| discriminate].
  destruct (Py.mod_ _ _) as [distance |]; simpl; [| discriminate].
  destruct (Py.div _ _) as [normalized |]; simpl; [| discriminate].
  match goal with |- context [Py.leb ?e 0] => case_leb e 0%Q end;
    intros [= <-]; apply car_step_active; try assumption; simpl; intros _; lra.
Qed.

Lemma update_cars_step (s s' : t) : _update_cars s = Ok s' -> sim_step s s'.
Proof.
  unfold _update_cars.
  destruct (for_each_car _ _) as [cs |] eqn:Hrun; simpl; [| discriminate].
  intros [= <-]. repeat split; simpl.
  eapply store_step_for_each; [| exact Hrun]. intros k c c'. apply update_car_step.
Qed.

Lemma assign_positions_step (ids : list Z) (p : Z) (acc : list (Z * CarState.t) * gmap Z Z) :
  store_step acc.1 (assign_positions p ids acc).1.
Proof.
  revert p acc. induction ids as [| k ids IH]; intros p acc; simpl.
  - apply store_step_refl.
  - eapply store_step_trans; [| apply IH]. simpl.
    apply store_step_alter. intros c. apply car_step_set_position.
Qed.

Lemma calculate_gap_step (s : t) (leader : CarState.t) (k : Z) (c : CarState.t) :
  car_step c (calculate_gap s leader k c).
Proof.
  unfold calculate_gap.
  destruct (CarState.is_active c) eqn:Hact; simpl; [| apply car_step_refl].
  apply car_step_active; [exact Hact | simpl; tauto].
Qed.

Lemma update_positions_step (s s' : t) : _update_positions s = Ok s' -> sim_step s s'.
Proof.
  unfold _update_positions.
  pose proof (assign_positions_step (Dict.keys (sorted_by_progress (car_states s))) 1
                (car_states s, RaceState.positions (race_state s))) as Hassign.
  destruct (assign_positions _ _ _) as [cs positions]. simpl in Hassign.
  unfold _calculate_gaps.
  destruct (Dict.get _ _) as [leader |]; simpl; [| discriminate].
  intros [= <-].
  split; [| by destruct (sorted_by_progress (car_states s)) as [| [a b] l]].
  simpl. eapply store_step_trans; [exact Hassign |].
  destruct (sorted_by_progress (car_states s)) as [| [a b] l]; simpl;
    apply (store_step_map (fun k c => calculate_gap _ leader k c));
    intros k c; apply calculate_gap_step.
Qed.

Lemma swap_positions_step (a d : Z) (cs cs' : list (Z * CarState.t)) :
  swap_positions a d cs = Ok cs' -> store_step cs cs'.
Proof.
  unfold swap_positions.
  destruct (Dict.get cs a) as [ca |]; simpl; [| discriminate].
  destruct (Dict.get cs d) as [cd |]; simpl; [| discriminate].
  intros [= <-].
  eapply store_step_trans; apply store_step_alter; intros c; apply car_step_set_position.
Qed.

Lemma check_pair_step (defender attacker : Z * CarState.t) (s s' : t) (g g' : rng) :
  check_pair defender attacker s g = Ok (s', g') -> sim_step s s'.
Proof.
  unfold check_pair. destruct attacker as [a ca], defender as [d cd].
  destruct (_ && _); [| intros [= <- <-]; apply sim_step_refl].
  destruct (OvertakingModel.attempt_overtake _ _ _ _ _ _ _ _ _ _ _)
    as [[[result ov] g1] |]; simpl; [| discriminate].
  destruct (OvertakingModel.res_success result).
  - destruct (swap_positions _ _ _) as [cs |] eqn:Hswap; simpl; [| discriminate].
    intros [= <- <-]. repeat split; simpl. eapply swap_positions_step, Hswap.
  - intros [= <- <-]. repeat split; simpl. apply store_step_refl.
Qed.

Lemma overtaking_loop_step (sorted_cars : list (Z * CarState.t)) (s s' : t) (g g' : rng) :
  overtaking_loop sorted_cars s g = Ok (s', g') -> sim_step s s'.
Proof.
  revert s g. induction sorted_cars as [| defender rest IH]; intros s g; simpl.
  - intros [= <- <-]. apply sim_step_refl.
  - destruct rest as [| attacker rest'].
    + intros [= <- <-]. apply sim_step_refl.
    + destruct (check_pair defender attacker s g) as [[s1 g1] |] eqn:Hpair;
        simpl; [| discriminate].
      intros Hrest. eapply sim_step_trans; [eapply check_pair_step, Hpair |].
      eapply IH, Hrest.
Qed.

Lemma check_overtaking_step (s s' : t) (g g' : rng) :
  _check_overtaking s g = Ok (s', g') -> sim_step s s'.
Proof. apply overtaking_loop_step. Qed.

(** Updating controllers that are all AVAILABLE changes nothing. *)
Lemma update_all_pristine (mgr : AttackModeManager.t) (race_time : Q) :
  pristine mgr -> AttackModeManager.update_all mgr race_time = mgr.
Proof.
  intros Hp. unfold AttackModeManager.update_all, AttackModeManager.set_modes.
  assert ((fun am => (AttackMode.update am race_time).2)
            <$> AttackModeManager.attack_modes mgr
          = AttackModeManager.attack_modes mgr) as ->; [| by destruct mgr].
  apply map_eq. intros i. rewrite lookup_fmap.
  destruct (AttackModeManager.attack_modes mgr !! i) as [am |] eqn:Hi; [| reflexivity].
  simpl. f_equal. destruct (Hp i am Hi) as (Hst & _).
  unfold AttackMode.update. by rewrite Hst.
Qed.

Lemma update_attack_modes_step (s : t) : sim_step s (_update_attack_modes s).
Proof.
  repeat split; simpl; [apply store_step_refl |].
  intros Hp. by apply update_all_pristine.
Qed.

Lemma lap_completion_loop_step (dt : Q) (cs : list (Z * CarState.t)) (current_lap : Z) :
  store_step cs (lap_completion_loop dt cs current_lap).1.
Proof.
  revert current_lap. induction cs as [| [k c] cs IH]; intros current_lap; simpl.
  - constructor.
  - destruct (CarState.is_active c) eqn:Hact; simpl.
    + destruct (Py.ltb _ _).
      * specialize (IH (if current_lap <? CarState.lap (CarState.set_lap (CarState.lap c + 1) c)
                        then CarState.lap (CarState.set_lap (CarState.lap c + 1) c)
                        else current_lap)).
        destruct (lap_completion_loop dt cs _) as [rest lap']. simpl in *.
        constructor; [| exact IH]. split; [done |].
        apply car_step_active; [exact Hact | simpl; tauto].
      * specialize (IH current_lap).
        destruct (lap_completion_loop dt cs _) as [rest lap']. simpl in *.
        constructor; [| exact IH]. split; [done | apply car_step_refl].
    + specialize (IH current_lap).
      destruct (lap_completion_loop dt cs _) as [rest lap']. simpl in *.
      constructor; [| exact IH]. split; [done | apply car_step_refl].
Qed.

Lemma check_lap_completion_step (s : t) : sim_step s (_check_lap_completion s).
Proof.
  unfold _check_lap_completion.
  pose proof (lap_completion_loop_step (time_step s) (car_states s)
                (RaceState.current_lap (race_state s))) as Hloop.
  destruct (lap_completion_loop _ _ _) as [cs lap']. simpl in Hloop.
  repeat split; simpl. exact Hloop.
Qed.

Lemma store_history_step (s : t) : sim_step s (_store_history s).
Proof. repeat split; simpl. apply store_step_refl. Qed.

(** One iteration of the race loop: the clock advances by the time step;
    the cars make a [car_step] each; a pristine manager stays as it is. *)
Lemma loop_body_step (s s' : t) (lf lf' fin : bool) (g g' : rng) :
  loop_body s lf g = Ok (s', fin, lf', g') ->
  store_step (car_states s) (car_states s')
  /\ (pristine (attack_mode_manager s) -> attack_mode_manager s' = attack_mode_manager s)
  /\ time_step s' = time_step s
  /\ race_duration_minutes s' = race_duration_minutes s
  /\ RaceState.race_time (race_state s')
     = (RaceState.race_time (race_state s) + time_step s)%Q.
Proof.
  unfold loop_body.
  set (s0 := set_race_state _ s).
  destruct (if Py.leb _ _ then _ else _) as [fin0 lf0].
  destruct (_update_race_events s0 g) as [[s1 g1] |] eqn:H1; simpl; [| discriminate].
  destruct (_update_cars s1) as [s2 |] eqn:H2; simpl; [| discriminate].
  destruct (_update_positions s2) as [s3 |] eqn:H3; simpl; [| discriminate].
  destruct (_check_overtaking s3 g1) as [[s4 g4] |] eqn:H4; simpl; [| discriminate].
  intros [= <- <- <- <-].
  assert (sim_step s0 (_check_lap_completion (_update_attack_modes s4))) as Hstep.
  { eapply sim_step_trans; [eapply update_race_events_step, H1 |].
    eapply sim_step_trans; [eapply update_cars_step, H2 |].
    eapply sim_step_trans; [eapply update_positions_step, H3 |].
    eapply sim_step_trans; [eapply check_overtaking_step, H4 |].
    eapply sim_step_trans; [apply update_attack_modes_step |].
    apply check_lap_completion_step. }
  assert (sim_step s0 (if Py.int (RaceState.race_time
                                    (race_state (_check_lap_completion
                                                   (_update_attack_modes s4)))) mod 5 =? 0
                       then _store_history (_check_lap_completion (_update_attack_modes s4))
                       else _check_lap_completion (_update_attack_modes s4)))
    as (Hc & Hm & Ht & Hd & Hr).
  { destruct (_ =? 0); [| exact Hstep].
    eapply sim_step_trans; [exact Hstep | apply store_history_step]. }
  repeat split; assumption.
Qed.

End Substeps.

Section RaceFacts.

Import RaceSimulator RaceRuns.
Context `{NumpyRandom}.

Lemma iterations_step (n : nat) (s s' : t) (lf lf' : bool) (g g' : rng) :
  iterations n s lf g = Ok (s', lf', g') ->
  store_step (car_states s) (car_states s')
  /\ (pristine (attack_mode_manager s) -> attack_mode_manager s' = attack_mode_manager s)
  /\ time_step s' = time_step s
  /\ race_duration_minutes s' = race_duration_minutes s.
Proof.
  revert s lf g. induction n as [| n IH]; intros s lf g; simpl.
  - intros [= <- <- <-]. repeat split; auto using store_step_refl.
  - destruct (loop_body s lf g) as [[[[s1 fin] lf1] g1] |] eqn:Hbody; simpl;
      [| discriminate].
    intros Hrest. apply IH in Hrest as (Hc & Hm & Ht & Hd).
    apply loop_body_step in Hbody as (Hc1 & Hm1 & Ht1 & Hd1 & _).
    split; [eapply store_step_trans; eassumption |].
    split; [| split; congruence].
    intros Hp. rewrite Hm; [by apply Hm1 |]. by rewrite Hm1.
Qed.

(** Every state the race loop ends in is the state after some number of
    iterations. *)
Lemma race_loop_iterations (fuel : nat) (s s' : t) (lf : bool) (g g' : rng) :
  race_loop fuel s lf g = Ok (Some (s', g')) ->
  exists n lf', iterations n s lf g = Ok (s', lf', g').
Proof.
  revert s lf g. induction fuel as [| fuel IH]; intros s lf g; simpl; [discriminate |].
  destruct (loop_body s lf g) as [[[[s1 fin] lf1] g1] |] eqn:Hbody; simpl;
    [| discriminate].
  destruct fin.
  - intros [= <- <-]. exists 1%nat, lf1. simpl. by rewrite Hbody.
  - intros Hrest. apply IH in Hrest as (n & lf' & Hn).
    exists (S n), lf'. simpl. by rewrite Hbody.
Qed.

(** The controllers the manager's constructor creates. *)
Lemma create_modes_pristine (ids : list Z) (zone_start zone_end : Q)
    (random_seed : option Z) (acc : gmap Z AttackMode.t * rng) :
  map_Forall (fun _ am =>
                AttackMode.state am = AttackMode.AVAILABLE
                /\ AttackMode.activation_history am = []
                /\ AttackMode.activations_remaining am = 2
                /\ AttackMode.base_power_kw am = 200.0%Q) acc.1 ->
  map_Forall (fun _ am =>
                AttackMode.state am = AttackMode.AVAILABLE
                /\ AttackMode.activation_history am = []
                /\ AttackMode.activations_remaining am = 2
                /\ AttackMode.base_power_kw am = 200.0%Q)
    (foldl (fun '(modes, g) car_id =>
              let '(am, g) :=
                AttackMode.init car_id zone_start zone_end 200.0 random_seed g in
              (<[car_id := am]> modes, g)) acc ids).1.
Proof.
  revert acc. induction ids as [| k ids IH]; intros [modes g] Hacc; simpl; [exact Hacc |].
  apply IH. unfold AttackMode.init.
  destruct (uniform 0.5 1.0 _) as [loss g1]. simpl.
  apply map_Forall_insert_2; [repeat split | exact Hacc].
Qed.

Lemma manager_init_pristine (num_cars : Z) (track_length : Q) (zs ze : option Q)
    (random_seed : option Z) (g : rng) :
  pristine (AttackModeManager.init num_cars track_length zs ze random_seed g).1.
Proof.
  unfold AttackModeManager.init, AttackModeManager.create_modes.
  pose proof (create_modes_pristine (Py.range num_cars)
                (default (track_length * 0.20)%Q zs) (default (track_length * 0.25)%Q ze)
                random_seed (∅, g) (map_Forall_empty _)) as Hp.
  destruct (foldl _ _ _) as [modes g1]. simpl in *.
  intros k am Hk. exact (Hp k am Hk).
Qed.

Lemma init_pristine (num_cars : Z) (track_name : string) (duration dt : Q)
    (random_seed : option Z) (loaded : Track) (g : rng) :
  pristine (attack_mode_manager (init num_cars track_name duration dt random_seed loaded g).1).
Proof.
  unfold init.
  destruct (RaceEvents.init _ _ _ _) as [events g1].
  destruct (OvertakingModel.init _ _ _) as [ov g2].
  pose proof (manager_init_pristine num_cars (track_length (_initialize_track loaded))
                None None random_seed g2) as Hp.
  destruct (AttackModeManager.init _ _ _ _ _ _) as [mgr g3]. exact Hp.
Qed.

Lemma dict_set_energy (k : Z) (c : CarState.t) (cs : list (Z * CarState.t)) :
  (0 <= CarState.energy_remaining c)%Q ->
  Forall (fun kv : Z * CarState.t => (0 <= CarState.energy_remaining kv.2)%Q) cs ->
  Forall (fun kv : Z * CarState.t => (0 <= CarState.energy_remaining kv.2)%Q)
    (Dict.set k c cs).
Proof.
  intros Hc Hcs. unfold Dict.set. case_decide.
  - unfold Dict.alter. apply Forall_fmap. eapply Forall_impl; [exact Hcs |].
    intros [k' c'] Hc'; simpl in *. by case_decide.
  - apply Forall_app. split; [exact Hcs | by constructor].
Qed.

(** [_initialize_cars] leaves the manager alone and gives every car a
    non-negative energy. *)
Lemma initialize_cars_frame (base : CarElectric) (s : t) (g : rng) :
  attack_mode_manager (_initialize_cars base s g).1 = attack_mode_manager s
  /\ (Forall (fun kv : Z * CarState.t => (0 <= CarState.energy_remaining kv.2)%Q)
        (car_states s) ->
      Forall (fun kv : Z * CarState.t => (0 <= CarState.energy_remaining kv.2)%Q)
        (car_states (_initialize_cars base s g).1)).
Proof.
  unfold _initialize_cars. generalize (Py.range (num_cars s)). intros ids.
  revert s g. induction ids as [| k ids IH]; intros s g; simpl; [tauto |].
  destruct (uniform 0.98 1.02 g) as [skill g1].
  destruct (uniform 0.97 1.03 g1) as [eff g2].
  match goal with
  | |- context [foldl _ (?s1, g2) ids] => destruct (IH s1 g2) as [Hm He]
  end.
  split; [by rewrite Hm |].
  intros Hs. apply He. simpl. apply dict_set_energy; [| exact Hs].
  vm_compute. discriminate.
Qed.

End RaceFacts.

Section RaceClaims.

Import RaceSimulator RaceRuns.
Context `{NumpyRandom}.

(** C10: the race loop calls neither [activate] nor [can_activate]; after
    any number of iterations of a race started from a constructed
    simulator the manager is the one the constructor built, every
    controller is AVAILABLE with an empty activation history, and the
    power query returns the 200 kW baseline for every car. *)
Theorem attack_modes_stay_available (num_cars : Z) (track_name : string)
    (duration dt : Q) (random_seed : option Z) (loaded : Track) (g0 : rng)
    (base : CarElectric) (n : nat) (s : t) (lf : bool) (g : rng) :
  iterations n
    (race_start num_cars track_name duration dt random_seed loaded base g0).1 false
    (race_start num_cars track_name duration dt random_seed loaded base g0).2
  = Ok (s, lf, g) ->
  attack_mode_manager s
  = attack_mode_manager (init num_cars track_name duration dt random_seed loaded g0).1
  /\ (forall car_id am,
        AttackModeManager.attack_modes (attack_mode_manager s) !! car_id = Some am ->
        AttackMode.state am = AttackMode.AVAILABLE
        /\ AttackMode.activation_history am = []
        /\ AttackMode.get_power_kw am = 200.0%Q)
  /\ (forall car_id,
        AttackModeManager.get_power_kw (attack_mode_manager s) car_id = 200.0%Q).
Proof.
  intros Hrun. unfold race_start in Hrun.
  set (constructed := init num_cars track_name duration dt random_seed loaded g0) in *.
  pose proof (init_pristine num_cars track_name duration dt random_seed loaded g0) as Hp.
  fold constructed in Hp.
  destruct (initialize_cars_frame base constructed.1 constructed.2) as [Hm0 _].
  apply iterations_step in Hrun as (_ & Hm & _).
  rewrite Hm0 in Hm. specialize (Hm Hp). rewrite Hm.
  assert (forall car_id am,
            AttackModeManager.attack_modes (attack_mode_manager constructed.1) !! car_id
            = Some am ->
            AttackMode.state am = AttackMode.AVAILABLE
            /\ AttackMode.activation_history am = []
            /\ AttackMode.get_power_kw am = 200.0%Q) as Hall.
  { intros k am Hk. destruct (Hp k am Hk) as (Hst & Hh & _ & Hb).
    repeat split; [exact Hst | exact Hh |].
    unfold AttackMode.get_power_kw, AttackMode.is_active. by rewrite Hst, Hb. }
  split; [reflexivity |]. split; [exact Hall |].
  intros k. unfold AttackModeManager.get_power_kw.
  destruct (_ !! k) as [am |] eqn:Hk; [| reflexivity]. by apply (Hall k am).
Qed.

(** The manager at the end of a finished race is still the constructor's. *)
Lemma run_race_attack_modes (fuel : nat) (base : CarElectric) (s0 : t) (g0 : rng)
    (res : Results) (s : t) (g : rng) :
  pristine (attack_mode_manager s0) ->
  run_race fuel base s0 g0 = Ok (Some (res, s, g)) ->
  attack_mode_manager s = attack_mode_manager s0.
Proof.
  intros Hp. unfold run_race.
  destruct (initialize_cars_frame base s0 g0) as [Hm0 _].
  destruct (_initialize_cars base s0 g0) as [s1 g1]. simpl in Hm0.
  destruct (_calculate_reference_lap_time s1); simpl; [| discriminate].
  destruct (race_loop fuel s1 false g1) as [[[s2 g2] |] |] eqn:Hloop; simpl;
    try discriminate.
  intros [= _ <- _].
  apply race_loop_iterations in Hloop as (n & lf' & Hn).
  apply iterations_step in Hn as (_ & Hm & _).
  rewrite Hm; [exact Hm0 | by rewrite Hm0].
Qed.

(** C2 (amended): in [_update_cars] an active car whose energy after the
    consumption of the step is zero (or below) is marked inactive on
    that step with its energy set to 0; the car state records no
    retirement reason.  From then on, through any number of loop
    iterations, the retired car keeps its energy, speed, distance and
    lap; and the energy of every car of a race is non-negative after
    every iteration. *)
Theorem out_of_energy_retires (s : t) (lf : bool) (g : rng) (n : nat)
    (s' : t) (lf' : bool) (g' : rng) (k : Z) :
  iterations n s lf g = Ok (s', lf', g') ->
  (forall sim v c1 c2,
     update_car sim v k c1 = Ok c2 ->
     CarState.is_active c1 = true ->
     (CarState.energy_remaining c1
      - AttackModeManager.get_power_kw (attack_mode_manager sim) k * 1000.0
        * time_step sim / 0.9 <= 0)%Q ->
     CarState.is_active c2 = false /\ CarState.energy_remaining c2 = 0.0%Q)
  /\ (forall c,
        Dict.get (car_states s) k = Ok c ->
        CarState.is_active c = false ->
        exists c',
          Dict.get (car_states s') k = Ok c'
          /\ CarState.is_active c' = false
          /\ CarState.energy_remaining c' = CarState.energy_remaining c
          /\ CarState.speed c' = CarState.speed c
          /\ CarState.track_distance c' = CarState.track_distance c
          /\ CarState.lap c' = CarState.lap c)
  /\ (Forall (fun kv : Z * CarState.t => (0 <= CarState.energy_remaining kv.2)%Q)
        (car_states s) ->
      Forall (fun kv : Z * CarState.t => (0 <= CarState.energy_remaining kv.2)%Q)
        (car_states s'))
  /\ (forall num_cars track_name duration dt random_seed loaded g0 base,
        s = (race_start num_cars track_name duration dt random_seed loaded base g0).1 ->
        Forall (fun kv : Z * CarState.t => (0 <= CarState.energy_remaining kv.2)%Q)
          (car_states s')).
Proof.
  intros Hrun. apply iterations_step in Hrun as (Hstore & _).
  split; [| split; [| split]].
  - intros sim v c1 c2 Hup Hact Hzero. unfold update_car in Hup.
    rewrite Hact in Hup. simpl in Hup.
    destruct (_ : Result Q) as [speed |]; simpl in Hup; [| discriminate].
    destruct (Py.mod_ _ _) as [distance |]; simpl in Hup; [| discriminate].
    destruct (Py.div _ _) as [normalized |]; simpl in Hup; [| discriminate].
    apply leb_le in Hzero. rewrite Hzero in Hup. injection Hup as <-. by split.
  - intros c Hget Hin.
    destruct (store_step_get _ _ k c Hstore Hget) as (c' & Hget' & Hfrozen & _).
    exists c'. split; [exact Hget' |]. rewrite (Hfrozen Hin).
    repeat split; exact Hin.
  - by apply store_step_energy.
  - intros num_cars track_name duration dt random_seed loaded g0 base ->.
    apply (store_step_energy _ _ Hstore). unfold race_start.
    apply (initialize_cars_frame base).
    unfold init.
    destruct (RaceEvents.init _ _ _ _) as [events g1].
    destruct (OvertakingModel.init _ _ _) as [ov g2].
    destruct (AttackModeManager.init _ _ _ _ _ _) as [mgr g3]. constructor.
Qed.

End RaceClaims.

Section RaceExamples.

Import RaceSimulator RaceRuns.

Lemma attack_modes_stay_available_witness :
  exists s lf g,
    sample_two_iterations = Ok (s, lf, g)
    /\ AttackModeManager.get_power_kw (attack_mode_manager s) 0 = 200.0%Q.
Proof.
  assert (is_ok sample_two_iterations = true) as Hok by (vm_compute; reflexivity).
  destruct sample_two_iterations as [[[s lf] g] | e] eqn:E; [| discriminate Hok].
  exists s, lf, g. split; [reflexivity |].
  apply (attack_modes_stay_available _ _ _ _ _ _ _ _ _ _ _ _ E).
Defined.

(** C2, as stated, fails in its retirement reason: car 0 starts the car
    update with exactly the 100 kJ that the step consumes; after the
    update it is inactive with energy 0, and this is all that is
    recorded: the car state below is complete and has no reason field,
    and the event log, where a crash retirement is written, is empty. *)
Lemma drained_car_has_no_reason :
  _update_cars SampleRace.last_joule = Ok SampleRace.drained
  /\ (exists c0, SampleRace.car_record SampleRace.last_joule 0 = Some c0
                 /\ CarState.is_active c0 = true
                 /\ (CarState.energy_remaining c0
                     - AttackModeManager.get_power_kw
                         (attack_mode_manager SampleRace.last_joule) 0
                       * 1000.0 * time_step SampleRace.last_joule / 0.9 == 0)%Q)
  /\ (exists v d p,
        SampleRace.car_record SampleRace.drained 0
        = Some {| CarState.car_id := 0; CarState.position := 1; CarState.lap := 3;
                  CarState.track_distance := d;
                  CarState.track_position_normalized := p;
                  CarState.speed := v; CarState.energy_remaining := 0.0;
                  CarState.race_time := 0.0; CarState.gap_to_leader := 0.0;
                  CarState.gap_to_car_ahead := 0.0; CarState.gap_to_car_behind := 0.0;
                  CarState.lap_times := []; CarState.is_active := false |})
  /\ RaceEvents.event_log (race_events SampleRace.drained) = []
  /\ RaceEvents.crashed_cars (race_events SampleRace.drained) = ∅.
Proof.
  split; [vm_compute; reflexivity |].
  split; [eexists; split; [reflexivity | split; vm_compute; reflexivity] |].
  split.
  { let r := eval vm_compute in (SampleRace.car_record SampleRace.drained 0) in
    match r with
    | Some (CarState.Build_t _ _ _ ?d ?p ?v _ _ _ _ _ _ _) => exists v, d, p
    end.
    vm_compute. reflexivity. }
  split; vm_compute; reflexivity.
Qed.

Lemma out_of_energy_retires_witness :
  (exists c2,
     update_car SampleRace.last_joule Inf 0
       (SampleRace.car 0 1 3 1200.0 50.0 100000.0 true).2 = Ok c2
     /\ CarState.is_active c2 = false
     /\ CarState.energy_remaining c2 = 0.0%Q)
  /\ exists s' lf' g' c',
       drained_iteration = Ok (s', lf', g')
       /\ Dict.get (car_states s') 0 = Ok c'
       /\ CarState.is_active c' = false
       /\ CarState.energy_remaining c' = 0.0%Q
       /\ CarState.lap c' = 3.
Proof.
  assert (is_ok drained_iteration = true) as Hok by (vm_compute; reflexivity).
  destruct drained_iteration as [[[s' lf'] g'] | e] eqn:E; [| discriminate Hok].
  destruct (out_of_energy_retires (H := Lcg.numpy_random) _ _ _ _ _ _ _ 0 E)
    as (Hdrain & Hfrozen & _).
  split.
  - assert (is_ok (update_car SampleRace.last_joule Inf 0
                     (SampleRace.car 0 1 3 1200.0 50.0 100000.0 true).2) = true) as Hup
      by (vm_compute; reflexivity).
    destruct (update_car SampleRace.last_joule Inf 0 _) as [c2 |] eqn:E2;
      [| discriminate Hup].
    exists c2. split; [reflexivity |].
    apply (Hdrain _ _ _ _ E2); [reflexivity | vm_compute; discriminate].
  - assert (is_ok (Dict.get (car_states SampleRace.drained) 0) = true) as Hc
      by (vm_compute; reflexivity).
    assert (match Dict.get (car_states SampleRace.drained) 0 with
            | Ok c => CarState.is_active c = false
                      /\ CarState.energy_remaining c = 0.0%Q /\ CarState.lap c = 3
            | Raise _ => True
            end) as Hfacts by (vm_compute; repeat split).
    destruct (Dict.get (car_states SampleRace.drained) 0) as [c |]; [| discriminate Hc].
    destruct Hfacts as (Hin & He0 & Hl0).
    destruct (Hfrozen c eq_refl Hin) as (c' & Hget & Hact & He & _ & _ & Hlap).
    exists s', lf', g', c'. split; [reflexivity |]. split; [exact Hget |].
    split; [exact Hact |]. split; congruence.
Defined.

(** [_update_positions] ranks every car, retired or not: with the
    retired car 0 ahead on track, the active cars 1 and 2 get the ranks
    2 and 3, and the overtaking check that follows leaves them there. *)
Example update_positions_ranks_retired_cars :
  _update_positions SampleRace.retired_leader = Ok SampleRace.ranked
  /\ SampleRace.standings SampleRace.ranked
     = [(0, 1, false); (1, 2, true); (2, 3, true)]
  /\ SampleRace.active_ranks SampleRace.ranked = [2; 3]
  /\ RaceState.leader_id (race_state SampleRace.ranked) = 0
  /\ is_ok (_check_overtaking (H := Lcg.numpy_random) SampleRace.ranked SampleRace.start.2)
     = true
  /\ SampleRace.active_ranks SampleRace.overtaken = [2; 3].
Proof.
  split; [vm_compute; reflexivity |].
  split; [vm_compute; reflexivity |].
  split; [vm_compute; reflexivity |].
  split; vm_compute; repeat split.
Qed.

(** C1: the code at the failing input.  In a race of two cars, car 0
    crosses the line at iteration 4 while car 1 is still 0.1 m short of
    it; the event check of iteration 5 crashes car 0.  Car 1 then moves
    on, but its lap is counted only at the end of the iteration, so
    [_update_positions], which sorts every car, retired or not, ranks
    the retired car 0 first and gives the only active car rank 2, not
    rank 1.  One iteration later car 1 is ranked first. *)
Theorem retired_leader_keeps_rank_one :
  CrashRace.observe CrashRace.progress (CrashRace.after 4) = Some [(0, 1, 0); (1, 0, 100)]
  /\ CrashRace.observe SampleRace.standings (CrashRace.after 4)
     = Some [(0, 2, true); (1, 1, true)]
  /\ CrashRace.observe (fun s => RaceEvents.crashed_cars (race_events s))
       (CrashRace.after 5) = Some {[ 0 ]}
  /\ CrashRace.observe CrashRace.progress (CrashRace.after 5) = Some [(0, 1, 0); (1, 1, 24)]
  /\ CrashRace.observe SampleRace.standings (CrashRace.after 5)
     = Some [(0, 1, false); (1, 2, true)]
  /\ CrashRace.observe SampleRace.active_ranks (CrashRace.after 5) = Some [2]
  /\ CrashRace.observe SampleRace.active_ranks (CrashRace.after 5) <> Some [1]
  /\ CrashRace.observe SampleRace.standings (CrashRace.after 6)
     = Some [(0, 2, false); (1, 1, true)].
Proof.
  repeat split; try (vm_compute; reflexivity).
  vm_compute. discriminate.
Qed.

End RaceExamples.

(** ** Ranks *)

Section Ranks.

Import RaceSimulator.

Lemma insert_perm {A : Type} (before : A -> A -> bool) (x : A) (l : list A) :
  Sorted.insert before x l ≡ₚ x :: l.
Proof.
  induction l as [| y l IH]; simpl; [done |].
  destruct (before y x); [| done].
  rewrite IH. apply Permutation_swap.
Qed.

Lemma sorted_perm {A : Type} (before : A -> A -> bool) (l : list A) :
  Sorted.sorted before l ≡ₚ l.
Proof.
  induction l as [| x l IH]; [done |].
  unfold Sorted.sorted in *. simpl. rewrite insert_perm. by constructor.
Qed.

Lemma filter_all {A : Type} (P : A -> Prop) `{!forall x, Decision (P x)} (l : list A) :
  (forall x, x ∈ l -> P x) -> filter P l = l.
Proof.
  induction l as [| x l IH]; intros HP; [done |].
  rewrite filter_cons_True by (apply HP; left).
  f_equal. apply IH. intros y Hy. apply HP. by right.
Qed.

Lemma filter_none {A : Type} (P : A -> Prop) `{!forall x, Decision (P x)} (l : list A) :
  (forall x, x ∈ l -> ~ P x) -> filter P l = [].
Proof.
  induction l as [| x l IH]; intros HP; [done |].
  rewrite filter_cons_False by (apply HP; left).
  apply IH. intros y Hy. apply HP. by right.
Qed.

Lemma filter_ext_in {A : Type} (P Q : A -> Prop) `{!forall x, Decision (P x)}
    `{!forall x, Decision (Q x)} (l : list A) :
  (forall x, x ∈ l -> P x <-> Q x) -> filter P l = filter Q l.
Proof.
  induction l as [| x l IH]; intros HPQ; [done |].
  assert (filter P l = filter Q l) as Hrest
    by (apply IH; intros y Hy; apply HPQ; by right).
  destruct (decide (P x)) as [HP | HP].
  - rewrite !filter_cons_True; [by rewrite Hrest | by apply HPQ; [left |] | done].
  - rewrite !filter_cons_False; [done | | done].
    intros HQ. apply HP. apply HPQ; [left | done].
Qed.

Lemma key_elem_of (k : Z) (c : CarState.t) (cs : list (Z * CarState.t)) :
  (k, c) ∈ cs -> k ∈ Dict.keys cs.
Proof. intros Hin. apply list_elem_of_fmap. by exists (k, c). Qed.

Lemma keys_alter (f : CarState.t -> CarState.t) (k : Z) (cs : list (Z * CarState.t)) :
  Dict.keys (Dict.alter f k cs) = Dict.keys cs.
Proof.
  unfold Dict.keys, Dict.alter. rewrite <- list_fmap_compose.
  apply list_fmap_ext. intros i [k' c] _. simpl. by case_decide.
Qed.

Lemma alter_absent (f : CarState.t -> CarState.t) (k : Z) (cs : list (Z * CarState.t)) :
  k ∉ Dict.keys cs -> Dict.alter f k cs = cs.
Proof.
  intros Hk. unfold Dict.alter. rewrite <- (list_fmap_id cs) at 2.
  apply list_fmap_ext. intros i [k2 c2] Hi. simpl.
  case_decide; [| done]. exfalso. apply Hk. subst.
  eapply key_elem_of, list_elem_of_lookup_2, Hi.
Qed.

(** Ranking the car under [k] takes it out of the cars still to rank. *)
Lemma ranks_alter (p k : Z) (ids : list Z) (cs : list (Z * CarState.t)) :
  NoDup (Dict.keys cs) -> k ∈ Dict.keys cs -> k ∉ ids ->
  (fun kv : Z * CarState.t => CarState.position kv.2)
    <$> filter (fun kv : Z * CarState.t => kv.1 ∉ ids)
          (Dict.alter (CarState.set_position p) k cs)
  ≡ₚ p :: ((fun kv : Z * CarState.t => CarState.position kv.2)
             <$> filter (fun kv : Z * CarState.t => kv.1 ∉ k :: ids) cs).
Proof.
  intros Hnd Hin Hk. induction cs as [| [k' c] cs IH].
  - by apply elem_of_nil in Hin.
  - change (Dict.keys ((k', c) :: cs)) with (k' :: Dict.keys cs) in *.
    apply NoDup_cons in Hnd as [Hk' Hnd].
    change (Dict.alter (CarState.set_position p) k ((k', c) :: cs))
      with ((if decide (k' = k) then (k', CarState.set_position p c) else (k', c))
            :: Dict.alter (CarState.set_position p) k cs).
    destruct (decide (k' = k)) as [-> | Hne].
    + rewrite alter_absent by done.
      rewrite filter_cons_True by done.
      rewrite (filter_cons_False _ (k, c)) by (simpl; intros Hn; apply Hn; left).
      simpl. constructor. f_equiv.
      apply filter_ext_in. intros [k2 c2] Hin2. simpl.
      rewrite not_elem_of_cons. split; [| tauto].
      intros Hk2. split; [| done]. intros ->. apply Hk'. by eapply key_elem_of.
    + apply elem_of_cons in Hin as [-> | Hin]; [done |].
      specialize (IH Hnd Hin).
      destruct (decide (k' ∈ ids)) as [Hids | Hids].
      * rewrite !filter_cons_False; [exact IH | |]; simpl.
        -- intros Hn. apply Hn. by right.
        -- tauto.
      * rewrite !filter_cons_True; [| simpl | simpl; done].
        -- simpl. rewrite IH. apply Permutation_swap.
        -- apply not_elem_of_cons. split; [done | done].
Qed.

Lemma assign_positions_ranks (ids : list Z) (p : Z) (cs : list (Z * CarState.t))
    (positions : gmap Z Z) :
  NoDup ids -> NoDup (Dict.keys cs) -> (forall k, k ∈ ids -> k ∈ Dict.keys cs) ->
  (fun kv : Z * CarState.t => CarState.position kv.2)
    <$> (assign_positions p ids (cs, positions)).1
  ≡ₚ seqZ p (Z.of_nat (length ids))
     ++ ((fun kv : Z * CarState.t => CarState.position kv.2)
           <$> filter (fun kv : Z * CarState.t => kv.1 ∉ ids) cs).
Proof.
  revert p cs positions.
  induction ids as [| k ids IH]; intros p cs positions Hids Hcs Hsub; simpl.
  - rewrite filter_all; [done |]. intros x _. apply not_elem_of_nil.
  - apply NoDup_cons in Hids as [Hk Hids].
    rewrite IH; [| done | by rewrite keys_alter |].
    + rewrite ranks_alter; [| done | apply Hsub; left | done].
      rewrite (seqZ_cons p) by lia.
      replace (Z.pred (Z.of_nat (S (length ids)))) with (Z.of_nat (length ids)) by lia.
      replace (Z.succ p) with (p + 1) by lia.
      simpl. symmetry. apply Permutation_middle.
    + intros k' Hk'. rewrite keys_alter. apply Hsub. by right.
Qed.

(** What [_update_positions] does: the ranks of all the cars, retired
    ones included, are 1 to N, each once. *)
Lemma update_positions_ranks (s s' : t) :
  NoDup (Dict.keys (car_states s)) ->
  _update_positions s = Ok s' ->
  (fun kv : Z * CarState.t => CarState.position kv.2) <$> car_states s'
  ≡ₚ seqZ 1 (Z.of_nat (length (car_states s))).
Proof.
  intros Hnd. unfold _update_positions.
  set (sorted_cars := sorted_by_progress (car_states s)).
  assert (sorted_cars ≡ₚ car_states s) as Hsorted by apply sorted_perm.
  assert (Dict.keys sorted_cars ≡ₚ Dict.keys (car_states s)) as Hperm
    by (unfold Dict.keys; by rewrite Hsorted).
  pose proof (assign_positions_ranks (Dict.keys sorted_cars) 1 (car_states s)
                (RaceState.positions (race_state s))) as Hranks.
  destruct (assign_positions _ _ _) as [cs positions]. simpl in Hranks.
  unfold _calculate_gaps.
  destruct (Dict.get _ _) as [leader |]; simpl; [| discriminate].
  intros [= <-].
  assert (forall s0 : t,
            (fun kv : Z * CarState.t => CarState.position kv.2)
              <$> ((fun kv : Z * CarState.t => (kv.1, calculate_gap s0 leader kv.1 kv.2))
                     <$> cs)
            = (fun kv : Z * CarState.t => CarState.position kv.2) <$> cs) as Hgaps.
  { intros s0. rewrite <- list_fmap_compose. apply list_fmap_ext.
    intros i [k c] _. simpl. unfold calculate_gap. by destruct (negb _). }
  assert ((fun kv : Z * CarState.t => CarState.position kv.2) <$> cs
          ≡ₚ seqZ 1 (Z.of_nat (length (car_states s)))) as Hcs.
  { rewrite Hranks; [| by rewrite Hperm | done | intros k; by rewrite Hperm].
    rewrite filter_none.
    - rewrite app_nil_r. unfold Dict.keys. rewrite length_fmap.
      by rewrite (Permutation_length Hsorted).
    - intros [k c] Hin Hk. simpl in Hk. apply Hk. rewrite Hperm.
      by eapply key_elem_of. }
  destruct sorted_cars as [| [a b] l]; simpl; rewrite Hgaps; exact Hcs.
Qed.

End Ranks.

(** ** Termination of the race loop *)

Section Termination.

Import RaceSimulator RaceRuns.
Context `{NumpyRandom}.

(** The two loop flags after one iteration. *)
Lemma loop_body_flags (s s' : t) (lf lf' fin : bool) (g g' : rng) :
  loop_body s lf g = Ok (s', fin, lf', g') ->
  (fin, lf')
  = if Py.leb (race_duration_minutes s * 60.0)%Q
         (RaceState.race_time (race_state s) + time_step s)%Q
    then if lf then (true, lf) else (false, true)
    else (false, lf).
Proof.
  unfold loop_body. simpl.
  destruct (if Py.leb _ _ then _ else _) as [fin0 lf0].
  destruct (_update_race_events _ g) as [[s1 g1] |]; simpl; [| discriminate].
  destruct (_update_cars s1) as [s2 |]; simpl; [| discriminate].
  destruct (_update_positions s2) as [s3 |]; simpl; [| discriminate].
  destruct (_check_overtaking s3 g1) as [[s4 g4] |]; simpl; [| discriminate].
  by intros [= _ <- <- _].
Qed.

(** With a positive time step the loop does not outlast its fuel once
    the fuel covers the remaining race time: it finishes or raises. *)
Lemma race_loop_fuel (fuel : nat) (s : t) (lf : bool) (g : rng) :
  (0 < time_step s)%Q ->
  (race_duration_minutes s * 60.0 - RaceState.race_time (race_state s)
   <= inject_Z (Z.of_nat fuel - (if lf then 0 else 1)) * time_step s)%Q ->
  (if lf then 1 else 2) <= Z.of_nat fuel ->
  race_loop fuel s lf g <> Ok None.
Proof.
  revert s lf g. induction fuel as [| fuel IH]; intros s lf g Hdt Hcover Hmin.
  - destruct lf; simpl in Hmin; lia.
  - simpl. destruct (loop_body s lf g) as [[[[s1 fin] lf1] g1] |] eqn:Hbody; simpl;
      [| discriminate].
    pose proof (loop_body_flags _ _ _ _ _ _ _ Hbody) as Hflags.
    apply loop_body_step in Hbody as (_ & _ & Hdt1 & Hdur1 & Hrt1).
    destruct fin; [discriminate |].
    set (c := if lf then 0 else 1) in *.
    set (a := inject_Z (Z.of_nat fuel - c)).
    assert (inject_Z (Z.of_nat (S fuel) - c) == a + 1)%Q as Ha.
    { unfold a. change 1%Q with (inject_Z 1). rewrite <- inject_Z_plus.
      f_equiv. lia. }
    rewrite Ha in Hcover.
    apply IH; rewrite ?Hdt1, ?Hdur1, ?Hrt1; [exact Hdt | |].
    + case_leb (race_duration_minutes s * 60.0)%Q
        (RaceState.race_time (race_state s) + time_step s)%Q.
      * destruct lf; [discriminate Hflags | injection Hflags as ->].
        assert (0 <= inject_Z (Z.of_nat fuel - 0))%Q as Hnn.
        { change 0%Q with (inject_Z 0). rewrite <- Zle_Qle. lia. }
        nra.
      * injection Hflags as ->. fold c a. nra.
    + case_leb (race_duration_minutes s * 60.0)%Q
        (RaceState.race_time (race_state s) + time_step s)%Q.
      * destruct lf; [discriminate Hflags | injection Hflags as ->].
        unfold c in Hmin. lia.
      * injection Hflags as ->. fold c.
        assert (0 < a)%Q as Hpos by nra.
        unfold a in Hpos. change 0%Q with (inject_Z 0) in Hpos.
        rewrite <- Zlt_Qlt in Hpos. unfold c in *. destruct lf; lia.
Qed.

Lemma race_loop_finishes (s : t) (lf : bool) (g : rng) :
  (0 < time_step s)%Q ->
  exists fuel0 : nat, forall fuel : nat,
    (fuel0 <= fuel)%nat -> race_loop fuel s lf g <> Ok None.
Proof.
  intros Hdt.
  set (q := ((race_duration_minutes s * 60.0 - RaceState.race_time (race_state s))
             / time_step s)%Q).
  exists (Z.to_nat (Qceiling q) + 2)%nat. intros fuel Hfuel.
  apply race_loop_fuel; [exact Hdt | | destruct lf; lia].
  assert (q * time_step s
          == race_duration_minutes s * 60.0 - RaceState.race_time (race_state s))%Q
    as <-.
  { unfold q. field. apply Qnot_eq_sym, Qlt_not_eq, Hdt. }
  apply Qmult_le_compat_r; [| apply Qlt_le_weak, Hdt].
  eapply Qle_trans; [apply Qle_ceiling |].
  rewrite <- Zle_Qle. destruct lf; lia.
Qed.

Lemma initialize_cars_clock (base : CarElectric) (s : t) (g : rng) :
  time_step (_initialize_cars base s g).1 = time_step s
  /\ race_duration_minutes (_initialize_cars base s g).1 = race_duration_minutes s
  /\ race_state (_initialize_cars base s g).1 = race_state s.
Proof.
  unfold _initialize_cars. generalize (Py.range (num_cars s)). intros ids.
  revert s g. induction ids as [| k ids IH]; intros s g; simpl; [tauto |].
  destruct (uniform 0.98 1.02 g) as [skill g1].
  destruct (uniform 0.97 1.03 g1) as [eff g2].
  match goal with
  | |- context [foldl _ (?s1, g2) ids] => destruct (IH s1 g2) as (H1 & H2 & H3)
  end.
  rewrite H1, H2, H3. repeat split.
Qed.

(** A race with a positive time step finishes or raises: enough fuel
    never runs out. *)
Theorem run_race_finishes (base : CarElectric) (s : t) (g : rng) :
  (0 < time_step s)%Q ->
  exists fuel0 : nat, forall fuel : nat,
    (fuel0 <= fuel)%nat -> run_race fuel base s g <> Ok None.
Proof.
  intros Hdt. unfold run_race.
  destruct (initialize_cars_clock base s g) as (H1 & _).
  destruct (_initialize_cars base s g) as [s1 g1]. simpl in H1.
  destruct (race_loop_finishes s1 false g1) as [fuel0 Hfuel]; [by rewrite H1 |].
  exists fuel0. intros fuel Hle. specialize (Hfuel fuel Hle).
  destruct (_calculate_reference_lap_time s1); simpl; [| discriminate].
  destruct (race_loop fuel s1 false g1) as [[[s2 g2] |] |]; simpl;
    [discriminate | contradiction | discriminate].
Qed.

End Termination.

(** ** Determinism *)

Section Determinism.

Import RaceSimulator RaceRuns.
Context `{NumpyRandom}.



End Determinism.

Section DeterminismExamples.

Import RaceSimulator.



(** Without a seed the constructor leaves the generator as it finds it,
    and the standings of the race depend on that state. *)
Example unseeded_runs_differ :
  ShortRace.standings (ShortRace.run None 7) = Some [(2, 1); (1, 2); (0, 3)]
  /\ ShortRace.standings (ShortRace.run None 8) = Some [(2, 1); (0, 2); (1, 3)].
Proof. split; vm_compute; reflexivity. Qed.

End DeterminismExamples.

(** ** Runs of an Attack Mode controller *)

Section AttackModeRuns.

Import AttackMode ModeRuns.
Context `{NumpyRandom}.

(** What a successful [activate] does to the controller. *)
Lemma activate_true (am am' : AttackMode.t) (lap : Z) (t0 p : Q) :
  activate am lap t0 p = Ok (true, am') ->
  state am = AVAILABLE
  /\ state am' = ACTIVE
  /\ activations_remaining am' = activations_remaining am - 1
  /\ current_activation_start_time am' = Some t0
  /\ current_activation_lap am' = Some lap
  /\ activation_history am'
     = activation_history am
       ++ [ {| act_car_id := car_id am; activation_lap := lap; activation_time := t0;
               duration := activation_duration am; time_loss := activation_time_loss am;
               power_boost := (attack_mode_power_kw am - base_power_kw am)%Q |} ]
  /\ car_id am' = car_id am
  /\ activation_zone_start am' = activation_zone_start am
  /\ activation_zone_end am' = activation_zone_end am
  /\ base_power_kw am' = base_power_kw am
  /\ attack_mode_power_kw am' = attack_mode_power_kw am
  /\ max_activations am' = max_activations am
  /\ activation_duration am' = activation_duration am
  /\ activation_time_loss am' = activation_time_loss am.
Proof.
  unfold activate, can_activate.
  destruct (state am) eqn:Hst; simpl; try discriminate.
  destruct (Py.mod_ _ _) as [r |]; simpl; [| discriminate].
  destruct (negb _); simpl; [discriminate |].
  intros [= <-]. simpl. repeat split; reflexivity.
Qed.

(** A refused [activate] leaves the controller as it is. *)
Lemma activate_false (am am' : AttackMode.t) (lap : Z) (t0 p : Q) :
  activate am lap t0 p = Ok (false, am') -> am' = am.
Proof.
  unfold activate.
  destruct (can_activate am lap t0 p) as [[[] reason] |]; simpl;
    [discriminate | | discriminate].
  by intros [= <-].
Qed.

Lemma mode_inv_init (car : Z) (zs ze base : Q) (random_seed : option Z) (g : rng) :
  inv (init car zs ze base random_seed g).1.
Proof.
  unfold init, inv.
  pose proof (uniform_range 0.5 1.0
                (reseed ((fun s => s + car) <$> random_seed) g)
                ltac:(vm_compute; discriminate)) as Hloss.
  destruct (uniform 0.5 1.0 _) as [loss g']. simpl in *.
  repeat split; try reflexivity; try lia; try apply Hloss. constructor.
Qed.

Lemma mode_inv_activate (am am' : AttackMode.t) (lap : Z) (t0 p : Q) (ok : bool) :
  inv am -> activate am lap t0 p = Ok (ok, am') -> inv am'.
Proof.
  intros Hinv Hact. destruct ok; [| by rewrite (activate_false _ _ _ _ _ Hact)].
  apply activate_true in Hact.
  destruct Hact as (Hst & Hst' & Hrem & Hstart & _ & Hhist & Hid & _ & _ & Hbase
                    & Hpow & Hmax & Hdur & Hloss).
  destruct Hinv as (Imax & Ipow & Idur & Iloss & Isum & Irem & Ist & Ihist).
  rewrite Hst in Ist. destruct Ist as [Ipos _].
  unfold inv. rewrite Hmax, Hpow, Hdur, Hloss, Hrem, Hhist, Hst', Hstart, Hid, Hbase.
  repeat split; try assumption; try apply Iloss.
  - rewrite length_app. simpl. lia.
  - lia.
  - exists t0. split; [reflexivity |]. by rewrite last_snoc.
  - apply Forall_app. split; [exact Ihist |].
    constructor; [| constructor]. simpl. rewrite Idur, Ipow. repeat split; reflexivity.
Qed.

Lemma mode_inv_update (am : AttackMode.t) (t1 : Q) : inv am -> inv (update am t1).2.
Proof.
  intros Hinv. unfold update.
  destruct (decide (state am = ACTIVE)) as [Hst |]; [| exact Hinv].
  destruct (current_activation_start_time am) as [start |]; [| exact Hinv].
  destruct (Py.leb _ _); [| exact Hinv]. simpl.
  destruct Hinv as (Imax & Ipow & Idur & Iloss & Isum & Irem & Ist & Ihist).
  unfold inv, expire; simpl.
  repeat split; try assumption; try apply Iloss.
  destruct (0 <? activations_remaining am) eqn:Hpos; simpl.
  - apply Z.ltb_lt in Hpos. split; [exact Hpos | reflexivity].
  - apply Z.ltb_ge in Hpos. split; [lia | reflexivity].
Qed.

Lemma mode_reachable_inv (am : AttackMode.t) : reachable am -> inv am.
Proof.
  induction 1 as [car zs ze base random_seed g | am lap t0 p ok am' _ IH Hact
                  | am t1 _ IH].
  - apply mode_inv_init.
  - eapply mode_inv_activate; eassumption.
  - apply mode_inv_update, IH.
Qed.

(** X1: on every controller that calls of [activate] and [update] can
    produce from a constructed one, the activations remaining and the
    activations recorded add up to the two of a race; the remaining
    count is never negative, the history never holds more than two
    records, and the state is USED exactly when nothing remains and no
    boost is running. *)
Theorem activation_budget (am : AttackMode.t) :
  reachable am ->
  get_activations_remaining am
  + Z.of_nat (length (get_activation_history am)) = 2
  /\ 0 <= get_activations_remaining am <= 2
  /\ (length (get_activation_history am) <= 2)%nat
  /\ (state am = USED <-> get_activations_remaining am = 0 /\ is_active am = false).
Proof.
  intros Hr. apply mode_reachable_inv in Hr.
  destruct Hr as (_ & _ & _ & _ & Isum & Irem & Ist & _).
  unfold get_activations_remaining, get_activation_history, is_active.
  split; [exact Isum |]. split; [lia |]. split; [lia |]. split.
  - intros Hst. rewrite Hst in Ist |- *. split; [apply Ist | reflexivity].
  - intros [Hzero Hact]. apply bool_decide_eq_false in Hact.
    destruct (state am); try reflexivity; try contradiction.
    destruct Ist as [Hpos _]. lia.
Qed.

(** X2: the state ACTIVATING is never observed between two calls: on
    every reachable controller [is_activating] is false and
    [get_time_loss] returns 0, although the time loss drawn by the
    constructor lies between 0.5 s and 1.0 s and every activation
    record holds this very time loss. *)
Theorem time_loss_never_reported (am : AttackMode.t) :
  reachable am ->
  is_activating am = false
  /\ get_time_loss am = 0.0%Q
  /\ (0.5 <= activation_time_loss am <= 1.0)%Q
  /\ Forall (fun a =>
               time_loss a = activation_time_loss am
               /\ (0.5 <= time_loss a <= 1.0)%Q)
       (get_activation_history am).
Proof.
  intros Hr. apply mode_reachable_inv in Hr.
  destruct Hr as (_ & _ & _ & Iloss & _ & _ & Ist & Ihist).
  assert (state am <> ACTIVATING) as Hne
    by (intros Hst; rewrite Hst in Ist; exact Ist).
  unfold is_activating, get_time_loss.
  split; [by apply bool_decide_eq_false |].
  split; [by destruct (decide _) |].
  split; [exact Iloss |].
  unfold get_activation_history.
  eapply Forall_impl; [exact Ihist |].
  intros a (_ & _ & Ha & _). split; [exact Ha | rewrite Ha; exact Iloss].
Qed.

(** X3: every activation record of a reachable controller carries the
    car id of the controller, the duration of 240 s and the boost of
    250 kW less the base power; while the boost is running, the start
    time the controller holds is the time of the last record. *)
Theorem activation_records (am : AttackMode.t) :
  reachable am ->
  Forall (fun a =>
            act_car_id a = car_id am
            /\ duration a = 240.0%Q
            /\ power_boost a = (250.0 - base_power_kw am)%Q)
         (get_activation_history am)
  /\ (is_active am = true ->
      exists a start,
        last (get_activation_history am) = Some a
        /\ current_activation_start_time am = Some start
        /\ activation_time a = start).
Proof.
  intros Hr. apply mode_reachable_inv in Hr.
  destruct Hr as (_ & _ & _ & _ & _ & _ & Ist & Ihist).
  unfold get_activation_history, is_active. split.
  - eapply Forall_impl; [exact Ihist |]. intros a (? & ? & _ & ?). auto.
  - intros Hact. apply bool_decide_eq_true in Hact. rewrite Hact in Ist.
    destruct Ist as (start & Hstart & Hlast).
    destruct (last (activation_history am)) as [a |]; [| discriminate].
    exists a, start. injection Hlast as Hlast. auto.
Qed.

(** An available controller accepts a request that passes the zone test. *)
Lemma can_activate_in_zone (am : AttackMode.t) (lap : Z) (t0 p : Q) :
  state am = AVAILABLE -> in_zone am p ->
  can_activate am lap t0 p = Ok (true, "Can activate"%string).
Proof.
  intros Hst (r & Hmod & Hlo & Hhi). unfold can_activate. rewrite Hst; simpl.
  rewrite Hmod. simpl.
  apply leb_le in Hlo, Hhi. by rewrite Hlo, Hhi.
Qed.

(** An accepted request. *)
Lemma activate_in_zone (am : AttackMode.t) (lap : Z) (t0 p : Q) :
  state am = AVAILABLE -> in_zone am p ->
  exists am', activate am lap t0 p = Ok (true, am').
Proof.
  intros Hst Hzone.
  pose proof (can_activate_in_zone am lap t0 p Hst Hzone) as Hcan.
  unfold activate. rewrite Hcan. simpl. by eexists.
Qed.

(** A request is only granted where the zone test passes. *)
Lemma activate_true_in_zone (am am' : AttackMode.t) (lap : Z) (t0 p : Q) :
  activate am lap t0 p = Ok (true, am') -> in_zone am p.
Proof.
  unfold activate, can_activate, in_zone.
  destruct (state am); simpl; try discriminate.
  destruct (Py.mod_ _ _) as [r |]; simpl; [| discriminate].
  case_leb (activation_zone_start am) r; simpl; [| discriminate].
  case_leb r (activation_zone_end am); simpl; [| discriminate].
  intros _. by exists r.
Qed.

(** A position inside the zone and below the period passes the zone
    test. *)
Lemma in_zone_below_period (am : AttackMode.t) (p : Q) :
  (0 <= p)%Q ->
  (p < activation_zone_end am - activation_zone_start am + 1000.0)%Q ->
  (activation_zone_start am <= p)%Q -> (p <= activation_zone_end am)%Q ->
  in_zone am p.
Proof.
  intros H0 Hlt Hlo Hhi.
  destruct (mod_small p _ H0 Hlt) as (r & Hmod & Hr).
  exists r. split; [exact Hmod |]. rewrite Hr. by split.
Qed.

(** No position passes the zone test of a zone that starts beyond the
    period. *)
Lemma can_activate_far_zone (am : AttackMode.t) (lap : Z) (t0 p : Q) :
  state am = AVAILABLE ->
  (0 < activation_zone_end am - activation_zone_start am + 1000.0)%Q ->
  (activation_zone_end am - activation_zone_start am + 1000.0
   < activation_zone_start am)%Q ->
  can_activate am lap t0 p = Ok (false, "Not in activation zone"%string).
Proof.
  intros Hst Hpos Hfar. unfold can_activate. rewrite Hst; simpl.
  destruct (mod_range p _ Hpos) as (r & -> & _ & Hr). simpl.
  assert (Py.leb (activation_zone_start am) r = false) as ->
    by (apply leb_gt; lra).
  reflexivity.
Qed.

(** X4: an available controller grants a request exactly where the zone
    test passes, that is, where the remainder of the track position
    modulo the period [zone_length + 1000] lies in the zone.  A granted
    request makes the controller active: it delivers the attack power,
    a boost of attack power less base power, one activation less
    remains and one record more is kept.  A position that is not
    negative, inside the zone and below the period passes the test;
    when the period is positive and the zone starts beyond it, no
    position does, and every request is refused. *)
Theorem activate_inside_zone (am : AttackMode.t) (lap : Z) (t0 p : Q) :
  state am = AVAILABLE ->
  ((exists am', activate am lap t0 p = Ok (true, am')) <-> in_zone am p)
  /\ (forall am',
        activate am lap t0 p = Ok (true, am') ->
        is_active am' = true
        /\ get_power_kw am' = attack_mode_power_kw am
        /\ get_power_boost am' = (attack_mode_power_kw am - base_power_kw am)%Q
        /\ get_activations_remaining am' = get_activations_remaining am - 1
        /\ length (get_activation_history am')
           = S (length (get_activation_history am)))
  /\ ((0 <= p)%Q ->
      (p < activation_zone_end am - activation_zone_start am + 1000.0)%Q ->
      (activation_zone_start am <= p)%Q -> (p <= activation_zone_end am)%Q ->
      in_zone am p)
  /\ ((0 < activation_zone_end am - activation_zone_start am + 1000.0)%Q ->
      (activation_zone_end am - activation_zone_start am + 1000.0
       < activation_zone_start am)%Q ->
      activate am lap t0 p = Ok (false, am)).
Proof.
  intros Hst. split; [| split; [| split]].
  - split.
    + intros (am' & Hact). eapply activate_true_in_zone, Hact.
    + apply activate_in_zone, Hst.
  - intros am' Hact. apply activate_true in Hact.
    destruct Hact as (_ & Hst' & Hrem & _ & _ & Hhist & _ & _ & _ & Hbase & Hpow & _).
    unfold is_active, get_power_kw, get_power_boost, is_active,
      get_activations_remaining, get_activation_history.
    rewrite Hst', Hrem, Hhist, Hbase, Hpow, length_app. simpl.
    repeat split; try reflexivity. lia.
  - apply in_zone_below_period.
  - intros Hpos Hfar. unfold activate.
    by rewrite (can_activate_far_zone am lap t0 p Hst Hpos Hfar).
Qed.

(** X5: [can_activate] and [activate] raise in one case only: the
    controller is AVAILABLE and the period [zone_length + 1000] of the
    zone test is zero, and the exception is then ZeroDivisionError. *)
Theorem can_activate_raises (am : AttackMode.t) (lap : Z) (t0 p : Q) (e : exn) :
  (can_activate am lap t0 p = Raise e
   <-> state am = AVAILABLE
       /\ (activation_zone_end am - activation_zone_start am + 1000.0 == 0)%Q
       /\ e = ZeroDivisionError)
  /\ (activate am lap t0 p = Raise e <-> can_activate am lap t0 p = Raise e).
Proof.
  split.
  - unfold can_activate, Py.mod_.
    destruct (state am); simpl;
      try (split; [discriminate | intros (? & _); discriminate]).
    destruct (Py.eqb _ 0) eqn:Hz; simpl.
    + apply eqb_eq in Hz. split.
      * intros [= <-]. auto.
      * intros (_ & _ & ->). reflexivity.
    + apply eqb_neq in Hz. split.
      * destruct (negb _); discriminate.
      * intros (_ & Hzero & _). contradiction.
  - unfold activate.
    destruct (can_activate am lap t0 p) as [[[] reason] | e']; simpl;
      split; try discriminate; intros [= ->]; reflexivity.
Qed.

(** X6: the boost lasts for the activation duration: after a successful
    activation at [t0], an update before [t0 + duration] changes nothing
    and the car keeps the attack power; an update at or after
    [t0 + duration] reports the change, returns the car to its base
    power and leaves count and history as they are. *)
Theorem boost_lasts_for_duration (am am1 : AttackMode.t) (lap : Z) (t0 p t1 : Q) :
  activate am lap t0 p = Ok (true, am1) ->
  ((t1 - t0 < activation_duration am)%Q ->
   update am1 t1 = (false, am1)
   /\ get_power_kw (update am1 t1).2 = attack_mode_power_kw am)
  /\ ((activation_duration am <= t1 - t0)%Q ->
      (update am1 t1).1 = true
      /\ is_active (update am1 t1).2 = false
      /\ get_power_kw (update am1 t1).2 = base_power_kw am
      /\ get_power_boost (update am1 t1).2 = 0.0%Q
      /\ state (update am1 t1).2
         = (if 0 <? activations_remaining am1 then AVAILABLE else USED)
      /\ get_activations_remaining (update am1 t1).2 = get_activations_remaining am1
      /\ get_activation_history (update am1 t1).2 = get_activation_history am1).
Proof.
  intros Hact. apply activate_true in Hact.
  destruct Hact as (_ & Hst' & _ & Hstart & _ & _ & _ & _ & _ & Hbase & Hpow & _
                    & Hdur & _).
  unfold update. rewrite Hst', Hstart, Hdur. simpl. split.
  - intros Hlt. apply leb_gt in Hlt. rewrite Hlt. split; [reflexivity |].
    unfold get_power_kw, is_active. simpl. rewrite Hst'. simpl. exact Hpow.
  - intros Hle. apply leb_le in Hle. rewrite Hle.
    unfold get_power_kw, get_power_boost, is_active, get_activations_remaining,
      get_activation_history. simpl.
    destruct (0 <? activations_remaining am1); simpl; repeat split; exact Hbase.
Qed.

(** X7: on a constructed controller, two requests made at positions
    that pass the zone test (the remainder of the position modulo the
    period [zone_length + 1000] lies in the zone), each followed by an
    update 240 s or more after it, are both granted, and no third one
    is: the controller is then USED, and from then on [can_activate]
    answers that all activations are used and [activate] returns false
    and changes nothing, wherever the car is. *)
Theorem two_activations_then_used (car : Z) (zs ze base : Q) (random_seed : option Z)
    (g : rng) (lap1 lap2 : Z) (t1 t2 t3 t4 p1 p2 : Q) :
  in_zone (init car zs ze base random_seed g).1 p1 ->
  in_zone (init car zs ze base random_seed g).1 p2 ->
  (240.0 <= t2 - t1)%Q -> (240.0 <= t4 - t3)%Q ->
  exists am1 am3,
    activate (init car zs ze base random_seed g).1 lap1 t1 p1 = Ok (true, am1)
    /\ activate (update am1 t2).2 lap2 t3 p2 = Ok (true, am3)
    /\ state (update am3 t4).2 = USED
    /\ get_activations_remaining (update am3 t4).2 = 0
    /\ forall lap t0 p,
         can_activate (update am3 t4).2 lap t0 p
         = Ok (false, "All activations used"%string)
         /\ activate (update am3 t4).2 lap t0 p = Ok (false, (update am3 t4).2).
Proof.
  unfold init. destruct (uniform 0.5 1.0 _) as [loss g']. simpl.
  intros Hz1 Hz2 Hd1 Hd2.
  set (am0 := {| car_id := car; activation_history := [] |}) in *.
  destruct (activate_in_zone am0 lap1 t1 p1 eq_refl Hz1) as (am1 & Hact1).
  exists am1. rewrite Hact1.
  pose proof (activate_true _ _ _ _ _ Hact1) as
    (_ & Hst1 & Hrem1 & Hstart1 & _ & _ & _ & Hzs1 & Hze1 & _ & _ & _ & Hdur1 & _).
  assert (update am1 t2 = (true, expire am1)) as Hup1.
  { unfold update. rewrite Hst1, Hstart1, Hdur1. simpl.
    apply leb_le in Hd1. by rewrite Hd1. }
  rewrite Hup1. simpl.
  assert (state (expire am1) = AVAILABLE) as Hst2
    by (unfold expire; simpl; by rewrite Hrem1).
  assert (in_zone (expire am1) p2) as Hz2'
    by (unfold in_zone, expire; simpl; rewrite Hzs1, Hze1; exact Hz2).
  destruct (activate_in_zone (expire am1) lap2 t3 p2 Hst2 Hz2')
    as (am3 & Hact3).
  exists am3. rewrite Hact3.
  pose proof (activate_true _ _ _ _ _ Hact3) as
    (_ & Hst3 & Hrem3 & Hstart3 & _ & _ & _ & _ & _ & _ & _ & _ & Hdur3 & _).
  assert (update am3 t4 = (true, expire am3)) as Hup3.
  { unfold update. rewrite Hst3, Hstart3, Hdur3. simpl. rewrite Hdur1. simpl.
    apply leb_le in Hd2. by rewrite Hd2. }
  rewrite Hup3. simpl.
  assert (activations_remaining am3 = 0) as Hzero
    by (rewrite Hrem3; simpl; rewrite Hrem1; reflexivity).
  assert (state (expire am3) = USED) as Hused
    by (unfold expire; simpl; by rewrite Hzero).
  repeat split; try assumption.
  - unfold can_activate. by rewrite Hused.
  - unfold activate, can_activate. by rewrite Hused.
Qed.

End AttackModeRuns.

Section AttackModeRunsExamples.

Import AttackMode ModeRuns.

Lemma sample_mode_reachable : reachable (H := Lcg.numpy_random) Samples.active_mode.
Proof.
  eapply (mode_activate (H := Lcg.numpy_random) Samples.mode 1 0.0 550.0 true).
  - exact (mode_init (H := Lcg.numpy_random) 1 500.0 625.0 200.0 (Some 42) 0).
  - reflexivity.
Defined.

Lemma sample_in_zone : in_zone Samples.mode 550.0.
Proof. eexists. split; [reflexivity |]. split; vm_compute; discriminate. Defined.

Lemma activation_budget_witness :
  get_activations_remaining Samples.active_mode
  + Z.of_nat (length (get_activation_history Samples.active_mode)) = 2.
Proof.
  apply (activation_budget (H := Lcg.numpy_random) Samples.active_mode
           sample_mode_reachable).
Defined.

Lemma time_loss_never_reported_witness :
  get_time_loss Samples.active_mode = 0.0%Q
  /\ length (get_activation_history Samples.active_mode) = 1%nat
  /\ Forall (fun a =>
               time_loss a = activation_time_loss Samples.active_mode
               /\ (0.5 <= time_loss a <= 1.0)%Q)
       (get_activation_history Samples.active_mode).
Proof.
  destruct (time_loss_never_reported (H := Lcg.numpy_random) Samples.active_mode
              sample_mode_reachable) as (_ & Hloss & _ & Hrecords).
  split; [exact Hloss |]. split; [reflexivity | exact Hrecords].
Defined.

Lemma activation_records_witness :
  Forall (fun a =>
            act_car_id a = car_id Samples.active_mode
            /\ duration a = 240.0%Q
            /\ power_boost a = (250.0 - base_power_kw Samples.active_mode)%Q)
         (get_activation_history Samples.active_mode).
Proof.
  apply (activation_records (H := Lcg.numpy_random) Samples.active_mode
           sample_mode_reachable).
Defined.

(** The sample controller is activated at 550 m, inside its zone
    [500, 625]; the controller with the zone [1400, 1750] refuses a
    request made at 1500 m, inside its zone. *)
Lemma activate_inside_zone_witness :
  (exists am',
     activate Samples.mode 1 0.0 550.0 = Ok (true, am') /\ is_active am' = true)
  /\ activate Samples.far_mode 1 0.0 1500.0 = Ok (false, Samples.far_mode).
Proof.
  split.
  - destruct (activate_inside_zone Samples.mode 1 0.0 550.0 eq_refl)
      as (Hiff & Heffect & _).
    destruct (proj2 Hiff sample_in_zone) as (am' & Hact).
    exists am'. split; [exact Hact | apply (Heffect am' Hact)].
  - destruct (activate_inside_zone Samples.far_mode 1 0.0 1500.0 eq_refl)
      as (_ & _ & _ & Hfar).
    apply Hfar; vm_compute; reflexivity.
Defined.

Lemma boost_lasts_for_duration_witness :
  update Samples.active_mode 239.0 = (false, Samples.active_mode)
  /\ (update Samples.active_mode 240.0).1 = true.
Proof.
  pose proof (boost_lasts_for_duration Samples.mode Samples.active_mode 1 0.0 550.0)
    as Hboost.
  split.
  - apply (Hboost 239.0%Q eq_refl). vm_compute. reflexivity.
  - apply (Hboost 240.0%Q eq_refl). vm_compute. discriminate.
Defined.

Lemma two_activations_then_used_witness :
  exists am1 am3,
    activate Samples.mode 1 0.0 550.0 = Ok (true, am1)
    /\ activate (update am1 240.0).2 9 300.0 600.0 = Ok (true, am3)
    /\ state (update am3 540.0).2 = USED.
Proof.
  destruct (two_activations_then_used (H := Lcg.numpy_random) 1 500.0 625.0 200.0
              (Some 42) 0 1 9 0.0 240.0 300.0 540.0 550.0 600.0)
    as (am1 & am3 & H1 & H3 & Hused & _).
  - eexists. split; [reflexivity |]. split; vm_compute; discriminate.
  - eexists. split; [reflexivity |]. split; vm_compute; discriminate.
  - vm_compute. discriminate.
  - vm_compute. discriminate.
  - exists am1, am3. repeat split; assumption.
Defined.

End AttackModeRunsExamples.
(** ** The Attack Mode manager *)

Section AttackModeManagerFacts.

Import AttackModeManager.
Context `{NumpyRandom}.

Lemma elem_of_range (n k : Z) : k ∈ Py.range n <-> 0 <= k < n.
Proof.
  unfold Py.range. rewrite list_elem_of_In, in_map_iff. split.
  - intros (i & <- & Hi). apply in_seq in Hi. lia.
  - intros Hk. exists (Z.to_nat k). split; [lia |]. apply in_seq. lia.
Qed.

(** The controllers the constructor loop leaves under each key. *)
Lemma create_modes_lookup (ids : list Z) (zone_start zone_end : Q)
    (random_seed : option Z) (acc : gmap Z AttackMode.t * rng) (k : Z) :
  let modes :=
    (foldl (fun '(modes, g) car_id =>
              let '(am, g) :=
                AttackMode.init car_id zone_start zone_end 200.0 random_seed g in
              (<[car_id := am]> modes, g)) acc ids).1 in
  (k ∈ ids ->
   exists am,
     modes !! k = Some am
     /\ AttackMode.car_id am = k
     /\ AttackMode.activation_zone_start am = zone_start
     /\ AttackMode.activation_zone_end am = zone_end
     /\ AttackMode.base_power_kw am = 200.0%Q
     /\ AttackMode.state am = AttackMode.AVAILABLE
     /\ AttackMode.activations_remaining am = 2)
  /\ (k ∉ ids -> modes !! k = acc.1 !! k).
Proof.
  revert acc. induction ids as [| x ids IH]; intros [modes g]; simpl.
  - split; [intros Hin; by apply elem_of_nil in Hin | reflexivity].
  - unfold AttackMode.init at 2 4.
    destruct (uniform 0.5 1.0 _) as [loss g1].
    match goal with
    | |- context [foldl _ ?acc1 ids] => destruct (IH acc1) as [IHin IHout]
    end.
    simpl in IHout. split.
    + intros Hin. destruct (decide (k ∈ ids)) as [Hk | Hk]; [exact (IHin Hk) |].
      apply elem_of_cons in Hin. destruct Hin as [-> | Hin]; [| contradiction].
      rewrite (IHout Hk), lookup_insert_eq. eexists. split; [reflexivity |].
      repeat split.
    + intros Hout. apply not_elem_of_cons in Hout. destruct Hout as [Hne Hout].
      rewrite (IHout Hout). by apply lookup_insert_ne.
Qed.

(** X8: the manager's constructor creates one controller for each car
    id of [range(num_cars)] and for no other key; the controller of car
    [k] carries the id [k], the given zone or, by default, the zone from
    20 % to 25 % of the track, a base power of 200 kW, and is AVAILABLE
    with two activations, so that the manager reports 200 kW, two
    activations remaining and no active boost for it. *)
Theorem manager_constructor (n : Z) (track_length : Q) (zs ze : option Q)
    (random_seed : option Z) (g : rng) (k : Z) :
  (is_Some (attack_modes (init n track_length zs ze random_seed g).1 !! k)
   <-> 0 <= k < n)
  /\ (forall am,
        attack_modes (init n track_length zs ze random_seed g).1 !! k = Some am ->
        AttackMode.car_id am = k
        /\ AttackMode.activation_zone_start am = default (track_length * 0.20)%Q zs
        /\ AttackMode.activation_zone_end am = default (track_length * 0.25)%Q ze
        /\ AttackMode.base_power_kw am = 200.0%Q
        /\ AttackMode.state am = AttackMode.AVAILABLE
        /\ AttackMode.activations_remaining am = 2
        /\ get_power_kw (init n track_length zs ze random_seed g).1 k = 200.0%Q
        /\ get_activations_remaining (init n track_length zs ze random_seed g).1 k = 2
        /\ is_active (init n track_length zs ze random_seed g).1 k = false).
Proof.
  unfold init, create_modes, get_power_kw, get_activations_remaining, is_active.
  pose proof (create_modes_lookup (Py.range n)
                (default (track_length * 0.20)%Q zs) (default (track_length * 0.25)%Q ze)
                random_seed (∅, g) k) as [Hin Hout].
  destruct (foldl _ _ _) as [modes g1]. simpl in *.
  rewrite <- elem_of_range.
  destruct (decide (k ∈ Py.range n)) as [Hk | Hk].
  - destruct (Hin Hk) as (am & Hlook & Hid & Hzs & Hze & Hbase & Hst & Hrem).
    rewrite Hlook. split; [split; [intros _; exact Hk | intros _; by eexists] |].
    intros am' [= <-].
    unfold AttackMode.get_power_kw, AttackMode.is_active,
      AttackMode.get_activations_remaining.
    rewrite Hst. simpl. repeat split; assumption.
  - rewrite (Hout Hk), lookup_empty.
    split; [split; [intros [? ?]; discriminate | contradiction] | discriminate].
Qed.

(** X9: the manager's operations act car by car.  [activate] for car
    [k] leaves every other controller and the set of keys as they are;
    a refused request leaves the whole manager as it is, a granted one
    makes the car's boost active and takes one activation from it.
    [update_all] applies the controller's [update] under every key. *)
Theorem manager_acts_per_car (mgr mgr' : AttackModeManager.t) (k lap : Z) (t0 p : Q)
    (ok : bool) :
  activate mgr k lap t0 p = Ok (ok, mgr') ->
  (forall k', k' <> k -> attack_modes mgr' !! k' = attack_modes mgr !! k')
  /\ (forall k', is_Some (attack_modes mgr' !! k') <-> is_Some (attack_modes mgr !! k'))
  /\ (ok = false -> mgr' = mgr)
  /\ (ok = true ->
      is_active mgr' k = true
      /\ get_activations_remaining mgr' k = get_activations_remaining mgr k - 1)
  /\ (forall t1 k',
        attack_modes (update_all mgr' t1) !! k'
        = (fun am => (AttackMode.update am t1).2) <$> attack_modes mgr' !! k').
Proof.
  intros Hact.
  assert (forall t1 k',
            attack_modes (update_all mgr' t1) !! k'
            = (fun am => (AttackMode.update am t1).2) <$> attack_modes mgr' !! k')
    as Hupd by (intros t1 k'; unfold update_all; simpl; apply lookup_fmap).
  unfold activate in Hact.
  destruct (attack_modes mgr !! k) as [am |] eqn:Hk.
  - destruct (AttackMode.activate am lap t0 p) as [[b am'] |] eqn:Ham;
      simpl in Hact; [| discriminate].
    injection Hact as <- <-. simpl.
    split; [intros k' Hne; by apply lookup_insert_ne |].
    split.
    { intros k'. destruct (decide (k' = k)) as [-> | Hne].
      - rewrite lookup_insert_eq, Hk. split; intros _; by eexists.
      - by rewrite lookup_insert_ne. }
    split.
    { intros ->. apply activate_false in Ham. subst am'.
      rewrite insert_id by exact Hk. by destruct mgr. }
    split; [| exact Hupd].
    intros ->. apply activate_true in Ham.
    destruct Ham as (_ & Hst & Hrem & _).
    unfold is_active, get_activations_remaining,
      AttackMode.get_activations_remaining; simpl.
    rewrite lookup_insert_eq, Hk. unfold AttackMode.is_active. rewrite Hst.
    split; [reflexivity | exact Hrem].
  - injection Hact as <- <-.
    split; [reflexivity |]. split; [reflexivity |]. split; [reflexivity |].
    split; [discriminate | exact Hupd].
Qed.

End AttackModeManagerFacts.

Section AttackModeManagerExamples.

Import AttackModeManager.

Lemma manager_acts_per_car_witness :
  exists mgr',
    activate Samples.manager 0 1 0.0 550.0 = Ok (true, mgr')
    /\ attack_modes mgr' !! 1 = attack_modes Samples.manager !! 1
    /\ is_active mgr' 0 = true.
Proof.
  destruct (activate Samples.manager 0 1 0.0 550.0) as [[ok mgr'] |] eqn:Hact;
    [| discriminate (f_equal is_ok Hact)].
  assert (ok = true) as -> by (revert Hact; vm_compute; congruence).
  pose proof (manager_acts_per_car Samples.manager mgr' 0 1 0.0 550.0 true Hact)
    as (Hother & _ & _ & Hgranted & _).
  exists mgr'. split; [reflexivity |].
  split; [apply Hother; discriminate | apply Hgranted; reflexivity].
Defined.

End AttackModeManagerExamples.

(** ** Runs of the overtaking model *)

Section OvertakingRunsFacts.

Import OvertakingModel OvertakingRuns.
Context `{NumpyRandom}.

Lemma one_not_zero : ~ (1.0 == 0)%Q.
Proof. intros Hz. vm_compute in Hz. discriminate Hz. Qed.

(** X10: on a constructed model [calculate_slipstream_effect] never
    raises.  Up to a gap of one second the drag returned is the base
    drag times [0.95 + 0.05 * gap]: 95 % of it at gap zero, between
    95 % and 100 % for gaps in [0, 1], and, as no lower bound is tested,
    less than 95 % for a negative gap; beyond one second the base drag
    is returned as it is. *)
Theorem slipstream_effect_bounds (track_length : Q) (random_seed : option Z) (g : rng)
    (gap_seconds base_drag : Q) :
  exists drag,
    calculate_slipstream_effect (init track_length random_seed g).1 gap_seconds base_drag
    = Ok drag
    /\ ((1 < gap_seconds)%Q -> drag = base_drag)
    /\ ((gap_seconds <= 1)%Q -> (drag == base_drag * (0.95 + 0.05 * gap_seconds))%Q)
    /\ ((0 <= base_drag)%Q -> (0 <= gap_seconds)%Q -> (gap_seconds <= 1)%Q ->
        (0.95 * base_drag <= drag)%Q /\ (drag <= base_drag)%Q)
    /\ ((0 < base_drag)%Q -> (gap_seconds < 0)%Q -> (drag < 0.95 * base_drag)%Q).
Proof.
  assert (slipstream_distance (init track_length random_seed g).1 = 1.0%Q) as Hdist
    by reflexivity.
  assert (slipstream_drag_reduction (init track_length random_seed g).1 = 0.05%Q)
    as Hred by reflexivity.
  unfold calculate_slipstream_effect. rewrite Hdist, Hred.
  case_leb gap_seconds 1.0%Q.
  - rewrite (div_ok _ _ one_not_zero). simpl. eexists. split; [reflexivity |].
    assert (base_drag * (1.0 - 0.05 * (1.0 - gap_seconds / 1.0))
            == base_drag * (0.95 + 0.05 * gap_seconds))%Q as Heq by (field).
    split; [intros Hgt; lra |].
    split; [intros _; exact Heq |].
    split; [intros Hb Hg0 Hg1; rewrite Heq; split; nra |].
    intros Hb Hg. rewrite Heq. nra.
  - exists base_drag. split; [reflexivity |].
    split; [reflexivity |].
    split; [intros Hle; lra |].
    split; [intros _ _ Hle; lra | intros _ Hlt; lra].
Qed.

Lemma constructed_probability (track_length : Q) (random_seed : option Z) (g : rng)
    (d : Q) (a b : bool) :
  get_overtaking_success_probability (init track_length random_seed g).1 d a b
  = steps (adjusted_diff (init track_length random_seed g).1 d a b).
Proof.
  unfold get_overtaking_success_probability, steps. simpl.
  set (x := adjusted_diff _ d a b).
  case_ltb x 5.0%Q; [reflexivity |].
  assert (Py.leb 5.0 x = true) as -> by (by apply leb_le). simpl.
  case_ltb x 10.0%Q; [reflexivity |].
  assert (Py.leb 10.0 x = true) as -> by (by apply leb_le). simpl.
  case_ltb x 15.0%Q; [reflexivity |].
  assert (Py.leb 15.0 x = true) as -> by (by apply leb_le). reflexivity.
Qed.

Lemma steps_monotone (x y : Q) : (x <= y)%Q -> (steps x <= steps y)%Q.
Proof.
  intros Hle. unfold steps.
  case_ltb x 5.0%Q; case_ltb x 10.0%Q; case_ltb x 15.0%Q;
    case_ltb y 5.0%Q; case_ltb y 10.0%Q; case_ltb y 15.0%Q;
    try lra; vm_compute; discriminate.
Qed.

Lemma steps_range (x : Q) : (0 <= steps x)%Q /\ (steps x <= 0.80)%Q.
Proof.
  unfold steps.
  case_ltb x 5.0%Q; [| case_ltb x 10.0%Q; [| case_ltb x 15.0%Q]];
    split; vm_compute; discriminate.
Qed.

(** X11: on a constructed model, for every finite differential, the
    success probability never falls when the differential rises, lies
    between 0 and 0.80 (the last row of the table takes every finite
    differential from 15 km/h on), is not lowered by the attacker's
    boost and not raised by the defender's. *)
Theorem success_probability_monotone (track_length : Q) (random_seed : option Z)
    (g : rng) (d1 d2 : Q) (a b : bool) :
  ((d1 <= d2)%Q ->
   (get_overtaking_success_probability (init track_length random_seed g).1 d1 a b
    <= get_overtaking_success_probability (init track_length random_seed g).1 d2 a b)%Q)
  /\ (0 <= get_overtaking_success_probability (init track_length random_seed g).1 d1 a b)%Q
  /\ (get_overtaking_success_probability (init track_length random_seed g).1 d1 a b
      <= 0.80)%Q
  /\ (get_overtaking_success_probability (init track_length random_seed g).1 d1 false b
      <= get_overtaking_success_probability (init track_length random_seed g).1 d1 true b)%Q
  /\ (get_overtaking_success_probability (init track_length random_seed g).1 d1 a true
      <= get_overtaking_success_probability (init track_length random_seed g).1 d1 a false)%Q.
Proof.
  rewrite !constructed_probability.
  split; [| split; [apply steps_range | split; [apply steps_range | split]]].
  - intros Hle. apply steps_monotone.
    unfold adjusted_diff; simpl. destruct a, b; lra.
  - apply steps_monotone. unfold adjusted_diff; simpl. destruct b; lra.
  - apply steps_monotone. unfold adjusted_diff; simpl. destruct a; lra.
Qed.

(** X12: [attempt_overtake] raises in one case only: the raw
    differential reaches the threshold, the draw makes the attempt
    succeed, and the time-gain computation divides by zero, because the
    defender stands still or the attacker's speed plus half the
    differential is zero.  The exception is ZeroDivisionError. *)
Theorem attempt_overtake_raises (self : OvertakingModel.t) (attacker defender : Z)
    (attacker_speed defender_speed gap_seconds track_position : Q)
    (attacker_am defender_am : bool) (ts : Q) (g : rng) (e : exn) :
  attempt_overtake self attacker defender attacker_speed defender_speed gap_seconds
    track_position attacker_am defender_am ts g = Raise e
  <-> (min_speed_diff self <= attacker_speed * 3.6 - defender_speed * 3.6)%Q
      /\ ((random g).1
          < get_overtaking_success_probability self
              (attacker_speed * 3.6 - defender_speed * 3.6) attacker_am defender_am)%Q
      /\ ((attacker_speed + (attacker_speed * 3.6 - defender_speed * 3.6) / 3.6 / 2 == 0)%Q
          \/ (defender_speed == 0)%Q)
      /\ e = ZeroDivisionError.
Proof.
  unfold attempt_overtake.
  set (diff := (attacker_speed * 3.6 - defender_speed * 3.6)%Q).
  case_ltb diff (min_speed_diff self).
  { split; [discriminate | intros [Hge _]; lra]. }
  destruct (random g) as [u g1]. simpl.
  case_ltb u (get_overtaking_success_probability self diff attacker_am defender_am).
  - unfold successful_time_gain, Py.div.
    destruct (Py.eqb (attacker_speed + diff / 3.6 / 2) 0) eqn:Ha; simpl.
    { apply eqb_eq in Ha. split; [intros [= <-]; auto | by intros (_ & _ & _ & ->)]. }
    apply eqb_neq in Ha.
    destruct (Py.eqb defender_speed 0) eqn:Hd; simpl.
    { apply eqb_eq in Hd. split; [intros [= <-]; auto | by intros (_ & _ & _ & ->)]. }
    apply eqb_neq in Hd.
    split; [discriminate | intros (_ & _ & [Hz | Hz] & _); contradiction].
  - simpl. split; [discriminate | intros (_ & Hlt & _); lra].
Qed.

(** X13: with a defender that moves forward, on a model whose threshold
    is not negative, [attempt_overtake] always returns, and the time
    gain it reports, and records, is 0, whether the attempt succeeds or
    not: the pass of a slower car is computed as a loss and clamped. *)
Theorem time_gain_always_zero (self : OvertakingModel.t) (attacker defender : Z)
    (attacker_speed defender_speed gap_seconds track_position : Q)
    (attacker_am defender_am : bool) (ts : Q) (g : rng) :
  (0 < defender_speed)%Q ->
  (0 <= min_speed_diff self)%Q ->
  exists res self' g',
    attempt_overtake self attacker defender attacker_speed defender_speed gap_seconds
      track_position attacker_am defender_am ts g = Ok (res, self', g')
    /\ res_time_gain res = 0.0%Q
    /\ Forall (fun a => time_gain a = 0.0%Q)
         (drop (length (overtaking_history self)) (overtaking_history self')).
Proof.
  intros Hd Hmin. unfold attempt_overtake.
  case_ltb (attacker_speed * 3.6 - defender_speed * 3.6)%Q (min_speed_diff self).
  - do 3 eexists. split; [reflexivity |]. split; [reflexivity |].
    rewrite drop_all. constructor.
  - destruct (random g) as [u g1].
    destruct (Py.ltb u _).
    + rewrite successful_time_gain_zero by lra. simpl.
      do 3 eexists. split; [reflexivity |]. split; [reflexivity |].
      simpl. rewrite drop_app_length. by repeat constructor.
    + simpl. do 3 eexists. split; [reflexivity |]. split; [reflexivity |].
      simpl. rewrite drop_app_length. by repeat constructor.
Qed.

(** X14: the outcome of an attempt does not depend on the gap or on the
    track position: two calls that differ in nothing else succeed or
    fail together, report the same time gain and the same differential,
    leave the same model and the same generator, or raise the same
    exception; only the slipstream flag follows the gap, and it has no
    effect on the outcome. *)
Theorem attempt_ignores_gap (self : OvertakingModel.t) (attacker defender : Z)
    (attacker_speed defender_speed gap1 gap2 pos1 pos2 : Q)
    (attacker_am defender_am : bool) (ts : Q) (g : rng) :
  match attempt_overtake self attacker defender attacker_speed defender_speed gap1
          pos1 attacker_am defender_am ts g,
        attempt_overtake self attacker defender attacker_speed defender_speed gap2
          pos2 attacker_am defender_am ts g with
  | Ok (r1, s1, g1), Ok (r2, s2, g2) =>
      s1 = s2 /\ g1 = g2
      /\ res_success r1 = res_success r2
      /\ res_time_gain r1 = res_time_gain r2
      /\ res_speed_differential_kmh r1 = res_speed_differential_kmh r2
      /\ res_slipstream_active r1 = Py.leb gap1 (slipstream_distance self)
      /\ res_slipstream_active r2 = Py.leb gap2 (slipstream_distance self)
  | Raise e1, Raise e2 => e1 = e2
  | _, _ => False
  end.
Proof.
  unfold attempt_overtake.
  destruct (Py.ltb (attacker_speed * 3.6 - defender_speed * 3.6)%Q (min_speed_diff self)).
  - repeat split; reflexivity.
  - destruct (random g) as [u g1].
    destruct (Py.ltb u _).
    + destruct (successful_time_gain _ _ _) as [gain |]; simpl; [| reflexivity].
      repeat split; reflexivity.
    + simpl. repeat split; reflexivity.
Qed.

Lemma max_nonneg (x : Q) : (0 <= Py.max_ 0.0 x)%Q.
Proof. unfold Py.max_. case_ltb 0.0%Q x; lra. Qed.

(** What every reachable model satisfies. *)
Lemma model_reachable_inv (self : OvertakingModel.t) :
  reachable self ->
  min_speed_diff self = 5.0%Q /\ Forall sound_record (overtaking_history self).
Proof.
  induction 1 as [track_length random_seed g
                 | self attacker defender va vd gap pos a b ts g res self' g' _ IH Hatt].
  - split; [reflexivity | constructor].
  - destruct IH as [Hmin Hhist]. revert Hatt. unfold attempt_overtake.
    rewrite Hmin.
    case_ltb (va * 3.6 - vd * 3.6)%Q 5.0%Q;
      [intros Heq; injection Heq as _ <- _; by split |].
    destruct (random g) as [u g1].
    destruct (Py.ltb u _) eqn:Hu.
    + unfold successful_time_gain, Py.div.
      destruct (Py.eqb (va + (va * 3.6 - vd * 3.6) / 3.6 / 2) 0); simpl;
        [discriminate |].
      destruct (Py.eqb vd 0); simpl; [discriminate |].
      intros Heq; injection Heq as _ <- _. simpl. split; [exact Hmin |].
      apply Forall_app. split; [exact Hhist |].
      constructor; [| constructor]. unfold sound_record; simpl.
      split; [lra |]. split; [apply max_nonneg | discriminate].
    + simpl. intros Heq; injection Heq as _ <- _. simpl. split; [exact Hmin |].
      apply Forall_app. split; [exact Hhist |].
      constructor; [| constructor]. unfold sound_record; simpl.
      split; [lra |]. split; [lra | reflexivity].
Qed.

Lemma sum_Q_lower (c : Q) (l : list Q) :
  Forall (fun x => (c <= x)%Q) l -> (c * inject_Z (Z.of_nat (length l)) <= sum_Q l)%Q.
Proof.
  induction 1 as [| x l Hx _ IH]; cbn [length sum_Q foldr].
  - change (inject_Z (Z.of_nat 0)) with 0%Q. lra.
  - rewrite Nat2Z.inj_succ, <- Z.add_1_r, inject_Z_plus.
    change (inject_Z 1) with 1%Q. unfold sum_Q in IH. lra.
Qed.

Lemma statistics_nonempty (self : OvertakingModel.t) :
  overtaking_history self <> [] ->
  get_overtaking_statistics self
  = {| total_attempts := Z.of_nat (length (overtaking_history self));
       successful_overtakes :=
         Z.of_nat (length (filter (fun a => success a = true) (overtaking_history self)));
       success_rate :=
         (inject_Z (Z.of_nat (length (filter (fun a => success a = true)
                                        (overtaking_history self))))
          / inject_Z (Z.of_nat (length (overtaking_history self))))%Q;
       avg_speed_differential :=
         (sum_Q (speed_differential <$> overtaking_history self)
          / inject_Z (Z.of_nat (length (overtaking_history self))))%Q |}.
Proof.
  intros Hne. unfold get_overtaking_statistics.
  destruct (overtaking_history self); [congruence | reflexivity].
Qed.

(** X15: on every model that attempts can produce from a constructed
    one, each recorded attempt has a differential of at least 5 km/h, a
    time gain that is not negative, and a time gain of 0 if it failed;
    the statistics count every record, the successes are at most the
    attempts, the success rate lies between 0 and 1, and the average
    differential of a non-empty history is at least 5 km/h. *)
Theorem overtaking_statistics_sound (self : OvertakingModel.t) :
  reachable self ->
  Forall sound_record (overtaking_history self)
  /\ total_attempts (get_overtaking_statistics self)
     = Z.of_nat (length (overtaking_history self))
  /\ 0 <= successful_overtakes (get_overtaking_statistics self)
       <= total_attempts (get_overtaking_statistics self)
  /\ (0 <= success_rate (get_overtaking_statistics self))%Q
  /\ (success_rate (get_overtaking_statistics self) <= 1)%Q
  /\ (overtaking_history self <> [] ->
      (5 <= avg_speed_differential (get_overtaking_statistics self))%Q).
Proof.
  intros Hr. apply model_reachable_inv in Hr. destruct Hr as [_ Hhist].
  split; [exact Hhist |].
  destruct (decide (overtaking_history self = [])) as [Hnil | Hne].
  { unfold get_overtaking_statistics. rewrite Hnil. simpl.
    repeat split; try lia; try (vm_compute; discriminate). congruence. }
  rewrite (statistics_nonempty self Hne).
  set (h := overtaking_history self) in *.
  assert (0 < Z.of_nat (length h)) as Hn by (destruct h; [congruence | simpl; lia]).
  cbn [total_attempts successful_overtakes success_rate avg_speed_differential].
  pose proof (length_filter (fun a => success a = true) h) as Hf.
  set (n := Z.of_nat (length h)) in *.
  set (k := Z.of_nat (length (filter (fun a => success a = true) h))) in *.
  assert (0 <= k <= n) as Hk by (unfold k, n; lia).
  assert (0 < inject_Z n)%Q as Hnq
    by (change 0%Q with (inject_Z 0); rewrite <- Zlt_Qlt; exact Hn).
  assert (0 <= inject_Z k)%Q as Hk0
    by (change 0%Q with (inject_Z 0); rewrite <- Zle_Qle; lia).
  assert (inject_Z k <= inject_Z n)%Q as Hkn by (rewrite <- Zle_Qle; lia).
  split; [reflexivity |]. split; [exact Hk |].
  split; [apply Qle_shift_div_l; [exact Hnq | lra] |].
  split; [apply Qle_shift_div_r; [exact Hnq | lra] |].
  intros _. apply Qle_shift_div_l; [exact Hnq |].
  unfold n. rewrite <- (length_fmap speed_differential h).
  apply sum_Q_lower. apply Forall_fmap.
  eapply Forall_impl; [exact Hhist |]. intros a (Hd & _). exact Hd.
Qed.

End OvertakingRunsFacts.

Section OvertakingRunsExamples.

Import OvertakingModel OvertakingRuns.

(** The sample model after an attempt at 192 km/h against 180 km/h. *)
Lemma sample_model_reachable :
  exists self',
    reachable (H := Lcg.numpy_random) self'
    /\ length (overtaking_history self') = 1%nat.
Proof.
  destruct (attempt_overtake (H := Lcg.numpy_random) Samples.overtaking.1 2 1
              (192.0 / 3.6) (180.0 / 3.6) 0.8 0.5 false false 0.0 Samples.overtaking.2)
    as [[[res self'] g'] |] eqn:Hatt; [| discriminate (f_equal is_ok Hatt)].
  exists self'. split.
  - eapply (model_attempt (H := Lcg.numpy_random) Samples.overtaking.1);
      [exact (model_init (H := Lcg.numpy_random) 2500.0 (Some 0) 7) | exact Hatt].
  - revert Hatt. vm_compute. intros [= _ <- _]. reflexivity.
Defined.

Lemma time_gain_always_zero_witness :
  exists res self' g',
    attempt_overtake (H := Lcg.numpy_random) Samples.overtaking.1 2 1
      (192.0 / 3.6) (180.0 / 3.6) 0.8 0.5 false false 0.0 Samples.overtaking.2
    = Ok (res, self', g')
    /\ res_time_gain res = 0.0%Q.
Proof.
  destruct (time_gain_always_zero (H := Lcg.numpy_random) Samples.overtaking.1 2 1
              (192.0 / 3.6) (180.0 / 3.6) 0.8 0.5 false false 0.0 Samples.overtaking.2)
    as (res & self' & g' & Hatt & Hgain & _).
  - vm_compute. reflexivity.
  - vm_compute. discriminate.
  - exists res, self', g'. split; assumption.
Defined.

Lemma success_probability_monotone_witness :
  (get_overtaking_success_probability Samples.overtaking.1 7.0 false false
   <= get_overtaking_success_probability Samples.overtaking.1 12.0 false false)%Q.
Proof.
  destruct (success_probability_monotone (H := Lcg.numpy_random) 2500.0 (Some 0) 7
              7.0 12.0 false false) as [Hmono _].
  apply Hmono. vm_compute. discriminate.
Defined.

Lemma overtaking_statistics_sound_witness :
  exists self',
    length (overtaking_history self') = 1%nat
    /\ (5 <= avg_speed_differential (get_overtaking_statistics self'))%Q.
Proof.
  destruct sample_model_reachable as (self' & Hreach & Hlen).
  exists self'. split; [exact Hlen |].
  apply (overtaking_statistics_sound (H := Lcg.numpy_random) self' Hreach).
  intros Hnil. rewrite Hnil in Hlen. discriminate Hlen.
Defined.

End OvertakingRunsExamples.

(** ** Steps of the race-event engine *)

Section EventStepFacts.

Import RaceEvents EventRuns EventSteps.
Context `{NumpyRandom}.

Lemma safety_same_refl (a : RaceEvents.t) : safety_same a a.
Proof. repeat split. Qed.

Lemma weather_same_refl (a : RaceEvents.t) : weather_same a a.
Proof. repeat split. Qed.

Lemma config_same_refl (a : RaceEvents.t) : config_same a a.
Proof. repeat split. Qed.

Lemma weather_same_trans (a b c : RaceEvents.t) :
  weather_same a b -> weather_same b c -> weather_same a c.
Proof. unfold weather_same. intuition congruence. Qed.

Lemma config_same_trans (a b c : RaceEvents.t) :
  config_same a b -> config_same b c -> config_same a c.
Proof. unfold config_same. intuition congruence. Qed.

Lemma deployment_trans (lap : Z) (a b c : RaceEvents.t) (da db dc : bool) :
  deployment lap a da b db -> deployment lap b db c dc -> deployment lap a da c dc.
Proof.
  unfold deployment, safety_same.
  intros [(Hab & Htab & Hdab) | Hab] [(Hbc & Htbc & Hdbc) | Hbc].
  - left. intuition congruence.
  - right. destruct Hab as (_ & Hact & _ & _). intuition congruence.
  - right. destruct Hbc as (? & Hact & ? & ?). intuition (try congruence; try lia).
  - destruct Hab as (_ & _ & _ & Hact & _). destruct Hbc as (Hoff & _). congruence.
Qed.

Lemma crash_loop_refl (lap : Z) (race_time : Q) (a : RaceEvents.t) (ea : LapEvents) :
  crash_loop lap race_time [] a ea a ea.
Proof.
  exists [], []. rewrite !app_nil_r. simpl.
  split; [reflexivity |]. split; [constructor |]. split; [constructor |].
  split; [constructor |]. split; [by rewrite union_empty_l_L |].
  split; [lia |]. split; [reflexivity |]. split; [lia |]. split; [constructor |].
  split; [left; repeat split |].
  split; [apply weather_same_refl |]. split; [apply config_same_refl |].
  split; reflexivity.
Qed.

Lemma crash_loop_trans (lap : Z) (race_time : Q) (l1 l2 : list Z)
    (a b c : RaceEvents.t) (ea eb ec : LapEvents) :
  crash_loop lap race_time l1 a ea b eb ->
  crash_loop lap race_time l2 b eb c ec ->
  crash_loop lap race_time (l1 ++ l2) a ea c ec.
Proof.
  intros (cs1 & new1 & Hc1 & Hs1 & Hf1 & Hn1 & Hset1 & Ht1 & Hl1 & Hlen1 & Hts1 & Hd1
          & Hw1 & Hk1 & Hwc1 & Hmu1)
         (cs2 & new2 & Hc2 & Hs2 & Hf2 & Hn2 & Hset2 & Ht2 & Hl2 & Hlen2 & Hts2 & Hd2
          & Hw2 & Hk2 & Hwc2 & Hmu2).
  exists (cs1 ++ cs2), (new1 ++ new2).
  assert (Forall (fun x => (x ∉ crashed_cars a) /\ (x ∉ cs1)) cs2) as Hf2'.
  { eapply Forall_impl; [exact Hf2 |]. intros x Hc. rewrite Hset1 in Hc.
    apply not_elem_of_union in Hc. destruct Hc as [Hc1' Hc2'].
    split; [exact Hc2' |]. intros Hin. apply Hc1'. by apply elem_of_list_to_set. }
  split; [by rewrite Hc2, Hc1, app_assoc |].
  split; [by apply sublist_app |].
  split.
  { apply Forall_app. split; [exact Hf1 |].
    eapply Forall_impl; [exact Hf2' |]. by intros x [? _]. }
  split.
  { apply NoDup_app. split; [exact Hn1 |]. split; [| exact Hn2].
    intros x Hin1 Hin2. rewrite Forall_forall in Hf2'.
    destruct (Hf2' x Hin2) as [_ Hnot]. contradiction. }
  split.
  { rewrite Hset2, Hset1, list_to_set_app_L.
    rewrite (union_comm_L (list_to_set cs1) (list_to_set cs2)).
    by rewrite union_assoc_L. }
  split; [rewrite Ht2, Ht1, length_app; lia |].
  split; [by rewrite Hl2, Hl1, app_assoc |].
  split; [rewrite !length_app; lia |].
  split; [by apply Forall_app |].
  split; [eapply deployment_trans; eassumption |].
  split; [eapply weather_same_trans; eassumption |].
  split; [eapply config_same_trans; eassumption |].
  split; congruence.
Qed.


Lemma crash_loop_weaken (lap : Z) (race_time : Q) (l l' : list Z)
    (a b : RaceEvents.t) (ea eb : LapEvents) :
  sublist l l' -> crash_loop lap race_time l a ea b eb ->
  crash_loop lap race_time l' a ea b eb.
Proof.
  intros Hsub (cs & new & Hc & Hs & Hrest). exists cs, new.
  split; [exact Hc |]. split; [by etransitivity |]. exact Hrest.
Qed.

(** A deployment while the safety car is off. *)
Lemma deploy_step (lap : Z) (race_time : Q) (a : RaceEvents.t) (ea : LapEvents) (g : rng) :
  safety_car_active a = false ->
  crash_loop lap race_time [] a ea (_deploy_safety_car a lap race_time g).1
    {| safety_car_deployed := true; crashes := crashes ea;
       weather_changed := weather_changed ea; new_mu_weather := new_mu_weather ea |}.
Proof.
  intros Hoff. unfold _deploy_safety_car.
  pose proof (randint_range 3 9 g ltac:(lia)) as Hrange.
  destruct (randint 3 9 g) as [laps g1]. simpl in *.
  eexists [], [_]. simpl. rewrite app_nil_r.
  split; [reflexivity |]. split; [constructor |]. split; [constructor |].
  split; [constructor |]. split; [by rewrite union_empty_l_L |].
  split; [lia |]. split; [reflexivity |]. split; [lia |].
  split; [constructor; [split; [reflexivity | by left] | constructor] |].
  split; [right; repeat split; try assumption; simpl; lia |].
  split; [repeat split |]. split; [repeat split |].
  split; reflexivity.
Qed.

(** The registration of the crash of a car that had not crashed. *)
Lemma register_step (lap : Z) (race_time : Q) (a : RaceEvents.t) (ea : LapEvents)
    (car : Z) :
  car ∉ crashed_cars a ->
  crash_loop lap race_time [car] a ea (_register_crash a car race_time)
    {| safety_car_deployed := safety_car_deployed ea; crashes := crashes ea ++ [car];
       weather_changed := weather_changed ea; new_mu_weather := new_mu_weather ea |}.
Proof.
  intros Hnew. unfold _register_crash.
  eexists [car], [_]. simpl.
  split; [reflexivity |]. split; [reflexivity |].
  split; [by constructor |].
  split; [apply NoDup_singleton |].
  split; [by rewrite union_empty_r_L |].
  split; [lia |]. split; [reflexivity |]. split; [lia |].
  split; [constructor; [split; [reflexivity | by right] | constructor] |].
  split; [left; repeat split |].
  split; [repeat split |]. split; [repeat split |].
  split; reflexivity.
Qed.

Lemma check_crash_step (lap : Z) (race_time : Q) (a : RaceEvents.t) (ea : LapEvents)
    (g : rng) (car : Z) :
  crash_loop lap race_time [car] a ea
    (check_crash lap race_time (a, ea, g) car).1.1
    (check_crash lap race_time (a, ea, g) car).1.2.
Proof.
  pose proof (crash_loop_weaken lap race_time [] [car] a a ea ea
                (sublist_nil_l _) (crash_loop_refl lap race_time a ea)) as Hidle.
  unfold check_crash.
  destruct (decide (car ∈ crashed_cars a)) as [Hin | Hnew]; [exact Hidle |].
  destruct (random g) as [u g1].
  destruct (Py.ltb u (crash_probability_per_car a)); [| exact Hidle].
  pose proof (register_step lap race_time a ea car Hnew) as Hreg.
  destruct (safety_car_active (_register_crash a car race_time)) eqn:Hact;
    [exact Hreg |].
  destruct (random g1) as [u2 g2].
  destruct (Py.ltb u2 0.5); [| exact Hreg].
  pose proof (deploy_step lap race_time (_register_crash a car race_time)
                {| safety_car_deployed := safety_car_deployed ea;
                   crashes := crashes ea ++ [car];
                   weather_changed := weather_changed ea;
                   new_mu_weather := new_mu_weather ea |} g2 Hact) as Hdep.
  pose proof (crash_loop_trans _ _ _ _ _ _ _ _ _ _ Hreg Hdep) as Hboth.
  destruct (_deploy_safety_car _ lap race_time g2) as [b g3]. exact Hboth.
Qed.

Lemma crash_fold_step (lap : Z) (race_time : Q) (cars : list Z) (a : RaceEvents.t)
    (ea : LapEvents) (g : rng) :
  crash_loop lap race_time cars a ea
    (foldl (check_crash lap race_time) (a, ea, g) cars).1.1
    (foldl (check_crash lap race_time) (a, ea, g) cars).1.2.
Proof.
  revert a ea g. induction cars as [| car cars IH]; intros a ea g; cbn [foldl].
  - apply crash_loop_refl.
  - pose proof (check_crash_step lap race_time a ea g car) as Hstep.
    destruct (check_crash lap race_time (a, ea, g) car) as [[b eb] g1].
    exact (crash_loop_trans _ _ [car] cars _ _ _ _ _ _ Hstep (IH b eb g1)).
Qed.

(** [_change_weather] touches the weather attributes only, and keeps
    them in range. *)
Lemma change_weather_frame (a : RaceEvents.t) (g : rng) :
  event_log (_change_weather a g).1 = event_log a
  /\ crashed_cars (_change_weather a g).1 = crashed_cars a
  /\ total_crashes (_change_weather a g).1 = total_crashes a
  /\ total_safety_cars (_change_weather a g).1 = total_safety_cars a
  /\ safety_same a (_change_weather a g).1
  /\ config_same a (_change_weather a g).1.
Proof.
  unfold _change_weather.
  destruct (weather_dry a).
  - destruct (uniform 0.15 0.30 g) as [x g1], (uniform 5 15 g1) as [y g2].
    repeat split.
  - destruct (random g) as [u g1]. destruct (Py.ltb u 0.3); [| repeat split].
    destruct (uniform 0.85 1.0 g1) as [x g2], (uniform 2 8 g2) as [y g3].
    repeat split.
Qed.

Lemma clip_range (x lo hi : Q) :
  (lo <= hi)%Q -> (lo <= Py.clip x lo hi)%Q /\ (Py.clip x lo hi <= hi)%Q.
Proof.
  intros Hle. unfold Py.clip.
  case_ltb x lo; [split; lra |]. case_ltb hi x; split; lra.
Qed.

Lemma clip_inside (x lo hi : Q) : (lo <= x)%Q -> (x <= hi)%Q -> Py.clip x lo hi = x.
Proof.
  intros Hlo Hhi. unfold Py.clip.
  case_ltb x lo; [lra |]. case_ltb hi x; [lra | reflexivity].
Qed.

Lemma weather_inv_change (a : RaceEvents.t) (g : rng) :
  weather_inv a -> weather_inv (_change_weather a g).1.
Proof.
  intros (Hdry & Hwet & Htemp). unfold _change_weather, weather_inv.
  assert (10 <= 50)%Q as Hbounds by (vm_compute; discriminate).
  destruct (weather_dry a) eqn:Hd.
  - pose proof (uniform_range 0.15 0.30 g ltac:(vm_compute; discriminate)) as Hx.
    destruct (uniform 0.15 0.30 g) as [x g1], (uniform 5 15 g1) as [y g2].
    simpl in *.
    rewrite clip_inside by lra.
    split; [discriminate |]. split; [intros _; lra |].
    apply clip_range, Hbounds.
  - destruct (random g) as [u g1]. destruct (Py.ltb u 0.3).
    + pose proof (uniform_range 0.85 1.0 g1 ltac:(vm_compute; discriminate)) as Hx.
      destruct (uniform 0.85 1.0 g1) as [x g2], (uniform 2 8 g2) as [y g3].
      simpl in *.
      rewrite clip_inside by lra.
      split; [intros _; lra |]. split; [discriminate |].
      apply clip_range, Hbounds.
    + simpl. rewrite Hd. specialize (Hwet eq_refl).
      rewrite clip_inside by lra.
      split; [discriminate |]. split; [intros _; exact Hwet |].
      apply clip_range, Hbounds.
Qed.

(** The whole of [check_lap_events]: the safety-car check and the crash
    loop lead to an engine [mid], which the weather check leaves as it
    is or hands to [_change_weather]. *)
Lemma check_lap_events_spec (self : RaceEvents.t) (lap : Z) (race_time : Q)
    (cars : list Z) (g : rng) :
  exists mid emid gmid,
    crash_loop lap race_time cars self
      {| safety_car_deployed := false; crashes := [];
         weather_changed := false; new_mu_weather := mu_weather self |} mid emid
    /\ crashes (check_lap_events self lap race_time cars g).1.1 = crashes emid
    /\ safety_car_deployed (check_lap_events self lap race_time cars g).1.1
       = safety_car_deployed emid
    /\ ((weather_changed (check_lap_events self lap race_time cars g).1.1 = false
         /\ (check_lap_events self lap race_time cars g).1.2 = mid)
        \/ (weather_changed (check_lap_events self lap race_time cars g).1.1 = true
            /\ (check_lap_events self lap race_time cars g).1.2
               = (_change_weather mid gmid).1))
    /\ new_mu_weather (check_lap_events self lap race_time cars g).1.1
       = mu_weather (check_lap_events self lap race_time cars g).1.2.
Proof.
  unfold check_lap_events.
  set (ev0 := {| safety_car_deployed := false; crashes := [];
                 weather_changed := false; new_mu_weather := mu_weather self |}).
  assert (exists a ea ga,
            crash_loop lap race_time [] self ev0 a ea
            /\ (if safety_car_active self then (self, ev0, g)
                else let '(u, g0) := random g in
                     if Py.ltb u (safety_car_probability self)
                     then let '(self0, g1) := _deploy_safety_car self lap race_time g0 in
                          (self0,
                           {| safety_car_deployed := true; crashes := crashes ev0;
                              weather_changed := weather_changed ev0;
                              new_mu_weather := new_mu_weather ev0 |}, g1)
                     else (self, ev0, g0)) = (a, ea, ga)) as (a & ea & ga & Hpre & ->).
  { destruct (safety_car_active self) eqn:Hact.
    - exists self, ev0, g. split; [apply crash_loop_refl | reflexivity].
    - destruct (random g) as [u g0].
      destruct (Py.ltb u (safety_car_probability self)).
      + pose proof (deploy_step lap race_time self ev0 g0 Hact) as Hdep.
        destruct (_deploy_safety_car self lap race_time g0) as [b g1].
        eexists _, _, _. split; [exact Hdep | reflexivity].
      + exists self, ev0, g0. split; [apply crash_loop_refl | reflexivity]. }
  pose proof (crash_fold_step lap race_time cars a ea ga) as Hloop.
  pose proof (crash_loop_trans _ _ [] cars _ _ _ _ _ _ Hpre Hloop) as Hall.
  simpl in Hall.
  destruct (foldl (check_crash lap race_time) (a, ea, ga) cars) as [[mid emid] g2].
  simpl in Hall.
  destruct Hall as (cs & new & Hc & Hs & Hf & Hn & Hset & Ht & Hl & Hlen & Hts & Hd
                    & Hw & Hk & Hwc & Hmu).
  assert (crash_loop lap race_time cars self ev0 mid emid) as Hall
    by (exists cs, new; repeat (split; [assumption |]); assumption).
  destruct (random g2) as [u g3].
  exists mid, emid, g3. split; [exact Hall |].
  destruct (Py.ltb u (weather_change_probability mid)).
  - destruct (_change_weather mid g3) as [fin g4] eqn:Hcw. simpl.
    repeat split. right. split; reflexivity.
  - simpl. split; [reflexivity |]. split; [reflexivity |].
    split; [left; split; [exact Hwc | reflexivity] |].
    rewrite Hmu. simpl. destruct Hw as (_ & Hmw & _). by rewrite Hmw.
Qed.


(** What one call of [check_lap_events] makes of the engine, the
    weather apart. *)
Lemma check_lap_events_effect (self : RaceEvents.t) (lap : Z) (race_time : Q)
    (cars : list Z) (g : rng) (events : LapEvents) (self' : RaceEvents.t) (g' : rng) :
  check_lap_events self lap race_time cars g = (events, self', g') ->
  exists mid emid,
    crash_loop lap race_time cars self
      {| safety_car_deployed := false; crashes := [];
         weather_changed := false; new_mu_weather := mu_weather self |} mid emid
    /\ crashes events = crashes emid
    /\ safety_car_deployed events = safety_car_deployed emid
    /\ event_log self' = event_log mid
    /\ crashed_cars self' = crashed_cars mid
    /\ total_crashes self' = total_crashes mid
    /\ total_safety_cars self' = total_safety_cars mid
    /\ safety_same mid self'
    /\ config_same mid self'
    /\ (weather_changed events = false -> self' = mid)
    /\ (weather_changed events = true -> exists g0, self' = (_change_weather mid g0).1)
    /\ new_mu_weather events = mu_weather self'.
Proof.
  intros Hcall.
  destruct (check_lap_events_spec self lap race_time cars g)
    as (mid & emid & gmid & Hloop & Hc & Hd & Hw & Hmu).
  rewrite Hcall in Hc, Hd, Hw, Hmu. simpl in *.
  exists mid, emid. split; [exact Hloop |]. split; [exact Hc |]. split; [exact Hd |].
  destruct Hw as [[Hflag ->] | [Hflag ->]].
  - repeat split; try reflexivity; try exact Hmu; try congruence.
  - destruct (change_weather_frame mid gmid) as (Hl & Hcr & Htc & Hts & Hss & Hcs).
    repeat (split; [assumption |]).
    split; [congruence |]. split; [intros _; by exists gmid | exact Hmu].
Qed.

(** X16: the cars that one call of [check_lap_events] reports as crashed
    are cars of the list it was given, in the order of that list, each
    at most once, and none of them had crashed before; after the call
    the crashed set is the old one with these cars added, the crash
    counter has grown by their number, and the active cars are the
    former active cars less these. *)
Theorem check_lap_events_crashes (self : RaceEvents.t) (lap : Z) (race_time : Q)
    (cars : list Z) (g : rng) (events : LapEvents) (self' : RaceEvents.t) (g' : rng) :
  check_lap_events self lap race_time cars g = (events, self', g') ->
  sublist (crashes events) cars
  /\ Forall (fun c => is_car_crashed self c = false) (crashes events)
  /\ NoDup (crashes events)
  /\ crashed_cars self' = list_to_set (crashes events) ∪ crashed_cars self
  /\ total_crashes self' = total_crashes self + Z.of_nat (length (crashes events))
  /\ get_active_cars self' cars
     = filter (fun c => c ∉ crashes events) (get_active_cars self cars).
Proof.
  intros Hcall.
  destruct (check_lap_events_effect _ _ _ _ _ _ _ _ Hcall)
    as (mid & emid & (cs & new & Hc & Hs & Hf & Hn & Hset & Ht & _) & Hce & _ & _
        & Hcr & Htc & _).
  simpl in Hc. rewrite Hce, Hc.
  split; [exact Hs |].
  split.
  { eapply Forall_impl; [exact Hf |]. intros c Hc'.
    unfold is_car_crashed. by apply bool_decide_eq_false. }
  split; [exact Hn |].
  split; [by rewrite Hcr |]. split; [by rewrite Htc |].
  unfold get_active_cars. rewrite Hcr, Hset, list_filter_filter.
  apply list_filter_iff. intros c.
  rewrite not_elem_of_union, elem_of_list_to_set. tauto.
Qed.

(** X17: one call of [check_lap_events] deploys the safety car at most
    once, and never while it is out.  If the report says deployed, the
    safety car was off before the call and is now active and DEPLOYED
    for 3 to 8 laps, from the current lap, and the deployment counter
    has grown by one; if not, the safety-car attributes and the counter
    are as before. *)
Theorem check_lap_events_deploys_once (self : RaceEvents.t) (lap : Z) (race_time : Q)
    (cars : list Z) (g : rng) (events : LapEvents) (self' : RaceEvents.t) (g' : rng) :
  check_lap_events self lap race_time cars g = (events, self', g') ->
  (safety_car_active self = true -> safety_car_deployed events = false)
  /\ (safety_car_deployed events = true ->
      safety_car_active self = false
      /\ safety_car_active self' = true
      /\ safety_car_state self' = DEPLOYED
      /\ 3 <= safety_car_laps_remaining self' <= 8
      /\ safety_car_deployment_lap self' = Some lap
      /\ total_safety_cars self' = total_safety_cars self + 1)
  /\ (safety_car_deployed events = false ->
      safety_car_active self' = safety_car_active self
      /\ safety_car_state self' = safety_car_state self
      /\ safety_car_laps_remaining self' = safety_car_laps_remaining self
      /\ safety_car_deployment_lap self' = safety_car_deployment_lap self
      /\ total_safety_cars self' = total_safety_cars self).
Proof.
  intros Hcall.
  destruct (check_lap_events_effect _ _ _ _ _ _ _ _ Hcall)
    as (mid & emid & (cs & new & _ & _ & _ & _ & _ & _ & _ & _ & _ & Hd & _) & _ & Hde
        & _ & _ & _ & Hts & (Hs1 & Hs2 & Hs3 & Hs4) & _).
  simpl in Hd. rewrite Hde, Hs1, Hs2, Hs3, Hs4, Hts.
  destruct Hd as [((Ha1 & Ha2 & Ha3 & Ha4) & Htot & Hflag) | (Hoff & Htot & Hflag & Hrest)].
  - rewrite Hflag. split; [reflexivity |]. split; [discriminate |].
    intros _. repeat split; assumption.
  - rewrite Hflag. split; [congruence |].
    split; [| discriminate]. intros _.
    destruct Hrest as (? & ? & ? & ?). repeat split; try assumption; lia.
Qed.

(** X18: one call of [check_lap_events] only appends to the event log:
    the new log is the old one followed by one event for each reported
    crash and one more if the safety car was deployed; each new event
    carries the race time of the call and is a SAFETY_CAR or a CRASH
    event: a change of weather is not logged. *)
Theorem check_lap_events_log (self : RaceEvents.t) (lap : Z) (race_time : Q)
    (cars : list Z) (g : rng) (events : LapEvents) (self' : RaceEvents.t) (g' : rng) :
  check_lap_events self lap race_time cars g = (events, self', g') ->
  exists new,
    get_events_log self' = get_events_log self ++ new
    /\ Z.of_nat (length new)
       = Z.of_nat (length (crashes events))
         + (if safety_car_deployed events then 1 else 0)
    /\ Forall (fun ev =>
                 timestamp ev = race_time
                 /\ (event_type ev = SAFETY_CAR \/ event_type ev = CRASH)) new.
Proof.
  intros Hcall.
  destruct (check_lap_events_effect _ _ _ _ _ _ _ _ Hcall)
    as (mid & emid & (cs & new & Hc & _ & _ & _ & _ & _ & Hl & Hlen & Hts & Hd & _)
        & Hce & Hde & Hlog & _).
  exists new. unfold get_events_log. rewrite Hlog, Hce, Hde, Hc.
  split; [exact Hl |]. split; [| exact Hts].
  simpl in *. rewrite Hlen.
  destruct Hd as [(_ & -> & ->) | (_ & -> & -> & _)]; lia.
Qed.

(** X19: the report's [new_mu_weather] is the engine's friction factor
    after the call, changed or not.  If the report says that the
    weather has not changed, the weather attributes are as before; if
    it says changed and the track was dry, the track is now wet; if it
    says changed and the track was wet, the track may still be wet,
    with the friction it had. *)
Theorem check_lap_events_weather (self : RaceEvents.t) (lap : Z) (race_time : Q)
    (cars : list Z) (g : rng) (events : LapEvents) (self' : RaceEvents.t) (g' : rng) :
  check_lap_events self lap race_time cars g = (events, self', g') ->
  new_mu_weather events = get_weather_factor self'
  /\ (weather_changed events = false ->
      weather_dry self' = weather_dry self
      /\ mu_weather self' = mu_weather self
      /\ track_temperature self' = track_temperature self)
  /\ (weather_changed events = true -> weather_dry self = true ->
      weather_dry self' = false)
  /\ (weather_changed events = true -> weather_dry self = false ->
      weather_dry self' = true
      \/ (weather_dry self' = false
          /\ mu_weather self' = Py.clip (mu_weather self) 0.5 1.0)).
Proof.
  intros Hcall.
  destruct (check_lap_events_effect _ _ _ _ _ _ _ _ Hcall)
    as (mid & emid & (cs & new & _ & _ & _ & _ & _ & _ & _ & _ & _ & _ & Hw & _)
        & _ & _ & _ & _ & _ & _ & _ & _ & Hsame & Hchg & Hmu).
  destruct Hw as (Hw1 & Hw2 & Hw3).
  split; [exact Hmu |].
  split; [intros Hflag; rewrite (Hsame Hflag); auto |].
  split.
  - intros Hflag Hdry. destruct (Hchg Hflag) as (g0 & ->).
    unfold _change_weather. rewrite Hw1, Hdry.
    by destruct (uniform 0.15 0.30 g0) as [x g1], (uniform 5 15 g1) as [y g2].
  - intros Hflag Hwet. destruct (Hchg Hflag) as (g0 & ->).
    unfold _change_weather. rewrite Hw1, Hwet.
    destruct (random g0) as [u g1]. destruct (Py.ltb u 0.3).
    + left. by destruct (uniform 0.85 1.0 g1) as [x g2], (uniform 2 8 g2) as [y g3].
    + right. simpl. rewrite Hw1, Hw2. auto.
Qed.

End EventStepFacts.

(** A property of the engine that deployment, crash registration and
    change of weather preserve is preserved by [check_lap_events]; if
    the constructor establishes it and [update_safety_car] preserves it
    too, it holds on every reachable engine. *)
Section EngineInvariant.

Import RaceEvents EventRuns EventSteps.
Context `{NumpyRandom}.
Variable P : RaceEvents.t -> Prop.
Hypothesis P_deploy :
  forall self lap race_time g, P self -> P (_deploy_safety_car self lap race_time g).1.
Hypothesis P_crash :
  forall self car race_time, P self -> P (_register_crash self car race_time).
Hypothesis P_weather : forall self g, P self -> P (_change_weather self g).1.

Lemma invariant_check_crash (lap : Z) (race_time : Q) (acc : RaceEvents.t * LapEvents * rng)
    (car : Z) :
  P acc.1.1 -> P (check_crash lap race_time acc car).1.1.
Proof.
  destruct acc as [[self events] g]; simpl. intros HP. unfold check_crash.
  case_decide; [exact HP |].
  destruct (random g) as [u g1]. destruct (Py.ltb u _); [| exact HP].
  pose proof (P_crash self car race_time HP) as HPc.
  destruct (safety_car_active self); [exact HPc |].
  destruct (random g1) as [u2 g2]. destruct (Py.ltb u2 0.5); [| exact HPc].
  pose proof (P_deploy _ lap race_time g2 HPc) as HPd.
  destruct (_deploy_safety_car _ lap race_time g2) as [self' g3]. exact HPd.
Qed.

Lemma invariant_check (self : RaceEvents.t) (lap : Z) (race_time : Q) (cars : list Z)
    (g : rng) :
  P self -> P (check_lap_events self lap race_time cars g).1.2.
Proof.
  intros HP.
  destruct (check_lap_events self lap race_time cars g) as [[events self'] g'] eqn:Hcall.
  simpl.
  assert (forall acc : RaceEvents.t * LapEvents * rng,
            P acc.1.1 -> P (foldl (check_crash lap race_time) acc cars).1.1) as Hloop.
  { clear Hcall. induction cars as [| car cars IH]; intros acc Hacc; simpl; [exact Hacc |].
    apply IH, invariant_check_crash, Hacc. }
  revert Hcall. unfold check_lap_events.
  set (ev0 := {| safety_car_deployed := false; crashes := [];
                 weather_changed := false; new_mu_weather := mu_weather self |}).
  assert (forall acc : RaceEvents.t * LapEvents * rng,
            P acc.1.1 ->
            (let '(self, events, g) := foldl (check_crash lap race_time) acc cars in
             let '(u, g) := random g in
             if Py.ltb u (weather_change_probability self)
             then let '(self, g) := _change_weather self g in
                  ({| safety_car_deployed := safety_car_deployed events;
                      crashes := crashes events; weather_changed := true;
                      new_mu_weather := mu_weather self |}, self, g)
             else (events, self, g)) = (events, self', g') -> P self') as Hrest.
  { intros acc Hacc. specialize (Hloop acc Hacc).
    destruct (foldl _ acc cars) as [[s1 e1] g1]; simpl in Hloop.
    destruct (random g1) as [u g2]. destruct (Py.ltb u _).
    - pose proof (P_weather s1 g2 Hloop) as Hw.
      destruct (_change_weather s1 g2) as [s2 g3]. by intros [= _ <- _].
    - by intros [= _ <- _]. }
  destruct (safety_car_active self); [apply (Hrest (self, ev0, g)), HP |].
  destruct (random g) as [u g1]. destruct (Py.ltb u _).
  - pose proof (P_deploy self lap race_time g1 HP) as Hd.
    destruct (_deploy_safety_car self lap race_time g1) as [s1 g2].
    apply (Hrest (s1, _, g2)), Hd.
  - apply (Hrest (self, ev0, g1)), HP.
Qed.

Hypothesis P_init :
  forall num_cars track_length random_seed g,
    P (init num_cars track_length random_seed g).1.
Hypothesis P_update : forall self lap, P self -> P (update_safety_car self lap).2.

Lemma invariant_reachable (self : RaceEvents.t) : reachable self -> P self.
Proof.
  induction 1.
  - apply P_init.
  - by apply invariant_check.
  - by apply P_update.
  - by apply P_deploy.
  - by apply P_crash.
  - by apply P_weather.
Qed.

End EngineInvariant.

Section EventRunFacts.

Import RaceEvents EventRuns EventSteps.
Context `{NumpyRandom}.

(** [update_safety_car] touches the safety-car attributes only. *)
Lemma update_safety_car_frame (self : RaceEvents.t) (lap : Z) :
  event_log (update_safety_car self lap).2 = event_log self
  /\ crashed_cars (update_safety_car self lap).2 = crashed_cars self
  /\ total_crashes (update_safety_car self lap).2 = total_crashes self
  /\ total_safety_cars (update_safety_car self lap).2 = total_safety_cars self
  /\ weather_same self (update_safety_car self lap).2.
Proof.
  unfold update_safety_car.
  destruct (negb _); [repeat split |].
  destruct (_ <=? 0); simpl; [| repeat split].
  destruct (decide _); [repeat split |]. destruct (decide _); repeat split.
Qed.

Lemma weather_inv_reachable (self : RaceEvents.t) : reachable self -> weather_inv self.
Proof.
  apply (invariant_reachable weather_inv).
  - intros s lap race_time g Hs. unfold _deploy_safety_car.
    destruct (randint 3 9 g) as [laps g1]. exact Hs.
  - intros s car race_time Hs. exact Hs.
  - intros s g Hs. by apply weather_inv_change.
  - intros n len random_seed g. unfold weather_inv. simpl.
    split; [intros _; split; vm_compute; discriminate |].
    split; [discriminate | split; vm_compute; discriminate].
  - intros s lap Hs.
    destruct (update_safety_car_frame s lap) as (_ & _ & _ & _ & Hw1 & Hw2 & Hw3).
    unfold weather_inv. by rewrite Hw1, Hw2, Hw3.
Qed.

(** X20: on every reachable engine the friction factor lies between
    0.85 and 1 while the track is dry and between 0.70 and 0.85 while
    it is wet, so always between the clamps 0.5 and 1, and the track
    temperature lies between 10 and 50 degrees. *)
Theorem weather_in_range (self : RaceEvents.t) :
  reachable self ->
  (0.5 <= get_weather_factor self <= 1.0)%Q
  /\ (weather_dry self = true -> (0.85 <= get_weather_factor self <= 1.0)%Q)
  /\ (weather_dry self = false -> (0.70 <= get_weather_factor self <= 0.85)%Q)
  /\ (10 <= track_temperature self <= 50)%Q.
Proof.
  intros Hr. apply weather_inv_reachable in Hr.
  destruct Hr as (Hdry & Hwet & Htemp). unfold get_weather_factor.
  split; [destruct (weather_dry self); [specialize (Hdry eq_refl) | specialize (Hwet eq_refl)];
          split; lra |].
  split; [exact Hdry |]. split; [exact Hwet | exact Htemp].
Qed.

Lemma count_snoc (kind : EventType) (log : list RaceEvent) (ev : RaceEvent) :
  count kind (log ++ [ev])
  = count kind log + (if decide (event_type ev = kind) then 1 else 0).
Proof.
  unfold count. rewrite filter_app, length_app, filter_cons. simpl.
  destruct (decide (event_type ev = kind)); simpl; lia.
Qed.

Lemma log_inv_reachable (self : RaceEvents.t) : reachable self -> log_inv self.
Proof.
  apply (invariant_reachable log_inv).
  - intros s lap race_time g (Hsc & Hcr & Hall & Hcars). unfold _deploy_safety_car.
    destruct (randint 3 9 g) as [laps g1]. unfold log_inv. simpl.
    rewrite !count_snoc. simpl.
    split; [lia |]. split; [lia |].
    split; [apply Forall_app; split; [exact Hall | repeat constructor] |].
    intros c Hc. destruct (Hcars c Hc) as (ev & Hin & Hev).
    exists ev. split; [apply elem_of_app; by left | exact Hev].
  - intros s car race_time (Hsc & Hcr & Hall & Hcars). unfold _register_crash, log_inv.
    simpl. rewrite !count_snoc. simpl.
    split; [lia |]. split; [lia |].
    split.
    + apply Forall_app. split.
      * eapply Forall_impl; [exact Hall |].
        intros ev [Hev | (Hty & c & Hid & Hc)]; [by left |].
        right. split; [exact Hty |]. exists c. split; [exact Hid |].
        apply elem_of_union. by right.
      * constructor; [| constructor]. right. split; [reflexivity |].
        exists car. split; [reflexivity |]. apply elem_of_union. left.
        by apply elem_of_singleton.
    + intros c Hc. apply elem_of_union in Hc. destruct Hc as [Hc | Hc].
      * apply elem_of_singleton in Hc. subst c. eexists. split.
        { apply elem_of_app. right. apply list_elem_of_singleton. reflexivity. }
        split; reflexivity.
      * destruct (Hcars c Hc) as (ev & Hin & Hev).
        exists ev. split; [apply elem_of_app; by left | exact Hev].
  - intros s g Hs.
    destruct (change_weather_frame s g) as (Hl & Hc & Htc & Hts & _).
    unfold log_inv. by rewrite Hl, Hc, Htc, Hts.
  - intros n len random_seed g. unfold log_inv. simpl.
    split; [reflexivity |]. split; [reflexivity |]. split; [constructor |].
    intros c Hc. by apply elem_of_empty in Hc.
  - intros s lap Hs.
    destruct (update_safety_car_frame s lap) as (Hl & Hc & Htc & Hts & _).
    unfold log_inv. by rewrite Hl, Hc, Htc, Hts.
Qed.

Lemma count_two_kinds (log : list RaceEvent) :
  Forall (fun ev => event_type ev = SAFETY_CAR \/ event_type ev = CRASH) log ->
  Z.of_nat (length log) = count SAFETY_CAR log + count CRASH log.
Proof.
  unfold count. induction 1 as [| ev log Hev _ IH]; [reflexivity |].
  rewrite !filter_cons. simpl length.
  destruct Hev as [Hev | Hev]; rewrite Hev;
    repeat (destruct (decide _) as [Heq | Hne];
            [try discriminate Heq | try congruence]); simpl length; lia.
Qed.

(** X21: on every reachable engine the counters agree with the log:
    the deployment counter is the number of SAFETY_CAR events and the
    crash counter the number of CRASH events; the log holds no event of
    another type, so the event count of the summary is the sum of the
    two counters; every CRASH event names a car of the crashed set, and
    every car of the crashed set has a CRASH event in the log. *)
Theorem event_log_accounts (self : RaceEvents.t) :
  reachable self ->
  sum_total_safety_cars (get_event_summary self)
  = count SAFETY_CAR (get_events_log self)
  /\ sum_total_crashes (get_event_summary self) = count CRASH (get_events_log self)
  /\ sum_event_count (get_event_summary self)
     = sum_total_safety_cars (get_event_summary self)
       + sum_total_crashes (get_event_summary self)
  /\ Forall (fun ev =>
               (event_type ev = SAFETY_CAR /\ car_id ev = None)
               \/ (event_type ev = CRASH
                   /\ exists c, car_id ev = Some c /\ is_car_crashed self c = true))
            (get_events_log self)
  /\ (forall c, is_car_crashed self c = true ->
        exists ev, ev ∈ get_events_log self
                   /\ event_type ev = CRASH /\ car_id ev = Some c).
Proof.
  intros Hr. apply log_inv_reachable in Hr.
  destruct Hr as (Hsc & Hcr & Hall & Hcars).
  unfold get_event_summary, get_events_log, is_car_crashed. simpl.
  split; [exact Hsc |]. split; [exact Hcr |].
  split.
  { rewrite Hsc, Hcr. apply count_two_kinds.
    eapply Forall_impl; [exact Hall |]. intros ev [[? _] | [? _]]; auto. }
  split.
  { eapply Forall_impl; [exact Hall |].
    intros ev [Hev | (Hty & c & Hid & Hc)]; [by left |].
    right. split; [exact Hty |]. exists c. split; [exact Hid |].
    by apply bool_decide_eq_true. }
  intros c Hc. apply bool_decide_eq_true in Hc. exact (Hcars c Hc).
Qed.

End EventRunFacts.

Section EventRunExamples.

Import RaceEvents EventRuns EventSteps.

Lemma eventful_check_parts :
  eventful_check = (eventful_check.1.1, eventful_check.1.2, eventful_check.2).
Proof. by destruct eventful_check as [[? ?] ?]. Defined.

(** The engine after the eventful check. *)
Lemma sample_engine_reachable :
  reachable (H := Script.numpy_random) eventful_check.1.2.
Proof.
  apply (reach_check (H := Script.numpy_random)).
  exact (reach_init (H := Script.numpy_random) 20 2500.0 (Some 42) []).
Defined.

(** Cars 0 and 2 crash. *)
Lemma check_lap_events_crashes_witness :
  exists events self' g',
    eventful_check = (events, self', g')
    /\ crashes events = [0; 2]
    /\ sublist (crashes events) [0; 1; 2]
    /\ total_crashes self' = total_crashes fresh + Z.of_nat (length (crashes events))
    /\ get_active_cars self' [0; 1; 2]
       = filter (fun c => c ∉ crashes events) (get_active_cars fresh [0; 1; 2]).
Proof.
  eexists _, _, _. split; [exact eventful_check_parts |].
  split; [vm_compute; reflexivity |].
  destruct (check_lap_events_crashes (H := Script.numpy_random) _ _ _ _ _ _ _ _
              eventful_check_parts) as (Hsub & _ & _ & _ & Htotal & Hactive).
  split; [exact Hsub |]. split; [exact Htotal | exact Hactive].
Defined.

(** The crash of car 0 brings the safety car out, for five laps. *)
Lemma check_lap_events_deploys_once_witness :
  exists events self' g',
    eventful_check = (events, self', g')
    /\ safety_car_deployed events = true
    /\ safety_car_laps_remaining self' = 5
    /\ safety_car_active fresh = false
    /\ safety_car_active self' = true
    /\ safety_car_state self' = DEPLOYED
    /\ safety_car_deployment_lap self' = Some 1
    /\ total_safety_cars self' = total_safety_cars fresh + 1.
Proof.
  eexists _, _, _. split; [exact eventful_check_parts |].
  split; [vm_compute; reflexivity |]. split; [vm_compute; reflexivity |].
  destruct (check_lap_events_deploys_once (H := Script.numpy_random) _ _ _ _ _ _ _ _
              eventful_check_parts) as (_ & Hdeployed & _).
  destruct Hdeployed as (Hoff & Hon & Hstate & _ & Hlap & Htotal);
    [vm_compute; reflexivity |].
  repeat split; assumption.
Defined.

(** Three events are appended: two crashes and the deployment. *)
Lemma check_lap_events_log_witness :
  exists events self' g' new,
    eventful_check = (events, self', g')
    /\ get_events_log self' = get_events_log fresh ++ new
    /\ Z.of_nat (length new) = 3
    /\ Forall (fun ev => timestamp ev = 120.0%Q) new.
Proof.
  destruct (check_lap_events_log (H := Script.numpy_random) _ _ _ _ _ _ _ _
              eventful_check_parts) as (new & Hlog & Hlen & Hall).
  eexists _, _, _, new. split; [exact eventful_check_parts |].
  split; [exact Hlog |]. split.
  - rewrite Hlen. vm_compute. reflexivity.
  - eapply Forall_impl; [exact Hall |]. by intros ev [Hev _].
Defined.

(** The dry track turns wet. *)
Lemma check_lap_events_weather_witness :
  exists events self' g',
    eventful_check = (events, self', g')
    /\ weather_changed events = true
    /\ weather_dry fresh = true
    /\ weather_dry self' = false
    /\ new_mu_weather events = get_weather_factor self'.
Proof.
  eexists _, _, _. split; [exact eventful_check_parts |].
  destruct (check_lap_events_weather (H := Script.numpy_random) _ _ _ _ _ _ _ _
              eventful_check_parts) as (Hmu & _ & Hwet & _).
  split; [vm_compute; reflexivity |]. split; [reflexivity |].
  split; [| exact Hmu].
  apply Hwet; vm_compute; reflexivity.
Defined.

(** The engine after the change of weather: a wet track. *)
Lemma weather_in_range_witness :
  weather_dry eventful_check.1.2 = false
  /\ (0.70 <= get_weather_factor eventful_check.1.2 <= 0.85)%Q
  /\ (10 <= track_temperature eventful_check.1.2 <= 50)%Q.
Proof.
  destruct (weather_in_range (H := Script.numpy_random) _ sample_engine_reachable)
    as (_ & _ & Hwet & Htemp).
  split; [vm_compute; reflexivity |].
  split; [apply Hwet; vm_compute; reflexivity | exact Htemp].
Defined.

(** The engine after two crashes and one deployment. *)
Lemma event_log_accounts_witness :
  sum_total_crashes (get_event_summary eventful_check.1.2)
  = count CRASH (get_events_log eventful_check.1.2)
  /\ sum_total_safety_cars (get_event_summary eventful_check.1.2)
     = count SAFETY_CAR (get_events_log eventful_check.1.2)
  /\ sum_total_crashes (get_event_summary eventful_check.1.2) = 2
  /\ sum_total_safety_cars (get_event_summary eventful_check.1.2) = 1
  /\ sum_event_count (get_event_summary eventful_check.1.2) = 3.
Proof.
  destruct (event_log_accounts (H := Script.numpy_random) _ sample_engine_reachable)
    as (Hsc & Hcrash & _).
  split; [exact Hcrash |]. split; [exact Hsc |].
  repeat split; vm_compute; reflexivity.
Defined.

End EventRunExamples.

(** ** The order of the ranking *)

Section DictFacts.

Lemma get_elem_of {V : Type} (d : list (Z * V)) (k : Z) :
  k ∈ Dict.keys d <-> exists v, Dict.get d k = Ok v.
Proof.
  induction d as [| [k' v'] d IH]; simpl.
  - split; [intros Hin; by apply elem_of_nil in Hin | intros [v Hv]; discriminate].
  - change (Dict.keys ((k', v') :: d)) with (k' :: Dict.keys d).
    rewrite elem_of_cons. case_decide as Hk.
    + split; [intros _; by exists v' | intros _; left; congruence].
    + rewrite IH. split; [intros [? | ?]; [congruence | done] | by right].
Qed.

Lemma get_alter_eq {V : Type} (f : V -> V) (d : list (Z * V)) (k : Z) (v : V) :
  Dict.get d k = Ok v -> Dict.get (Dict.alter f k d) k = Ok (f v).
Proof.
  induction d as [| [k' v'] d IH]; simpl; [discriminate |].
  destruct (decide (k' = k)) as [-> | Hne]; simpl.
  - intros [= ->]. by rewrite decide_True.
  - rewrite decide_False by done. exact IH.
Qed.

Lemma get_alter_ne {V : Type} (f : V -> V) (d : list (Z * V)) (k k0 : Z) :
  k <> k0 -> Dict.get (Dict.alter f k0 d) k = Dict.get d k.
Proof.
  intros Hne. induction d as [| [k' v'] d IH]; simpl; [reflexivity |].
  destruct (decide (k' = k0)) as [-> | Hne0]; simpl.
  - rewrite !decide_False by congruence. exact IH.
  - destruct (decide (k' = k)); [reflexivity | exact IH].
Qed.

Lemma get_fmap {V : Type} (f : Z -> V -> V) (d : list (Z * V)) (k : Z) :
  Dict.get ((fun kv : Z * V => (kv.1, f kv.1 kv.2)) <$> d) k
  = match Dict.get d k with
    | Ok v => Ok (f k v)
    | Raise e => Raise e
    end.
Proof.
  induction d as [| [k' v'] d IH]; simpl; [reflexivity |].
  destruct (decide (k' = k)) as [-> | Hne]; [reflexivity | exact IH].
Qed.

(** The entry found under a key of a store without duplicate keys. *)
Lemma get_lookup {V : Type} (d : list (Z * V)) (i : nat) (k : Z) (v : V) :
  NoDup (Dict.keys d) -> d !! i = Some (k, v) -> Dict.get d k = Ok v.
Proof.
  revert i. induction d as [| [k' v'] d IH]; intros i Hnd Hi; [discriminate |].
  change (Dict.keys ((k', v') :: d)) with (k' :: Dict.keys d) in Hnd.
  apply NoDup_cons in Hnd as [Hk' Hnd]. simpl.
  destruct i as [| i]; simpl in Hi.
  - injection Hi as -> ->. by rewrite decide_True.
  - rewrite decide_False; [by eapply IH |].
    intros ->. apply Hk'. apply list_elem_of_fmap. exists (k, v).
    split; [reflexivity |]. by eapply list_elem_of_lookup_2.
Qed.

End DictFacts.

Section RankingOrder.

Import RaceSimulator Ranking.

Lemma key_lt_ahead (x y : Z * CarState.t) : key_lt x y = true <-> ahead y.2 x.2.
Proof.
  unfold key_lt, ahead.
  rewrite orb_true_iff, andb_true_iff, Z.ltb_lt, Z.eqb_eq, ltb_lt. tauto.
Qed.

Lemma key_lt_not_ahead (x y : Z * CarState.t) : key_lt x y = false <-> ~ ahead y.2 x.2.
Proof. rewrite <- key_lt_ahead. by destruct (key_lt x y). Qed.

Lemma key_lt_asym (x y : Z * CarState.t) : key_lt x y = true -> key_lt y x = false.
Proof.
  rewrite key_lt_ahead, key_lt_not_ahead. unfold ahead.
  intros [Hlt | [Heq Hlt]] [Hlt' | [Heq' Hlt']]; try lia. lra.
Qed.

Lemma key_lt_negtrans (x y z : Z * CarState.t) :
  key_lt x y = false -> key_lt y z = false -> key_lt x z = false.
Proof.
  rewrite !key_lt_not_ahead. unfold ahead. intros Hxy Hyz Hxz.
  destruct (Z.lt_trichotomy (CarState.lap x.2) (CarState.lap y.2)) as [? | [? | ?]];
    destruct (Z.lt_trichotomy (CarState.lap y.2) (CarState.lap z.2)) as [? | [? | ?]];
    try (apply Hxy; left; lia); try (apply Hyz; left; lia);
    destruct Hxz as [? | [? ?]]; try lia.
  destruct (Qlt_le_dec (CarState.track_distance x.2) (CarState.track_distance y.2));
    [apply Hxy; right; split; [lia | assumption] |].
  destruct (Qlt_le_dec (CarState.track_distance y.2) (CarState.track_distance z.2));
    [apply Hyz; right; split; [lia | assumption] |].
  lra.
Qed.

Lemma level_key_lt (x y : Z * CarState.t) :
  level x.2 y.2 <-> key_lt x y = false /\ key_lt y x = false.
Proof.
  rewrite !key_lt_not_ahead. unfold level, ahead. split.
  - intros [Hlap Hd]. split; intros [? | [? ?]]; try lia; lra.
  - intros [Hxy Hyx].
    destruct (Z.lt_trichotomy (CarState.lap x.2) (CarState.lap y.2)) as [? | [? | ?]];
      [exfalso; apply Hxy; left; lia | | exfalso; apply Hyx; left; lia].
    split; [assumption |].
    destruct (Qlt_le_dec (CarState.track_distance x.2) (CarState.track_distance y.2));
      [exfalso; apply Hxy; right; split; [lia | assumption] |].
    destruct (Qlt_le_dec (CarState.track_distance y.2) (CarState.track_distance x.2));
      [exfalso; apply Hyx; right; split; [lia | assumption] |].
    lra.
Qed.

Lemma earlier_cons (x a b : Z * CarState.t) (cs : list (Z * CarState.t)) :
  earlier cs a b -> earlier (x :: cs) a b.
Proof. intros (i & j & Hij & Hi & Hj). exists (S i), (S j). split; [lia | by split]. Qed.

Lemma earlier_head (x y : Z * CarState.t) (cs : list (Z * CarState.t)) :
  y ∈ cs -> earlier (x :: cs) x y.
Proof.
  intros Hin. apply list_elem_of_lookup in Hin as [j Hj].
  exists 0%nat, (S j). split; [lia | by split].
Qed.

Lemma precedes_cons (x a b : Z * CarState.t) (cs : list (Z * CarState.t)) :
  precedes cs a b -> precedes (x :: cs) a b.
Proof. intros [? | [? ?]]; [by left | right; split; [done | by apply earlier_cons]]. Qed.

Lemma ordered_impl {A : Type} (R1 R2 : A -> A -> Prop) (l : list A) :
  (forall a b, R1 a b -> R2 a b) -> ordered R1 l -> ordered R2 l.
Proof.
  intros Himpl. induction 1 as [| x l Hx _ IH]; constructor; [| exact IH].
  eapply Forall_impl; [exact Hx | apply Himpl].
Qed.

Lemma ordered_lookup {A : Type} (R : A -> A -> Prop) (l : list A) (i j : nat) (x y : A) :
  ordered R l -> (i < j)%nat -> l !! i = Some x -> l !! j = Some y -> R x y.
Proof.
  intros Hord. revert i j. induction Hord as [| z l Hz _ IH]; intros i j Hij Hi Hj;
    [discriminate |].
  destruct j as [| j]; [lia |]. simpl in Hj.
  destruct i as [| i]; simpl in Hi.
  - injection Hi as ->. rewrite Forall_forall in Hz.
    apply Hz. by eapply list_elem_of_lookup_2.
  - apply (IH i j); [lia | done | done].
Qed.

(** Insertion keeps a list sorted by [precedes]. *)
Lemma insert_sorted (cs sl : list (Z * CarState.t)) (x : Z * CarState.t) :
  ordered (precedes (x :: cs)) sl ->
  (forall y, y ∈ sl -> y ∈ cs) ->
  ordered (precedes (x :: cs)) (Sorted.insert (fun y x => key_lt x y) x sl).
Proof.
  intros Hsorted Hsub. induction sl as [| y sl IH]; simpl.
  - repeat constructor.
  - inversion Hsorted as [| y' sl' Hy Hsl]; subst.
    destruct (key_lt x y) eqn:Hxy.
    + constructor; [| apply IH; [exact Hsl | intros z Hz; apply Hsub; by right]].
      rewrite insert_perm. constructor; [by left | exact Hy].
    + constructor; [| by constructor].
      constructor.
      * right. split; [exact Hxy |]. apply earlier_head, Hsub. by left.
      * rewrite Forall_forall in Hy |- *. intros z Hz.
        right. split.
        -- apply (key_lt_negtrans x y z Hxy).
           destruct (Hy z Hz) as [Hzy | [Hyz _]]; [by apply key_lt_asym | exact Hyz].
        -- apply earlier_head, Hsub. by right.
Qed.

Lemma sorted_by_progress_sorted (cs : list (Z * CarState.t)) :
  ordered (precedes cs) (sorted_by_progress cs).
Proof.
  unfold sorted_by_progress.
  induction cs as [| x cs IH]; [constructor |].
  change (Sorted.sorted (fun y x => key_lt x y) (x :: cs))
    with (Sorted.insert (fun y x => key_lt x y) x
            (Sorted.sorted (fun y x => key_lt x y) cs)).
  apply insert_sorted.
  - eapply ordered_impl; [| exact IH]. intros a b. apply precedes_cons.
  - intros y Hy. by rewrite (sorted_perm _ cs) in Hy.
Qed.

End RankingOrder.

Section RankingFacts.

Import RaceSimulator Ranking.

Lemma keys_assign (ids : list Z) (p : Z) (acc : list (Z * CarState.t) * gmap Z Z) :
  Dict.keys (assign_positions p ids acc).1 = Dict.keys acc.1.
Proof.
  revert p acc. induction ids as [| k ids IH]; intros p acc; simpl; [reflexivity |].
  rewrite IH. simpl. apply keys_alter.
Qed.

Lemma assign_positions_other (ids : list Z) (p : Z) (cs : list (Z * CarState.t))
    (positions : gmap Z Z) (k : Z) :
  k ∉ ids ->
  Dict.get (assign_positions p ids (cs, positions)).1 k = Dict.get cs k
  /\ (assign_positions p ids (cs, positions)).2 !! k = positions !! k.
Proof.
  revert p cs positions. induction ids as [| k0 ids IH]; intros p cs positions Hk; simpl;
    [by split |].
  apply not_elem_of_cons in Hk as [Hne Hk].
  destruct (IH (p + 1) (Dict.alter (CarState.set_position p) k0 cs)
              (<[k0 := p]> positions) Hk) as [Hget Hpos].
  rewrite Hget, Hpos. split; [by apply get_alter_ne | by apply lookup_insert_ne].
Qed.

(** The car ranked at index [i] of the sorted ids gets the rank
    [p + i], in its record and in the mapping. *)
Lemma assign_positions_lookup (ids : list Z) (p : Z) (cs : list (Z * CarState.t))
    (positions : gmap Z Z) (i : nat) (k : Z) (c : CarState.t) :
  NoDup ids -> ids !! i = Some k -> Dict.get cs k = Ok c ->
  Dict.get (assign_positions p ids (cs, positions)).1 k
  = Ok (CarState.set_position (p + Z.of_nat i) c)
  /\ (assign_positions p ids (cs, positions)).2 !! k = Some (p + Z.of_nat i).
Proof.
  revert p cs positions i c.
  induction ids as [| k0 ids IH]; intros p cs positions i c Hnd Hi Hc; [discriminate |].
  apply NoDup_cons in Hnd as [Hk0 Hnd]. simpl.
  destruct i as [| i]; simpl in Hi.
  - injection Hi as ->.
    destruct (assign_positions_other ids (p + 1)
                (Dict.alter (CarState.set_position p) k cs) (<[k := p]> positions) k Hk0)
      as [Hget Hpos].
    rewrite Hget, Hpos, Z.add_0_r.
    split; [by apply get_alter_eq | by apply lookup_insert_eq].
  - assert (k <> k0) as Hne
      by (intros ->; apply Hk0; by eapply list_elem_of_lookup_2).
    destruct (IH (p + 1) (Dict.alter (CarState.set_position p) k0 cs)
                (<[k0 := p]> positions) i c Hnd Hi) as [Hget Hpos].
    { by rewrite get_alter_ne. }
    rewrite Hget, Hpos.
    replace (p + 1 + Z.of_nat i) with (p + Z.of_nat (S i)) by lia. by split.
Qed.

Lemma calculate_gap_frame (s : t) (leader : CarState.t) (k : Z) (c : CarState.t) :
  CarState.position (calculate_gap s leader k c) = CarState.position c
  /\ CarState.lap (calculate_gap s leader k c) = CarState.lap c
  /\ CarState.track_distance (calculate_gap s leader k c) = CarState.track_distance c
  /\ CarState.speed (calculate_gap s leader k c) = CarState.speed c
  /\ CarState.energy_remaining (calculate_gap s leader k c) = CarState.energy_remaining c
  /\ CarState.is_active (calculate_gap s leader k c) = CarState.is_active c.
Proof. unfold calculate_gap. destruct (negb _); repeat split. Qed.

(** What [_update_positions] makes of the car at index [i] of the
    sorted store. *)
Lemma update_positions_index (s s' : t) (i : nat) (k : Z) (c : CarState.t) :
  NoDup (Dict.keys (car_states s)) ->
  _update_positions s = Ok s' ->
  sorted_by_progress (car_states s) !! i = Some (k, c) ->
  exists c',
    Dict.get (car_states s') k = Ok c'
    /\ CarState.position c' = 1 + Z.of_nat i
    /\ RaceState.positions (race_state s') !! k = Some (1 + Z.of_nat i)
    /\ CarState.lap c' = CarState.lap c
    /\ CarState.track_distance c' = CarState.track_distance c
    /\ CarState.speed c' = CarState.speed c
    /\ CarState.energy_remaining c' = CarState.energy_remaining c
    /\ CarState.is_active c' = CarState.is_active c.
Proof.
  intros Hnd Hrun Hi.
  assert (sorted_by_progress (car_states s) ≡ₚ car_states s) as Hperm
    by apply sorted_perm.
  assert (NoDup (Dict.keys (sorted_by_progress (car_states s)))) as Hnd'
    by (unfold Dict.keys; by rewrite Hperm).
  assert (Dict.get (car_states s) k = Ok c) as Hget.
  { assert ((k, c) ∈ car_states s) as Hin
      by (rewrite <- Hperm; by eapply list_elem_of_lookup_2).
    apply list_elem_of_lookup in Hin as [j Hj]. by eapply get_lookup. }
  assert (Dict.keys (sorted_by_progress (car_states s)) !! i = Some k) as Hid
    by (unfold Dict.keys; by rewrite list_lookup_fmap, Hi).
  unfold _update_positions in Hrun.
  destruct (assign_positions_lookup _ 1 (car_states s)
              (RaceState.positions (race_state s)) i k c Hnd' Hid Hget) as [Hc Hp].
  destruct (assign_positions _ _ _) as [cs positions]. simpl in Hc, Hp.
  unfold _calculate_gaps in Hrun.
  match type of Hrun with
  | context [Dict.get ?a ?b] => destruct (Dict.get a b) as [leader |]
  end; simpl in Hrun; [| discriminate].
  injection Hrun as <-.
  assert (forall s0 : t,
            exists c',
              Dict.get ((fun kv : Z * CarState.t =>
                           (kv.1, calculate_gap s0 leader kv.1 kv.2)) <$> cs) k = Ok c'
              /\ CarState.position c' = 1 + Z.of_nat i
              /\ CarState.lap c' = CarState.lap c
              /\ CarState.track_distance c' = CarState.track_distance c
              /\ CarState.speed c' = CarState.speed c
              /\ CarState.energy_remaining c' = CarState.energy_remaining c
              /\ CarState.is_active c' = CarState.is_active c) as Hgap.
  { intros s0. rewrite (get_fmap (calculate_gap s0 leader)), Hc.
    eexists. split; [reflexivity |].
    destruct (calculate_gap_frame s0 leader k
                (CarState.set_position (1 + Z.of_nat i) c))
      as (-> & -> & -> & -> & -> & ->).
    repeat split. }
  destruct (sorted_by_progress (car_states s)) as [| [a b] l]; simpl;
    match goal with
    | |- context [calculate_gap ?s0 leader] => destruct (Hgap s0) as (c' & Hc' & Hrest)
    end;
    exists c'; (split; [exact Hc' |]); destruct Hrest as (? & ? & ? & ? & ? & ?);
    repeat split; assumption.
Qed.

(** X22: [_update_positions] ranks by progress.  Of two cars of a store
    without duplicate ids, the one with more laps, or with as many laps
    and more distance on the lap, gets the smaller rank, retired or
    not; of two cars level on both counts, the one that comes first in
    the store gets the smaller rank. *)
Theorem update_positions_order (s s' : t) (i j : nat) (k1 k2 : Z)
    (c1 c2 c1' c2' : CarState.t) :
  NoDup (Dict.keys (car_states s)) ->
  _update_positions s = Ok s' ->
  car_states s !! i = Some (k1, c1) ->
  car_states s !! j = Some (k2, c2) ->
  Dict.get (car_states s') k1 = Ok c1' ->
  Dict.get (car_states s') k2 = Ok c2' ->
  ahead c1 c2 \/ (level c1 c2 /\ (i < j)%nat) ->
  CarState.position c1' < CarState.position c2'.
Proof.
  intros Hnd Hrun Hi Hj Hc1 Hc2 Horder.
  assert (sorted_by_progress (car_states s) ≡ₚ car_states s) as Hperm
    by apply sorted_perm.
  assert (NoDup (car_states s)) as Hnd' by (by eapply NoDup_fmap_1).
  assert ((k1, c1) ∈ sorted_by_progress (car_states s)) as Hin1
    by (rewrite Hperm; by eapply list_elem_of_lookup_2).
  assert ((k2, c2) ∈ sorted_by_progress (car_states s)) as Hin2
    by (rewrite Hperm; by eapply list_elem_of_lookup_2).
  apply list_elem_of_lookup in Hin1 as [a Ha].
  apply list_elem_of_lookup in Hin2 as [b Hb].
  destruct (update_positions_index s s' a k1 c1 Hnd Hrun Ha) as (x1 & Hx1 & Hr1 & _).
  destruct (update_positions_index s s' b k2 c2 Hnd Hrun Hb) as (x2 & Hx2 & Hr2 & _).
  rewrite Hc1 in Hx1. rewrite Hc2 in Hx2.
  injection Hx1 as ->. injection Hx2 as ->. rewrite Hr1, Hr2.
  assert (key_lt (k2, c2) (k1, c1) = true
          \/ (key_lt (k1, c1) (k2, c2) = false /\ key_lt (k2, c2) (k1, c1) = false
              /\ (i < j)%nat)) as Hkeys.
  { destruct Horder as [Hahead | [Hlevel Hij]].
    - left. by apply key_lt_ahead.
    - right. apply (level_key_lt (k1, c1) (k2, c2)) in Hlevel. tauto. }
  destruct (lt_eq_lt_dec a b) as [[Hab | Hab] | Hab]; [lia | |].
  - exfalso. subst b. rewrite Ha in Hb. injection Hb as <- <-.
    destruct Hkeys as [Hlt | (_ & _ & Hij)].
    + pose proof (key_lt_asym _ _ Hlt). congruence.
    + pose proof (NoDup_lookup _ _ _ _ Hnd' Hi Hj). lia.
  - exfalso.
    pose proof (ordered_lookup _ _ b a _ _ (sorted_by_progress_sorted (car_states s))
                  Hab Hb Ha) as [Hlt | [Hnlt (i' & j' & Hij' & Hi' & Hj')]].
    + destruct Hkeys as [Hlt' | (Hnlt & _)]; [| congruence].
      pose proof (key_lt_asym _ _ Hlt). congruence.
    + destruct Hkeys as [Hlt' | (_ & _ & Hij)]; [congruence |].
      pose proof (NoDup_lookup _ _ _ _ Hnd' Hi Hj').
      pose proof (NoDup_lookup _ _ _ _ Hnd' Hj Hi'). lia.
Qed.

(** X23: after [_update_positions] on a store without duplicate ids the
    ranks of the cars are the numbers 1 to N, each once; the mapping of
    the race state holds the rank of every car; the leader recorded in
    the race state is the car of rank 1; and the ranking has changed
    neither lap, distance, speed, energy nor active flag of any car. *)
Theorem update_positions_bookkeeping (s s' : t) :
  NoDup (Dict.keys (car_states s)) ->
  _update_positions s = Ok s' ->
  ranks (car_states s') ≡ₚ seqZ 1 (Z.of_nat (length (car_states s)))
  /\ Dict.keys (car_states s') = Dict.keys (car_states s)
  /\ (forall k c c',
        Dict.get (car_states s) k = Ok c ->
        Dict.get (car_states s') k = Ok c' ->
        RaceState.positions (race_state s') !! k = Some (CarState.position c')
        /\ CarState.lap c' = CarState.lap c
        /\ CarState.track_distance c' = CarState.track_distance c
        /\ CarState.speed c' = CarState.speed c
        /\ CarState.energy_remaining c' = CarState.energy_remaining c
        /\ CarState.is_active c' = CarState.is_active c)
  /\ exists c, Dict.get (car_states s') (RaceState.leader_id (race_state s')) = Ok c
               /\ CarState.position c = 1.
Proof.
  intros Hnd Hrun.
  assert (sorted_by_progress (car_states s) ≡ₚ car_states s) as Hperm
    by apply sorted_perm.
  split; [by apply update_positions_ranks |].
  split.
  { revert Hrun. unfold _update_positions.
    pose proof (keys_assign (Dict.keys (sorted_by_progress (car_states s))) 1
                  (car_states s, RaceState.positions (race_state s))) as Hkeys.
    destruct (assign_positions _ _ _) as [cs positions]. simpl in Hkeys.
    unfold _calculate_gaps.
    destruct (Dict.get _ _) as [leader |]; simpl; [| discriminate].
    intros [= <-].
    destruct (sorted_by_progress (car_states s)) as [| [a b] l]; simpl;
      rewrite <- Hkeys; unfold Dict.keys; rewrite <- list_fmap_compose;
      by apply list_fmap_ext. }
  split.
  { intros k c c' Hc Hc'.
    assert ((k, c) ∈ sorted_by_progress (car_states s)) as Hin.
    { rewrite Hperm. clear -Hc. induction (car_states s) as [| [k' v'] d IH];
        simpl in Hc; [discriminate |].
      destruct (decide (k' = k)) as [-> | Hne];
        [injection Hc as ->; by left | right; by apply IH]. }
    apply list_elem_of_lookup in Hin as [i Hi].
    destruct (update_positions_index s s' i k c Hnd Hrun Hi)
      as (x & Hx & Hpos & Hmap & Hrest).
    rewrite Hc' in Hx. injection Hx as ->. rewrite Hpos. split; [exact Hmap | exact Hrest]. }
  destruct (sorted_by_progress (car_states s)) as [| [leader c0] l] eqn:Hsorted.
  { exfalso. revert Hrun. unfold _update_positions. rewrite Hsorted. simpl.
    apply Permutation_nil_l in Hperm. rewrite <- Hperm. discriminate. }
  assert (RaceState.leader_id (race_state s') = leader) as ->.
  { revert Hrun. unfold _update_positions. rewrite Hsorted.
    destruct (assign_positions _ _ _) as [cs positions].
    unfold _calculate_gaps.
    destruct (Dict.get _ _) as [ld |]; simpl; [| discriminate].
    by intros [= <-]. }
  destruct (update_positions_index s s' 0 leader c0 Hnd Hrun)
    as (x & Hx & Hpos & _); [by rewrite Hsorted |].
  exists x. split; [exact Hx | exact Hpos].
Qed.

(** X24: [_update_positions] raises in one case only: the store holds
    no car, and the exception is then the KeyError of the leader lookup
    in [_calculate_gaps]. *)
Theorem update_positions_raises (s : t) (e : exn) :
  _update_positions s = Raise e <-> car_states s = [] /\ e = KeyError.
Proof.
  assert (sorted_by_progress (car_states s) ≡ₚ car_states s) as Hperm
    by apply sorted_perm.
  unfold _update_positions.
  pose proof (keys_assign (Dict.keys (sorted_by_progress (car_states s))) 1
                (car_states s, RaceState.positions (race_state s))) as Hkeys.
  destruct (sorted_by_progress (car_states s)) as [| [leader c0] l] eqn:Hsorted.
  - apply Permutation_nil_l in Hperm. rewrite <- Hperm. simpl.
    split; [intros [= <-]; by split | by intros [_ ->]].
  - destruct (assign_positions _ _ _) as [cs positions]. simpl in Hkeys.
    split; [| intros [Hnil _]; rewrite Hnil in Hperm;
              by apply Permutation_nil_r in Hperm].
    unfold _calculate_gaps. simpl.
    assert (leader ∈ Dict.keys cs) as Hin.
    { rewrite Hkeys. unfold Dict.keys. rewrite <- Hperm. simpl. by left. }
    apply get_elem_of in Hin as [c Hc]. rewrite Hc. discriminate.
Qed.

End RankingFacts.

Section RankingExamples.

Import RaceSimulator Ranking.

Lemma sample_store_nodup : NoDup (Dict.keys (car_states SampleRace.retired_leader)).
Proof.
  change (NoDup [0; 1; 2]).
  repeat (apply NoDup_cons; split;
          [rewrite ?not_elem_of_cons; repeat split; try lia; apply not_elem_of_nil |]).
  apply NoDup_nil_2.
Defined.

Lemma sample_store_ranked :
  _update_positions SampleRace.retired_leader = Ok SampleRace.ranked.
Proof. vm_compute. reflexivity. Defined.

Lemma update_positions_order_witness :
  exists c1' c2',
    Dict.get (car_states SampleRace.ranked) 1 = Ok c1'
    /\ Dict.get (car_states SampleRace.ranked) 2 = Ok c2'
    /\ CarState.position c1' < CarState.position c2'.
Proof.
  eexists _, _. split; [vm_compute; reflexivity |]. split; [vm_compute; reflexivity |].
  eapply (update_positions_order SampleRace.retired_leader SampleRace.ranked 1 2 1 2
            (SampleRace.car 1 2 3 1500.0 50.0 2000000.0 true).2
            (SampleRace.car 2 3 3 1400.0 50.0 2000000.0 true).2).
  - exact sample_store_nodup.
  - exact sample_store_ranked.
  - reflexivity.
  - reflexivity.
  - vm_compute. reflexivity.
  - vm_compute. reflexivity.
  - left. right. split; [reflexivity | vm_compute; reflexivity].
Defined.

Lemma update_positions_bookkeeping_witness :
  ranks (car_states SampleRace.ranked) ≡ₚ [1; 2; 3].
Proof.
  apply (update_positions_bookkeeping SampleRace.retired_leader SampleRace.ranked
           sample_store_nodup sample_store_ranked).
Defined.

End RankingExamples.

(** ** Ranks through the overtaking check *)

Section OvertakingRanks.

Import RaceSimulator RaceRuns Ranking RankSteps.
Context `{NumpyRandom}.

Lemma reranked_refl (cs : list (Z * CarState.t)) : reranked cs cs.
Proof.
  induction cs as [| kv cs IH]; constructor; [| exact IH].
  split; [reflexivity |]. split; [apply same_but_position_refl | reflexivity].
Qed.

Lemma reranked_trans (cs1 cs2 cs3 : list (Z * CarState.t)) :
  reranked cs1 cs2 -> reranked cs2 cs3 -> reranked cs1 cs3.
Proof.
  intros H12. revert cs3.
  induction H12 as [| x y l1 l2 (Hk & Hs & Hi) _ IH]; intros cs3 H23.
  - inversion H23. constructor.
  - inversion H23 as [| y' z l2' l3 (Hk' & Hs' & Hi') Hrest]; subst.
    constructor; [| apply IH, Hrest].
    split; [congruence |]. split.
    + unfold same_but_position in *. rewrite Hs' at 1. rewrite Hs at 1. reflexivity.
    + intros Hin. rewrite Hi', (Hi Hin); [reflexivity |]. by rewrite (Hi Hin).
Qed.

Lemma reranked_keys (cs cs' : list (Z * CarState.t)) :
  reranked cs cs' -> Dict.keys cs' = Dict.keys cs.
Proof.
  induction 1 as [| x y l1 l2 (Hk & _) _ IH]; [reflexivity |].
  unfold Dict.keys in *. rewrite !fmap_cons. by rewrite Hk, IH.
Qed.

Lemma reranked_racing (cs cs' : list (Z * CarState.t)) (k : Z) :
  reranked cs cs' -> racing cs k -> racing cs' k.
Proof.
  intros Hre (c & Hc & Hact). revert Hc.
  induction Hre as [| [k1 c1] [k2 c2] l1 l2 (Hk & Hs & _) _ IH]; simpl;
    [discriminate |].
  simpl in Hk. subst k2. destruct (decide (k1 = k)) as [-> | Hne].
  - intros [= ->]. exists c2. simpl. rewrite decide_True by done.
    split; [reflexivity |].
    unfold same_but_position in Hs. simpl in Hs. rewrite Hs. simpl. exact Hact.
  - intros Hc. destruct (IH Hc) as (c' & Hc' & Hact').
    exists c'. simpl. rewrite decide_False by done. by split.
Qed.

(** Giving the rank [p] to a racing car. *)
Lemma alter_reranked (p k : Z) (cs : list (Z * CarState.t)) :
  NoDup (Dict.keys cs) -> racing cs k ->
  reranked cs (Dict.alter (CarState.set_position p) k cs).
Proof.
  intros Hnd (c & Hc & Hact).
  assert (forall k' c', (k', c') ∈ cs -> k' = k -> c' = c) as Huniq.
  { intros k' c' Hin ->. apply list_elem_of_lookup in Hin as [i Hi].
    pose proof (get_lookup cs i k c' Hnd Hi). congruence. }
  clear Hnd Hc. induction cs as [| [k' c'] cs IH]; simpl; [constructor |].
  constructor.
  - simpl. case_decide as Hk; simpl.
    + split; [reflexivity |]. split; [reflexivity |].
      intros Hin. rewrite (Huniq k' c') in Hin; [congruence | by left | exact Hk].
    + split; [reflexivity |]. split; [apply same_but_position_refl | reflexivity].
  - apply IH. intros k2 c2 Hin. apply Huniq. by right.
Qed.

(** The rank the car under [k] had is freed, the rank [p] is taken. *)
Lemma alter_ranks (p k : Z) (cs : list (Z * CarState.t)) (c : CarState.t) :
  NoDup (Dict.keys cs) -> Dict.get cs k = Ok c ->
  CarState.position c :: ranks (Dict.alter (CarState.set_position p) k cs)
  ≡ₚ p :: ranks cs.
Proof.
  intros Hnd Hc. induction cs as [| [k' c'] cs IH]; simpl in *; [discriminate |].
  change (Dict.keys ((k', c') :: cs)) with (k' :: Dict.keys cs) in Hnd.
  apply NoDup_cons in Hnd as [Hk' Hnd].
  destruct (decide (k' = k)) as [-> | Hne]; simpl.
  - injection Hc as ->. rewrite alter_absent by done.
    unfold ranks. simpl. apply Permutation_swap.
  - unfold ranks in *. simpl. rewrite Permutation_swap, (IH Hnd Hc).
    apply Permutation_swap.
Qed.

Lemma swap_positions_ranks (a d : Z) (cs cs' : list (Z * CarState.t)) :
  NoDup (Dict.keys cs) -> racing cs a -> racing cs d ->
  swap_positions a d cs = Ok cs' ->
  ranks cs' ≡ₚ ranks cs /\ reranked cs cs'.
Proof.
  intros Hnd Ha Hd. unfold swap_positions.
  destruct (Dict.get cs a) as [ca |] eqn:Hca; simpl; [| discriminate].
  destruct (Dict.get cs d) as [cd |] eqn:Hcd; simpl; [| discriminate].
  intros [= <-].
  set (cs1 := Dict.alter (CarState.set_position (CarState.position cd)) a cs).
  assert (reranked cs cs1) as Hre1 by (by apply alter_reranked).
  assert (NoDup (Dict.keys cs1)) as Hnd1 by (unfold cs1; by rewrite keys_alter).
  split.
  - pose proof (alter_ranks (CarState.position cd) a cs ca Hnd Hca) as H1.
    fold cs1 in H1.
    assert (exists cd1, Dict.get cs1 d = Ok cd1
                        /\ CarState.position cd1 = CarState.position cd)
      as (cd1 & Hcd1 & Hpos).
    { unfold cs1. destruct (decide (d = a)) as [-> | Hne].
      - rewrite (get_alter_eq _ _ _ _ Hca). by eexists.
      - rewrite get_alter_ne by done. by exists cd. }
    pose proof (alter_ranks (CarState.position ca) d cs1 cd1 Hnd1 Hcd1) as H2.
    rewrite Hpos, H1 in H2. by apply Permutation_cons_inv in H2.
  - eapply reranked_trans; [exact Hre1 |].
    apply alter_reranked; [exact Hnd1 |]. by eapply reranked_racing.
Qed.

(** An attempt appends at most one record to the history. *)
Lemma attempt_history_grows (self : OvertakingModel.t) (attacker defender : Z)
    (attacker_speed defender_speed gap_seconds track_position : Q)
    (attacker_am defender_am : bool) (ts : Q) (g : rng)
    (res : OvertakingModel.Outcome) (self' : OvertakingModel.t) (g' : rng) :
  OvertakingModel.attempt_overtake self attacker defender attacker_speed defender_speed
    gap_seconds track_position attacker_am defender_am ts g = Ok (res, self', g') ->
  exists new,
    OvertakingModel.overtaking_history self'
    = OvertakingModel.overtaking_history self ++ new
    /\ (length new <= 1)%nat.
Proof.
  unfold OvertakingModel.attempt_overtake.
  destruct (Py.ltb _ (OvertakingModel.min_speed_diff self)).
  - intros Heq. injection Heq as _ <- _. exists []. rewrite app_nil_r.
    split; [reflexivity | simpl; lia].
  - destruct (random g) as [u g1].
    destruct (if Py.ltb u _ then _ else _) as [gain |]; simpl; [| discriminate].
    intros Heq. injection Heq as _ <- _. simpl.
    eexists. split; [reflexivity | simpl; lia].
Qed.

(** What one pair check leaves in place. *)
Lemma check_pair_ranks (defender attacker : Z * CarState.t) (s s' : t) (g g' : rng) :
  NoDup (Dict.keys (car_states s)) ->
  racing (car_states s) attacker.1 -> racing (car_states s) defender.1 ->
  check_pair defender attacker s g = Ok (s', g') ->
  ranks (car_states s') ≡ₚ ranks (car_states s)
  /\ reranked (car_states s) (car_states s')
  /\ race_state s' = race_state s
  /\ attack_mode_manager s' = attack_mode_manager s
  /\ race_events s' = race_events s
  /\ exists new,
       OvertakingModel.overtaking_history (overtaking s')
       = OvertakingModel.overtaking_history (overtaking s) ++ new
       /\ (length new <= 1)%nat.
Proof.
  intros Hnd Ha Hd. unfold check_pair.
  destruct attacker as [a ca], defender as [d cd]. simpl in Ha, Hd.
  assert (forall x : list OvertakingModel.OvertakingAttempt,
            exists new, x = x ++ new /\ (length new <= 1)%nat) as Hnone
    by (intros x; exists []; rewrite app_nil_r; split; [reflexivity | simpl; lia]).
  destruct (_ && _);
    [| intros [= <- <-]; repeat split; auto using reranked_refl].
  destruct (OvertakingModel.attempt_overtake _ _ _ _ _ _ _ _ _ _ _)
    as [[[result ov] g1] |] eqn:Hatt; simpl; [| discriminate].
  pose proof (attempt_history_grows _ _ _ _ _ _ _ _ _ _ _ _ _ _ Hatt) as Hnew.
  destruct (OvertakingModel.res_success result).
  - destruct (swap_positions _ _ _) as [cs |] eqn:Hswap; simpl; [| discriminate].
    intros [= <- <-]. simpl in *.
    destruct (swap_positions_ranks a d _ cs Hnd Ha Hd Hswap) as [Hperm Hre].
    repeat split; assumption.
  - intros [= <- <-]. simpl. repeat split; auto using reranked_refl.
Qed.

Lemma overtaking_loop_ranks (sorted_cars : list (Z * CarState.t)) (s s' : t)
    (g g' : rng) :
  NoDup (Dict.keys (car_states s)) ->
  Forall (fun kv => racing (car_states s) kv.1) sorted_cars ->
  overtaking_loop sorted_cars s g = Ok (s', g') ->
  ranks (car_states s') ≡ₚ ranks (car_states s)
  /\ reranked (car_states s) (car_states s')
  /\ race_state s' = race_state s
  /\ attack_mode_manager s' = attack_mode_manager s
  /\ race_events s' = race_events s
  /\ exists new,
       OvertakingModel.overtaking_history (overtaking s')
       = OvertakingModel.overtaking_history (overtaking s) ++ new
       /\ (length new <= length sorted_cars - 1)%nat.
Proof.
  revert s g. induction sorted_cars as [| defender rest IH]; intros s g Hnd Hall; simpl.
  - intros [= <- <-]. repeat split; auto using reranked_refl.
    exists []. by rewrite app_nil_r.
  - destruct rest as [| attacker rest'].
    + intros [= <- <-]. repeat split; auto using reranked_refl.
      exists []. by rewrite app_nil_r.
    + apply Forall_cons in Hall as [Hd Hrest].
      pose proof (Forall_inv Hrest) as Ha.
      destruct (check_pair defender attacker s g) as [[s1 g1] |] eqn:Hpair;
        simpl; [| discriminate].
      destruct (check_pair_ranks _ _ _ _ _ _ Hnd Ha Hd Hpair)
        as (Hp1 & Hr1 & Hs1 & Hm1 & He1 & new1 & Hn1 & Hl1).
      intros Hloop. apply IH in Hloop as (Hp2 & Hr2 & Hs2 & Hm2 & He2 & new2 & Hn2 & Hl2).
      * split; [by rewrite Hp2 |].
        split; [eapply reranked_trans; eassumption |].
        split; [congruence |]. split; [congruence |]. split; [congruence |].
        exists (new1 ++ new2). rewrite Hn2, Hn1, app_assoc, length_app.
        split; [reflexivity |]. simpl in *. lia.
      * by rewrite (reranked_keys _ _ Hr1).
      * eapply Forall_impl; [exact Hrest |]. intros kv Hkv.
        by eapply reranked_racing.
Qed.

(** X25: the overtaking check swaps ranks and does nothing else to the
    cars.  On a store without duplicate ids the ranks after the check
    are the ranks before it, in another order at most; every car keeps
    its key, its place in the store and every attribute but its rank;
    a retired car keeps its rank too; the race state, with its mapping
    of positions and its leader, is not touched, even when two cars
    have swapped ranks; and the overtaking history has grown by at most
    one attempt for each pair of neighbours among the racing cars. *)
Theorem check_overtaking_ranks (s s' : t) (g g' : rng) :
  NoDup (Dict.keys (car_states s)) ->
  _check_overtaking s g = Ok (s', g') ->
  ranks (car_states s') ≡ₚ ranks (car_states s)
  /\ reranked (car_states s) (car_states s')
  /\ race_state s' = race_state s
  /\ exists new,
       OvertakingModel.overtaking_history (overtaking s')
       = OvertakingModel.overtaking_history (overtaking s) ++ new
       /\ (length new
           <= length (filter (fun kv : Z * CarState.t => CarState.is_active kv.2 = true)
                        (car_states s)) - 1)%nat.
Proof.
  intros Hnd Hrun. unfold _check_overtaking in Hrun.
  apply overtaking_loop_ranks in Hrun as (Hp & Hr & Hs & _ & _ & new & Hn & Hl);
    [| exact Hnd |].
  - split; [exact Hp |]. split; [exact Hr |]. split; [exact Hs |].
    exists new. split; [exact Hn |].
    unfold sorted_by_progress in Hl.
    by rewrite (Permutation_length (sorted_perm _ _)) in Hl.
  - apply Forall_forall. intros [k c] Hin. simpl.
    unfold sorted_by_progress in Hin. rewrite (sorted_perm _ _) in Hin.
    apply list_elem_of_filter in Hin as [Hact Hin]. simpl in Hact.
    apply list_elem_of_lookup in Hin as [i Hi].
    exists c. split; [by eapply get_lookup | exact Hact].
Qed.

End OvertakingRanks.

Section OvertakingRanksExamples.

Import RaceSimulator RaceRuns Ranking RankSteps.

(** Car 1 passes car 0 and the two swap ranks; the attempt of car 2
    fails.  The race state still names car 0 as the leader. *)
Lemma check_overtaking_ranks_witness :
  exists s' g',
    duel_check = Ok (s', g')
    /\ SampleRace.standings SampleRace.duel
       = [(0, 1, true); (1, 2, true); (2, 3, true)]
    /\ SampleRace.standings s' = [(0, 2, true); (1, 1, true); (2, 3, true)]
    /\ length (OvertakingModel.overtaking_history (overtaking s')) = 2%nat
    /\ ranks (car_states s') ≡ₚ ranks (car_states SampleRace.duel)
    /\ race_state s' = race_state SampleRace.duel
    /\ RaceState.leader_id (race_state s') = 0.
Proof.
  assert (match duel_check with
          | Ok (s', _) =>
              Some (SampleRace.standings s',
                    length (OvertakingModel.overtaking_history (overtaking s')))
          | Raise _ => None
          end = Some ([(0, 2, true); (1, 1, true); (2, 3, true)], 2%nat)) as Hobs
    by (vm_compute; reflexivity).
  destruct duel_check as [[s' g'] |] eqn:Hrun; [| discriminate Hobs].
  injection Hobs as Hstandings Hlength.
  exists s', g'. split; [reflexivity |].
  split; [vm_compute; reflexivity |].
  split; [exact Hstandings |]. split; [exact Hlength |].
  destruct (check_overtaking_ranks (H := Script.numpy_random) SampleRace.duel s'
              [100; 900] g') as (Hp & _ & Hs & _).
  - change (NoDup [0; 1; 2]).
    repeat (apply NoDup_cons; split;
            [rewrite ?not_elem_of_cons; repeat split; try lia; apply not_elem_of_nil |]).
    apply NoDup_nil_2.
  - exact Hrun.
  - split; [exact Hp |]. split; [exact Hs |]. rewrite Hs. vm_compute. reflexivity.
Defined.

End OvertakingRanksExamples.

(** ** What a race leaves in place *)

Section LoopFrames.

Import RaceSimulator RaceRuns StoreSteps.
Context `{NumpyRandom}.

(** One iteration of the loop: the clock advances, and everything else
    is a [sim_step]. *)
Lemma loop_body_sim_step (s s' : t) (lf lf' fin : bool) (g g' : rng) :
  loop_body s lf g = Ok (s', fin, lf', g') ->
  sim_step
    (set_race_state
       (RaceState.set_race_time (RaceState.race_time (race_state s) + time_step s)%Q
          (race_state s)) s) s'.
Proof.
  unfold loop_body.
  set (s0 := set_race_state _ s).
  destruct (if Py.leb _ _ then _ else _) as [fin0 lf0].
  destruct (_update_race_events s0 g) as [[s1 g1] |] eqn:H1; simpl; [| discriminate].
  destruct (_update_cars s1) as [s2 |] eqn:H2; simpl; [| discriminate].
  destruct (_update_positions s2) as [s3 |] eqn:H3; simpl; [| discriminate].
  destruct (_check_overtaking s3 g1) as [[s4 g4] |] eqn:H4; simpl; [| discriminate].
  intros [= <- <- <- <-].
  assert (sim_step s0 (_check_lap_completion (_update_attack_modes s4))) as Hstep.
  { eapply sim_step_trans; [eapply update_race_events_step, H1 |].
    eapply sim_step_trans; [eapply update_cars_step, H2 |].
    eapply sim_step_trans; [eapply update_positions_step, H3 |].
    eapply sim_step_trans; [eapply check_overtaking_step, H4 |].
    eapply sim_step_trans; [apply update_attack_modes_step |].
    apply check_lap_completion_step. }
  destruct (_ =? 0); [| exact Hstep].
  eapply sim_step_trans; [exact Hstep | apply store_history_step].
Qed.

End LoopFrames.

(** A relation between car records that the assignments of the loop
    respect holds between the stores of any two points of a race. *)
Section StoreRelation.

Import RaceSimulator RaceRuns StoreSteps.
Context `{NumpyRandom}.
Variable R : CarState.t -> CarState.t -> Prop.
Hypothesis R_refl : forall c, R c c.
Hypothesis R_trans : forall a b c, R a b -> R b c -> R a c.
Hypothesis R_position : forall p c, R c (CarState.set_position p c).
Hypothesis R_gaps : forall a b d c, R c (CarState.set_gaps a b d c).
Hypothesis R_deactivate : forall c, R c (CarState.deactivate c).
Hypothesis R_lap :
  forall c, CarState.is_active c = true ->
            R c (CarState.set_lap (CarState.lap c + 1) c).
Variable Pre : RaceSimulator.t -> Prop.
Hypothesis Pre_step : forall s s', sim_step s s' -> Pre s -> Pre s'.
Hypothesis Pre_clock :
  forall s x, Pre s -> Pre (set_race_state (RaceState.set_race_time x (race_state s)) s).
Hypothesis R_update :
  forall s v k c c', Pre s -> update_car s v k c = Ok c' -> R c c'.

Lemma related_refl (cs : list (Z * CarState.t)) : related R cs cs.
Proof.
  unfold related. induction cs; constructor; [split; [done | apply R_refl] | done].
Qed.

Lemma related_trans (cs1 cs2 cs3 : list (Z * CarState.t)) :
  related R cs1 cs2 -> related R cs2 cs3 -> related R cs1 cs3.
Proof.
  unfold related. intros H12. revert cs3.
  induction H12 as [| x y l1 l2 [Hk Hc] _ IH]; intros cs3 H23.
  - inversion H23. constructor.
  - inversion H23 as [| y' z l2' l3 [Hk' Hc'] Hrest]; subst.
    constructor; [split; [congruence | eapply R_trans; eassumption] |].
    apply IH, Hrest.
Qed.

Lemma related_alter (f : CarState.t -> CarState.t) (k : Z) (cs : list (Z * CarState.t)) :
  (forall c, R c (f c)) -> related R cs (Dict.alter f k cs).
Proof.
  unfold related. intros Hf.
  induction cs as [| [k' c] cs IH]; simpl; constructor; [| exact IH].
  simpl. case_decide; simpl; split; auto.
Qed.

Lemma related_map (f : Z -> CarState.t -> CarState.t) (cs : list (Z * CarState.t)) :
  (forall k c, R c (f k c)) ->
  related R cs ((fun kv : Z * CarState.t => (kv.1, f kv.1 kv.2)) <$> cs).
Proof.
  unfold related. intros Hf.
  induction cs as [| [k c] cs IH]; simpl; constructor; [| exact IH].
  simpl. split; [done | apply Hf].
Qed.

Lemma related_for_each (f : Z -> CarState.t -> Result CarState.t)
    (cs cs' : list (Z * CarState.t)) :
  (forall k c c', f k c = Ok c' -> R c c') ->
  for_each_car f cs = Ok cs' -> related R cs cs'.
Proof.
  unfold related. intros Hf. revert cs'.
  induction cs as [| [k c] cs IH]; simpl; intros cs' Hrun.
  - injection Hrun as <-. constructor.
  - destruct (f k c) as [c1 |] eqn:Hc; simpl in Hrun; [| discriminate].
    destruct (for_each_car f cs) as [rest |]; simpl in Hrun; [| discriminate].
    injection Hrun as <-. constructor; [split; [done | eapply Hf, Hc] |].
    by apply IH.
Qed.

Lemma related_handle_crashes (crashes : list Z) (cs : list (Z * CarState.t)) :
  related R cs (handle_crashes crashes cs).
Proof.
  revert cs. induction crashes as [| k crashes IH]; intros cs; simpl.
  - apply related_refl.
  - eapply related_trans; [| apply IH]. apply related_alter, R_deactivate.
Qed.

Lemma related_update_race_events (s s' : t) (g g' : rng) :
  _update_race_events s g = Ok (s', g') -> related R (car_states s) (car_states s').
Proof.
  unfold _update_race_events.
  destruct (_last_lap_checked s) as [last |]; simpl.
  - destruct (negb _); simpl.
    + destruct (RaceEvents.check_lap_events _ _ _ _ g) as [[events re] g1].
      destruct (RaceEvents.weather_changed events); simpl.
      * destruct (Py.div _ _) as [ratio |]; simpl; [| discriminate].
        destruct (RaceEvents.update_safety_car _ _) as [changed re'].
        intros [= <- <-]. simpl. apply related_handle_crashes.
      * destruct (RaceEvents.update_safety_car _ _) as [changed re'].
        intros [= <- <-]. simpl. apply related_handle_crashes.
    + destruct (RaceEvents.update_safety_car _ _) as [changed re'].
      intros [= <- <-]. simpl. apply related_refl.
  - destruct (RaceEvents.update_safety_car _ _) as [changed re'].
    intros [= <- <-]. simpl. apply related_refl.
Qed.

Lemma related_update_cars (s s' : t) :
  Pre s -> _update_cars s = Ok s' -> related R (car_states s) (car_states s').
Proof.
  intros HP. unfold _update_cars.
  destruct (for_each_car _ _) as [cs |] eqn:Hrun; simpl; [| discriminate].
  intros [= <-]. simpl. eapply related_for_each; [| exact Hrun].
  intros k c c'. by apply R_update.
Qed.

Lemma related_assign_positions (ids : list Z) (p : Z)
    (acc : list (Z * CarState.t) * gmap Z Z) :
  related R acc.1 (assign_positions p ids acc).1.
Proof.
  revert p acc. induction ids as [| k ids IH]; intros p acc; simpl.
  - apply related_refl.
  - eapply related_trans; [| apply IH]. simpl.
    apply related_alter. intros c. apply R_position.
Qed.

Lemma related_calculate_gap (s : t) (leader : CarState.t) (k : Z) (c : CarState.t) :
  R c (calculate_gap s leader k c).
Proof. unfold calculate_gap. destruct (negb _); [apply R_refl | apply R_gaps]. Qed.

Lemma related_update_positions (s s' : t) :
  _update_positions s = Ok s' -> related R (car_states s) (car_states s').
Proof.
  unfold _update_positions.
  pose proof (related_assign_positions (Dict.keys (sorted_by_progress (car_states s))) 1
                (car_states s, RaceState.positions (race_state s))) as Hassign.
  destruct (assign_positions _ _ _) as [cs positions]. simpl in Hassign.
  unfold _calculate_gaps.
  destruct (Dict.get _ _) as [leader |]; simpl; [| discriminate].
  intros [= <-].
  eapply related_trans; [exact Hassign |].
  destruct (sorted_by_progress (car_states s)) as [| [a b] l]; simpl;
    apply (related_map (fun k c => calculate_gap _ leader k c));
    intros k c; apply related_calculate_gap.
Qed.

Lemma related_swap_positions (a d : Z) (cs cs' : list (Z * CarState.t)) :
  swap_positions a d cs = Ok cs' -> related R cs cs'.
Proof.
  unfold swap_positions.
  destruct (Dict.get cs a) as [ca |]; simpl; [| discriminate].
  destruct (Dict.get cs d) as [cd |]; simpl; [| discriminate].
  intros [= <-].
  eapply related_trans; apply related_alter; intros c; apply R_position.
Qed.

Lemma related_check_pair (defender attacker : Z * CarState.t) (s s' : t) (g g' : rng) :
  check_pair defender attacker s g = Ok (s', g') ->
  related R (car_states s) (car_states s').
Proof.
  unfold check_pair. destruct attacker as [a ca], defender as [d cd].
  destruct (_ && _); [| intros [= <- <-]; apply related_refl].
  destruct (OvertakingModel.attempt_overtake _ _ _ _ _ _ _ _ _ _ _)
    as [[[result ov] g1] |]; simpl; [| discriminate].
  destruct (OvertakingModel.res_success result).
  - destruct (swap_positions _ _ _) as [cs |] eqn:Hswap; simpl; [| discriminate].
    intros [= <- <-]. simpl. eapply related_swap_positions, Hswap.
  - intros [= <- <-]. simpl. apply related_refl.
Qed.

Lemma related_overtaking_loop (sorted_cars : list (Z * CarState.t)) (s s' : t)
    (g g' : rng) :
  overtaking_loop sorted_cars s g = Ok (s', g') ->
  related R (car_states s) (car_states s').
Proof.
  revert s g. induction sorted_cars as [| defender rest IH]; intros s g; simpl.
  - intros [= <- <-]. apply related_refl.
  - destruct rest as [| attacker rest'].
    + intros [= <- <-]. apply related_refl.
    + destruct (check_pair defender attacker s g) as [[s1 g1] |] eqn:Hpair;
        simpl; [| discriminate].
      intros Hrest. eapply related_trans; [eapply related_check_pair, Hpair |].
      eapply IH, Hrest.
Qed.

Lemma related_lap_completion_loop (dt : Q) (cs : list (Z * CarState.t))
    (current_lap : Z) :
  related R cs (lap_completion_loop dt cs current_lap).1.
Proof.
  unfold related. revert current_lap.
  induction cs as [| [k c] cs IH]; intros current_lap; simpl.
  - constructor.
  - destruct (CarState.is_active c) eqn:Hact; simpl.
    + destruct (Py.ltb _ _).
      * specialize (IH (if current_lap
                           <? CarState.lap (CarState.set_lap (CarState.lap c + 1) c)
                        then CarState.lap (CarState.set_lap (CarState.lap c + 1) c)
                        else current_lap)).
        destruct (lap_completion_loop dt cs _) as [rest lap']. simpl in *.
        constructor; [| exact IH]. split; [done | by apply R_lap].
      * specialize (IH current_lap).
        destruct (lap_completion_loop dt cs _) as [rest lap']. simpl in *.
        constructor; [| exact IH]. split; [done | apply R_refl].
    + specialize (IH current_lap).
      destruct (lap_completion_loop dt cs _) as [rest lap']. simpl in *.
      constructor; [| exact IH]. split; [done | apply R_refl].
Qed.

Lemma related_check_lap_completion (s : t) :
  related R (car_states s) (car_states (_check_lap_completion s)).
Proof.
  unfold _check_lap_completion.
  pose proof (related_lap_completion_loop (time_step s) (car_states s)
                (RaceState.current_lap (race_state s))) as Hloop.
  destruct (lap_completion_loop _ _ _) as [cs lap']. exact Hloop.
Qed.

Lemma related_loop_body (s s' : t) (lf lf' fin : bool) (g g' : rng) :
  Pre s -> loop_body s lf g = Ok (s', fin, lf', g') ->
  related R (car_states s) (car_states s') /\ Pre s'.
Proof.
  intros HP Hbody.
  split; [| eapply Pre_step; [eapply loop_body_sim_step, Hbody | by apply Pre_clock]].
  revert Hbody. unfold loop_body.
  set (s0 := set_race_state _ s).
  assert (Pre s0) as HP0 by (by apply Pre_clock).
  destruct (if Py.leb _ _ then _ else _) as [fin0 lf0].
  destruct (_update_race_events s0 g) as [[s1 g1] |] eqn:H1; simpl; [| discriminate].
  destruct (_update_cars s1) as [s2 |] eqn:H2; simpl; [| discriminate].
  destruct (_update_positions s2) as [s3 |] eqn:H3; simpl; [| discriminate].
  destruct (_check_overtaking s3 g1) as [[s4 g4] |] eqn:H4; simpl; [| discriminate].
  intros [= <- <- <- <-].
  assert (Pre s1) as HP1
    by (eapply Pre_step; [eapply update_race_events_step, H1 | exact HP0]).
  assert (related R (car_states s0)
            (car_states (_check_lap_completion (_update_attack_modes s4)))) as Hrel.
  { eapply related_trans; [eapply related_update_race_events, H1 |].
    eapply related_trans; [eapply related_update_cars; [exact HP1 | exact H2] |].
    eapply related_trans; [eapply related_update_positions, H3 |].
    eapply related_trans; [eapply related_overtaking_loop, H4 |].
    apply (related_check_lap_completion (_update_attack_modes s4)). }
  destruct (_ =? 0); exact Hrel.
Qed.

Lemma related_iterations (n : nat) (s s' : t) (lf lf' : bool) (g g' : rng) :
  Pre s -> iterations n s lf g = Ok (s', lf', g') ->
  related R (car_states s) (car_states s') /\ Pre s'.
Proof.
  revert s lf g. induction n as [| n IH]; intros s lf g HP; simpl.
  - intros [= <- <- <-]. split; [apply related_refl | exact HP].
  - destruct (loop_body s lf g) as [[[[s1 fin] lf1] g1] |] eqn:Hbody; simpl;
      [| discriminate].
    intros Hrest. destruct (related_loop_body _ _ _ _ _ _ _ HP Hbody) as [Hr1 HP1].
    destruct (IH _ _ _ HP1 Hrest) as [Hr2 HP2].
    split; [eapply related_trans; eassumption | exact HP2].
Qed.

End StoreRelation.

Section RaceProgress.

Import RaceSimulator RaceRuns StoreSteps Ranking.
Context `{NumpyRandom}.

Lemma kept_refl (c : CarState.t) : kept c c.
Proof.
  unfold kept. split; [done |]. split; [done |]. split; [done |]. split; [lia |].
  intros Hin. by split.
Qed.

Lemma kept_trans (a b c : CarState.t) : kept a b -> kept b c -> kept a c.
Proof.
  intros (Hi1 & Ht1 & Hl1 & Hn1 & Hr1) (Hi2 & Ht2 & Hl2 & Hn2 & Hr2).
  unfold kept. split; [congruence |]. split; [congruence |]. split; [congruence |].
  split; [lia |]. intros Hin. destruct (Hr1 Hin) as [Hb Hlb].
  destruct (Hr2 Hb) as [Hc Hlc]. split; [exact Hc | congruence].
Qed.

Lemma kept_position (p : Z) (c : CarState.t) : kept c (CarState.set_position p c).
Proof. unfold kept; simpl. repeat split; try done; lia. Qed.

Lemma kept_gaps (a b d : Q) (c : CarState.t) : kept c (CarState.set_gaps a b d c).
Proof. unfold kept; simpl. repeat split; try done; lia. Qed.

Lemma kept_deactivate (c : CarState.t) : kept c (CarState.deactivate c).
Proof. unfold kept; simpl. repeat split; try done; lia. Qed.

Lemma kept_lap (c : CarState.t) :
  CarState.is_active c = true -> kept c (CarState.set_lap (CarState.lap c + 1) c).
Proof.
  intros Hact. unfold kept; simpl.
  split; [done |]. split; [done |]. split; [done |]. split; [lia | congruence].
Qed.

Lemma kept_update (s : t) (v : float_inf) (k : Z) (c c' : CarState.t) :
  update_car s v k c = Ok c' -> kept c c'.
Proof.
  unfold update_car.
  destruct (CarState.is_active c) eqn:Hact; simpl;
    [| intros [= <-]; apply kept_refl].
  destruct (_ : Result Q) as [speed |]; simpl; [| discriminate].
  destruct (Py.mod_ _ _) as [distance |]; simpl; [| discriminate].
  destruct (Py.div _ _) as [normalized |]; simpl; [| discriminate].
  destruct (Py.leb _ 0); intros [= <-]; unfold kept; simpl;
    (split; [done |]); (split; [done |]); (split; [done |]);
    (split; [lia | congruence]).
Qed.

(** The cars of two points of a race, car by car. *)
Lemma kept_iterations (n : nat) (s s' : t) (lf lf' : bool) (g g' : rng) :
  iterations n s lf g = Ok (s', lf', g') ->
  related kept (car_states s) (car_states s').
Proof.
  intros Hrun.
  refine (proj1 (related_iterations kept kept_refl kept_trans kept_position kept_gaps
                   kept_deactivate kept_lap (fun _ => True) _ _ _
                   n s s' lf lf' g g' I Hrun)); auto.
  intros s0 v k c c' _. apply kept_update.
Qed.

Lemma discharged_refl (c : CarState.t) : discharged c c.
Proof. intros He. split; [exact He | apply Qle_refl]. Qed.

Lemma discharged_trans (a b c : CarState.t) :
  discharged a b -> discharged b c -> discharged a c.
Proof.
  intros Hab Hbc He. destruct (Hab He) as [Hb Hba]. destruct (Hbc Hb) as [Hc Hcb].
  split; [exact Hc | lra].
Qed.

Lemma pristine_power (mgr : AttackModeManager.t) (k : Z) :
  pristine mgr -> AttackModeManager.get_power_kw mgr k = 200.0%Q.
Proof.
  intros Hp. unfold AttackModeManager.get_power_kw.
  destruct (_ !! k) as [am |] eqn:Hk; [| reflexivity].
  destruct (Hp k am Hk) as (Hst & _ & _ & Hb).
  unfold AttackMode.get_power_kw, AttackMode.is_active. by rewrite Hst, Hb.
Qed.

Lemma discharged_update (s : t) (v : float_inf) (k : Z) (c c' : CarState.t) :
  steady s -> update_car s v k c = Ok c' -> discharged c c'.
Proof.
  intros [Hdt Hp]. unfold update_car. rewrite (pristine_power _ k Hp).
  destruct (CarState.is_active c) eqn:Hact; simpl;
    [| intros [= <-]; apply discharged_refl].
  destruct (_ : Result Q) as [speed |]; simpl; [| discriminate].
  destruct (Py.mod_ _ _) as [distance |]; simpl; [| discriminate].
  destruct (Py.div _ _) as [normalized |]; simpl; [| discriminate].
  assert (0 <= 200.0 * 1000.0 * time_step s / 0.9)%Q as Hcons.
  { apply Qle_shift_div_l; [reflexivity |]. lra. }
  match goal with |- context [Py.leb ?e 0] => case_leb e 0%Q end;
    intros [= <-]; unfold discharged; simpl; intros He; split; lra.
Qed.

Lemma steady_step (s s' : t) : sim_step s s' -> steady s -> steady s'.
Proof.
  intros (_ & Hm & Ht & _) [Hdt Hp]. split; [by rewrite Ht | by rewrite (Hm Hp)].
Qed.

Lemma discharged_iterations (n : nat) (s s' : t) (lf lf' : bool) (g g' : rng) :
  steady s -> iterations n s lf g = Ok (s', lf', g') ->
  related discharged (car_states s) (car_states s') /\ steady s'.
Proof.
  intros Hs Hrun.
  refine (related_iterations discharged discharged_refl discharged_trans _ _ _ _
            steady steady_step _ discharged_update n s s' lf lf' g g' Hs Hrun);
    [intros p c | intros a b d c | intros c | intros c _ | intros s0 x Hs0; exact Hs0];
    intros He; simpl; (split; [exact He | apply Qle_refl]).
Qed.

Lemma range_nodup (n : Z) : NoDup (Py.range n).
Proof.
  unfold Py.range. generalize (Z.to_nat n). intros m. generalize 0%nat.
  induction m as [| m IH]; intros a; simpl; [apply NoDup_nil_2 |].
  apply NoDup_cons. split; [| apply IH].
  rewrite list_elem_of_In, in_map_iff. intros (i & Hi & Hin).
  apply in_seq in Hin. lia.
Qed.

Lemma keys_grid (ids : list Z) : Dict.keys (grid ids) = ids.
Proof.
  unfold Dict.keys, grid. rewrite <- list_fmap_compose.
  rewrite <- (list_fmap_id ids) at 2. by apply list_fmap_ext.
Qed.

(** The store that the loop of [_initialize_cars] builds. *)
Lemma initialize_cars_fold (base : CarElectric) (ids done : list Z) (s : t) (g : rng) :
  NoDup (done ++ ids) -> car_states s = grid done ->
  car_states (foldl (initialize_car base) (s, g) ids).1 = grid (done ++ ids).
Proof.
  revert done s g. induction ids as [| k ids IH]; intros done s g Hnd Hs; simpl.
  - by rewrite app_nil_r.
  - destruct (uniform 0.98 1.02 g) as [skill g1].
    destruct (uniform 0.97 1.03 g1) as [eff g2].
    replace (done ++ k :: ids) with ((done ++ [k]) ++ ids) in *
      by (by rewrite <- app_assoc).
    apply IH; [exact Hnd |]. simpl. rewrite Hs. unfold Dict.set.
    rewrite decide_False.
    + unfold grid. by rewrite fmap_app.
    + rewrite keys_grid. apply NoDup_app in Hnd as [Hnd _].
      apply NoDup_app in Hnd as (_ & Hdis & _).
      intros Hin. apply (Hdis k Hin). by left.
Qed.

Lemma race_start_facts (num_cars : Z) (track_name : string) (duration dt : Q)
    (random_seed : option Z) (loaded : Track) (base : CarElectric) (g0 : rng) :
  car_states (race_start num_cars track_name duration dt random_seed loaded base g0).1
  = grid (Py.range num_cars)
  /\ time_step (race_start num_cars track_name duration dt random_seed loaded base g0).1
     = dt
  /\ pristine
       (attack_mode_manager
          (race_start num_cars track_name duration dt random_seed loaded base g0).1).
Proof.
  unfold race_start.
  pose proof (init_pristine num_cars track_name duration dt random_seed loaded g0) as Hp.
  assert (car_states (init num_cars track_name duration dt random_seed loaded g0).1 = []
          /\ RaceSimulator.num_cars
               (init num_cars track_name duration dt random_seed loaded g0).1 = num_cars
          /\ time_step (init num_cars track_name duration dt random_seed loaded g0).1 = dt)
    as (Hcs & Hn & Hdt).
  { unfold init.
    destruct (RaceEvents.init _ _ _ _) as [events g1].
    destruct (OvertakingModel.init _ _ _) as [ov g2].
    destruct (AttackModeManager.init _ _ _ _ _ _) as [mgr g3]. repeat split. }
  set (constructed := init num_cars track_name duration dt random_seed loaded g0) in *.
  destruct (initialize_cars_frame base constructed.1 constructed.2) as [Hm _].
  destruct (initialize_cars_clock base constructed.1 constructed.2) as (Ht & _).
  split; [| split; [congruence | by rewrite Hm]].
  unfold _initialize_cars. rewrite Hn.
  apply (initialize_cars_fold base (Py.range num_cars) []); [apply range_nodup | exact Hcs].
Qed.

Lemma discharged_bounds (B : Q) (cs cs' : list (Z * CarState.t)) :
  related discharged cs cs' ->
  Forall (fun kv : Z * CarState.t =>
            (0 <= CarState.energy_remaining kv.2)%Q
            /\ (CarState.energy_remaining kv.2 <= B)%Q) cs ->
  Forall (fun kv : Z * CarState.t =>
            (0 <= CarState.energy_remaining kv.2)%Q
            /\ (CarState.energy_remaining kv.2 <= B)%Q) cs'.
Proof.
  unfold related. induction 1 as [| x y l1 l2 [_ Hd] _ IH]; intros Hall; [constructor |].
  apply Forall_cons in Hall as [[H0 HB] Hall]. destruct (Hd H0) as [H0' Hle].
  constructor; [split; [exact H0' | lra] | by apply IH].
Qed.

(** X26: along a race started from a constructed simulator with a time
    step that is not negative, no car ever gains energy or laps back:
    at every point the energy of each car lies between 0 and the
    4.58 MJ it started with, and between two points of the race each
    car keeps its key, its lap count does not fall, its energy does not
    rise, and a retired car stays retired. *)
Theorem race_progress (num_cars : Z) (track_name : string) (duration dt : Q)
    (random_seed : option Z) (loaded : Track) (base : CarElectric) (g0 : rng)
    (m n : nat) (s1 s2 : t) (lf1 lf2 : bool) (g1 g2 : rng) :
  (0 <= dt)%Q ->
  iterations m
    (race_start num_cars track_name duration dt random_seed loaded base g0).1 false
    (race_start num_cars track_name duration dt random_seed loaded base g0).2
  = Ok (s1, lf1, g1) ->
  iterations n s1 lf1 g1 = Ok (s2, lf2, g2) ->
  Forall (fun kv : Z * CarState.t =>
            (0 <= CarState.energy_remaining kv.2)%Q
            /\ (CarState.energy_remaining kv.2 <= 4.58e6)%Q) (car_states s1)
  /\ Forall2 (fun kv kv' : Z * CarState.t =>
                kv'.1 = kv.1
                /\ CarState.lap kv.2 <= CarState.lap kv'.2
                /\ (0 <= CarState.energy_remaining kv'.2)%Q
                /\ (CarState.energy_remaining kv'.2 <= CarState.energy_remaining kv.2)%Q
                /\ (CarState.is_active kv.2 = false -> CarState.is_active kv'.2 = false))
       (car_states s1) (car_states s2).
Proof.
  intros Hdt Hm Hn.
  destruct (race_start_facts num_cars track_name duration dt random_seed loaded base g0)
    as (Hgrid & Hstep & Hp).
  assert (steady (race_start num_cars track_name duration dt random_seed loaded base g0).1)
    as Hsteady by (split; [by rewrite Hstep | exact Hp]).
  destruct (discharged_iterations _ _ _ _ _ _ _ Hsteady Hm) as [Hd1 Hsteady1].
  destruct (discharged_iterations _ _ _ _ _ _ _ Hsteady1 Hn) as [Hd2 _].
  pose proof (kept_iterations _ _ _ _ _ _ _ Hn) as Hk2.
  assert (Forall (fun kv : Z * CarState.t =>
                    (0 <= CarState.energy_remaining kv.2)%Q
                    /\ (CarState.energy_remaining kv.2 <= 4.58e6)%Q) (car_states s1))
    as Hbounds.
  { apply (discharged_bounds _ _ _ Hd1). rewrite Hgrid. unfold grid.
    apply Forall_fmap, Forall_forall. intros k _. simpl.
    split; [vm_compute; discriminate | apply Qle_refl]. }
  split; [exact Hbounds |].
  clear -Hbounds Hd2 Hk2. unfold related in *.
  revert Hk2 Hbounds.
  induction Hd2 as [| x y l1 l2 [Hkey Hd] _ IH]; intros Hk2 Hbounds; [constructor |].
  inversion Hk2 as [| x' y' l1' l2' [_ (_ & _ & _ & Hlap & Hret)] Hk2']; subst.
  apply Forall_cons in Hbounds as [[H0 _] Hbounds].
  destruct (Hd H0) as [H0' Hle].
  constructor; [| by apply IH].
  repeat split; try assumption. intros Hin. by destruct (Hret Hin).
Qed.

End RaceProgress.

Section RaceProgressExamples.

Import RaceSimulator RaceRuns StoreSteps.

Lemma race_progress_witness :
  exists s lf g,
    sample_two_iterations = Ok (s, lf, g)
    /\ Forall (fun kv : Z * CarState.t =>
                 (0 <= CarState.energy_remaining kv.2)%Q
                 /\ (CarState.energy_remaining kv.2 <= 4.58e6)%Q) (car_states s).
Proof.
  assert (is_ok sample_two_iterations = true) as Hok by (vm_compute; reflexivity).
  destruct sample_two_iterations as [[[s lf] g] | e] eqn:E; [| discriminate Hok].
  exists s, lf, g. split; [reflexivity |].
  apply (race_progress (H := Lcg.numpy_random) 3 "Berlin" 45.0 0.45 (Some 42)
           SampleRace.loaded_track SampleRace.base_car 7 2 0 s s lf lf g g).
  - vm_compute. discriminate.
  - exact E.
  - reflexivity.
Defined.

End RaceProgressExamples.

(** ** The results of a race *)

Section RaceResults.

Import RaceSimulator RaceRuns StoreSteps Ranking.
Context `{NumpyRandom}.

Lemma insert_ordered {A : Type} (before : A -> A -> bool) (x : A) (l : list A) :
  (forall a b, before a b = true -> before b a = false) ->
  (forall a b c, before a b = false -> before b c = false -> before a c = false) ->
  ordered (fun a b => before b a = false) l ->
  ordered (fun a b => before b a = false) (Sorted.insert before x l).
Proof.
  intros Hasym Hneg Hord. induction Hord as [| y l Hy Hl IH]; simpl.
  - repeat constructor.
  - destruct (before y x) eqn:Hyx.
    + constructor; [| exact IH].
      rewrite insert_perm. constructor; [by apply Hasym | exact Hy].
    + constructor; [| by constructor].
      constructor; [exact Hyx |].
      eapply Forall_impl; [exact Hy |]. intros z Hzy. by apply (Hneg z y x).
Qed.

Lemma sorted_ordered {A : Type} (before : A -> A -> bool) (l : list A) :
  (forall a b, before a b = true -> before b a = false) ->
  (forall a b c, before a b = false -> before b c = false -> before a c = false) ->
  ordered (fun a b => before b a = false) (Sorted.sorted before l).
Proof.
  intros Hasym Hneg. induction l as [| x l IH]; [constructor |].
  change (Sorted.sorted before (x :: l))
    with (Sorted.insert before x (Sorted.sorted before l)).
  by apply insert_ordered.
Qed.

Lemma ordered_fmap {A B : Type} (f : A -> B) (R : B -> B -> Prop) (l : list A) :
  ordered (fun a b => R (f a) (f b)) l -> ordered R (f <$> l).
Proof.
  induction 1 as [| x l Hx _ IH]; [constructor |].
  rewrite fmap_cons. constructor; [by apply Forall_fmap | exact IH].
Qed.

Lemma related_keys (R : CarState.t -> CarState.t -> Prop) (cs cs' : list (Z * CarState.t)) :
  related R cs cs' -> Dict.keys cs' = Dict.keys cs.
Proof.
  unfold related. induction 1 as [| x y l1 l2 [Hk _] _ IH]; [reflexivity |].
  unfold Dict.keys in *. rewrite !fmap_cons. by rewrite Hk, IH.
Qed.

(** The cars of a race that started on the grid. *)
Lemma kept_from_grid (ids : list Z) (cs : list (Z * CarState.t)) :
  related kept (grid ids) cs ->
  Forall (fun kv : Z * CarState.t =>
            CarState.race_time kv.2 = 0.0%Q
            /\ CarState.lap_times kv.2 = []
            /\ CarState.car_id kv.2 = kv.1
            /\ 0 <= CarState.lap kv.2) cs.
Proof.
  unfold related, grid. revert cs. induction ids as [| k ids IH]; intros cs Hrel.
  - inversion Hrel. constructor.
  - rewrite fmap_cons in Hrel.
    inversion Hrel as [| x y l1 l2 [Hk (Hid & Ht & Hl & Hlap & _)] Hrest]; subst.
    simpl in *. constructor; [| by apply IH].
    rewrite Hk. repeat split; assumption.
Qed.

(** X27: a race run from a constructed simulator returns results that
    list every car of [range(num_cars)] once, in the order of their
    final ranks, the smallest first, with the same cars in the same
    order in the three mappings; no lap is counted below zero; and the
    final time of every car is 0: the race never writes the clock of a
    car. *)
Theorem race_results (num_cars : Z) (track_name : string) (duration dt : Q)
    (random_seed : option Z) (loaded : Track) (base : CarElectric) (g0 : rng)
    (fuel : nat) (res : Results) (s : t) (g : rng) :
  run_race fuel base
    (init num_cars track_name duration dt random_seed loaded g0).1
    (init num_cars track_name duration dt random_seed loaded g0).2
  = Ok (Some (res, s, g)) ->
  fst <$> final_positions res ≡ₚ Py.range num_cars
  /\ ordered (fun a b : Z * Z => a.2 <= b.2) (final_positions res)
  /\ fst <$> final_times res = fst <$> final_positions res
  /\ fst <$> laps_completed res = fst <$> final_positions res
  /\ Forall (fun kt : Z * Q => kt.2 = 0.0%Q) (final_times res)
  /\ Forall (fun kl : Z * Z => 0 <= kl.2) (laps_completed res).
Proof.
  intros Hrun. unfold run_race in Hrun.
  destruct (race_start_facts num_cars track_name duration dt random_seed loaded base g0)
    as (Hgrid & _).
  change (race_start num_cars track_name duration dt random_seed loaded base g0)
    with (_initialize_cars base
            (init num_cars track_name duration dt random_seed loaded g0).1
            (init num_cars track_name duration dt random_seed loaded g0).2) in Hgrid.
  destruct (_initialize_cars base _ _) as [s1 g1]. simpl in Hgrid.
  destruct (_calculate_reference_lap_time s1); simpl in Hrun; [| discriminate].
  destruct (race_loop fuel s1 false g1) as [[[s2 g2] |] |] eqn:Hloop; simpl in Hrun;
    try discriminate.
  injection Hrun as <- <- <-.
  apply race_loop_iterations in Hloop as (n & lf' & Hn).
  pose proof (kept_iterations _ _ _ _ _ _ _ Hn) as Hkept. rewrite Hgrid in Hkept.
  pose proof (related_keys _ _ _ Hkept) as Hkeys. rewrite keys_grid in Hkeys.
  pose proof (kept_from_grid _ _ Hkept) as Hfacts.
  unfold _compile_results. simpl.
  set (before := fun y x : Z * CarState.t =>
                   CarState.position y.2 <? CarState.position x.2).
  assert (Sorted.sorted before (car_states s2) ≡ₚ car_states s2) as Hperm
    by apply sorted_perm.
  rewrite <- !list_fmap_compose.
  split; [| split; [| split; [| split; [| split]]]].
  - change (fst <$> Sorted.sorted before (car_states s2) ≡ₚ Py.range num_cars).
    rewrite Hperm. by rewrite <- Hkeys.
  - apply ordered_fmap. simpl.
    eapply ordered_impl; [| apply (sorted_ordered before)].
    + intros x y Hxy. unfold before in Hxy. apply Z.ltb_ge in Hxy. exact Hxy.
    + intros x y. unfold before. rewrite Z.ltb_lt, Z.ltb_ge. lia.
    + intros x y z. unfold before. rewrite !Z.ltb_ge. lia.
  - reflexivity.
  - reflexivity.
  - apply Forall_fmap. rewrite Hperm.
    eapply Forall_impl; [exact Hfacts |]. by intros kv (? & _).
  - apply Forall_fmap. rewrite Hperm.
    eapply Forall_impl; [exact Hfacts |]. by intros kv (_ & _ & _ & ?).
Qed.

(** The cars that the loop of [_initialize_cars] creates. *)
Lemma initialize_cars_lookup (base : CarElectric) (ids : list Z) (s : t) (g : rng)
    (k : Z) :
  (k ∈ ids ->
   exists car skill eff,
     cars (foldl (initialize_car base) (s, g) ids).1 !! k = Some car
     /\ (0.98 <= skill)%Q /\ (skill <= 1.02)%Q
     /\ (0.97 <= eff)%Q /\ (eff <= 1.03)%Q
     /\ m car = (m base * skill)%Q
     /\ eta_e_motor car = (eta_e_motor base * eff)%Q)
  /\ (k ∉ ids -> cars (foldl (initialize_car base) (s, g) ids).1 !! k = cars s !! k).
Proof.
  revert s g. induction ids as [| x ids IH]; intros s g; simpl.
  - split; [intros Hin; by apply elem_of_nil in Hin | reflexivity].
  - pose proof (uniform_range 0.98 1.02 g ltac:(vm_compute; discriminate)) as Hskill.
    destruct (uniform 0.98 1.02 g) as [skill g1].
    pose proof (uniform_range 0.97 1.03 g1 ltac:(vm_compute; discriminate)) as Heff.
    destruct (uniform 0.97 1.03 g1) as [eff g2]. simpl in Hskill, Heff.
    match goal with
    | |- context [foldl _ (?s1, g2) ids] => destruct (IH s1 g2) as [IHin IHout]
    end.
    simpl in IHout. split.
    + intros Hin. destruct (decide (k ∈ ids)) as [Hk | Hk]; [exact (IHin Hk) |].
      apply elem_of_cons in Hin. destruct Hin as [-> | Hin]; [| contradiction].
      rewrite (IHout Hk), lookup_insert_eq.
      eexists _, skill, eff. split; [reflexivity |].
      destruct Hskill, Heff. repeat split; assumption.
    + intros Hout. apply not_elem_of_cons in Hout. destruct Hout as [Hne Hout].
      rewrite (IHout Hout). by apply lookup_insert_ne.
Qed.

(** X30: on a simulator without cars, as the constructor leaves it,
    [_initialize_cars] puts the cars of [range(num_cars)] on the grid,
    in this order: car [k] at rank [k + 1], on lap 0 at distance 0,
    standing still, racing, with 4.58 MJ; the cars created are those of
    this range, with the mass of the base car scaled by a factor
    between 0.98 and 1.02 and its efficiency by a factor between 0.97
    and 1.03.  For a number of cars that is not positive nothing is
    created and [run_race] raises the KeyError of the reference lap. *)
Theorem initialize_cars_grid (base : CarElectric) (s : t) (g : rng) :
  car_states s = [] -> cars s = ∅ ->
  car_states (_initialize_cars base s g).1 = grid (Py.range (num_cars s))
  /\ (forall k, is_Some (cars (_initialize_cars base s g).1 !! k)
                <-> 0 <= k < num_cars s)
  /\ (forall k car,
        cars (_initialize_cars base s g).1 !! k = Some car ->
        exists skill eff,
          (0.98 <= skill)%Q /\ (skill <= 1.02)%Q
          /\ (0.97 <= eff)%Q /\ (eff <= 1.03)%Q
          /\ m car = (m base * skill)%Q
          /\ eta_e_motor car = (eta_e_motor base * eff)%Q)
  /\ (num_cars s <= 0 -> forall fuel, run_race fuel base s g = Raise KeyError).
Proof.
  intros Hcs Hcars.
  split.
  { unfold _initialize_cars.
    apply (initialize_cars_fold base (Py.range (num_cars s)) []);
      [apply range_nodup | exact Hcs]. }
  assert (forall k,
            (k ∈ Py.range (num_cars s) ->
             exists car skill eff,
               cars (_initialize_cars base s g).1 !! k = Some car
               /\ (0.98 <= skill)%Q /\ (skill <= 1.02)%Q
               /\ (0.97 <= eff)%Q /\ (eff <= 1.03)%Q
               /\ m car = (m base * skill)%Q
               /\ eta_e_motor car = (eta_e_motor base * eff)%Q)
            /\ (k ∉ Py.range (num_cars s) ->
                cars (_initialize_cars base s g).1 !! k = None)) as Hlook.
  { intros k. unfold _initialize_cars.
    destruct (initialize_cars_lookup base (Py.range (num_cars s)) s g k) as [Hin Hout].
    split; [exact Hin |]. intros Hk. by rewrite (Hout Hk), Hcars. }
  split; [| split].
  - intros k. rewrite <- elem_of_range. destruct (Hlook k) as [Hin Hout].
    destruct (decide (k ∈ Py.range (num_cars s))) as [Hk | Hk].
    + destruct (Hin Hk) as (car & _ & _ & Hcar & _). rewrite Hcar.
      split; [done | by eexists].
    + rewrite (Hout Hk). split; [intros [? ?]; discriminate | contradiction].
  - intros k car Hcar. destruct (Hlook k) as [Hin Hout].
    destruct (decide (k ∈ Py.range (num_cars s))) as [Hk | Hk].
    + destruct (Hin Hk) as (car' & skill & eff & Hcar' & Hrest).
      rewrite Hcar in Hcar'. injection Hcar' as <-. by exists skill, eff.
    + rewrite (Hout Hk) in Hcar. discriminate.
  - intros Hn fuel. unfold run_race, _initialize_cars, Py.range.
    replace (Z.to_nat (num_cars s)) with 0%nat by lia. simpl.
    unfold _calculate_reference_lap_time. by rewrite Hcars.
Qed.

(** X29: the race ends one time step after the step in which the clock
    reaches the limit, wherever the leader is on its lap.  An iteration
    entered with the trailing flag down never ends the race; it raises
    the flag if and only if its clock has reached the limit; and with a
    time step that is not negative the next iteration ends the race, so
    that the clock of the finished race is the limit step plus one
    step. *)
Theorem race_ends_one_step_after_limit (s s1 : t) (fin1 lf1 : bool) (g g1 : rng) :
  loop_body s false g = Ok (s1, fin1, lf1, g1) ->
  fin1 = false
  /\ ((RaceState.race_time (race_state s) + time_step s
       < race_duration_minutes s * 60.0)%Q -> lf1 = false)
  /\ ((race_duration_minutes s * 60.0
       <= RaceState.race_time (race_state s) + time_step s)%Q ->
      lf1 = true
      /\ forall s2 fin2 lf2 g2,
           (0 <= time_step s)%Q ->
           loop_body s1 lf1 g1 = Ok (s2, fin2, lf2, g2) ->
           fin2 = true
           /\ RaceState.race_time (race_state s2)
              = (RaceState.race_time (race_state s) + time_step s + time_step s)%Q
           /\ forall fuel, race_loop (S (S fuel)) s false g = Ok (Some (s2, g2))).
Proof.
  intros Hbody1.
  pose proof (loop_body_flags _ _ _ _ _ _ _ Hbody1) as Hflags1.
  pose proof (loop_body_step _ _ _ _ _ _ _ Hbody1) as (_ & _ & Hdt1 & Hdur1 & Hrt1).
  case_leb (race_duration_minutes s * 60.0)%Q
    (RaceState.race_time (race_state s) + time_step s)%Q;
    injection Hflags1 as -> ->.
  - split; [reflexivity |]. split; [intros Hlt; lra |]. intros _.
    split; [reflexivity |]. intros s2 fin2 lf2 g2 Hdt Hbody2.
    pose proof (loop_body_flags _ _ _ _ _ _ _ Hbody2) as Hflags2.
    pose proof (loop_body_step _ _ _ _ _ _ _ Hbody2) as (_ & _ & _ & _ & Hrt2).
    rewrite Hdt1, Hdur1, Hrt1 in Hflags2.
    assert (Py.leb (race_duration_minutes s * 60.0)
              (RaceState.race_time (race_state s) + time_step s + time_step s) = true)
      as Hleb by (apply leb_le; lra).
    rewrite Hleb in Hflags2. injection Hflags2 as -> ->.
    split; [reflexivity |]. split; [by rewrite Hrt2, Hrt1, Hdt1 |].
    intros fuel. simpl. rewrite Hbody1. simpl. rewrite Hbody2. reflexivity.
  - split; [reflexivity |]. split; [reflexivity |]. intros Hle. lra.
Qed.

End RaceResults.


(** ** The history of a race *)

Section HistoryFacts.

Import RaceSimulator RaceRuns StoreSteps.
Context `{NumpyRandom}.

Lemma history_same_trans (s1 s2 s3 : t) :
  history_same s1 s2 -> history_same s2 s3 -> history_same s1 s3.
Proof. intros [H1 H2] [H3 H4]. split; congruence. Qed.

Lemma update_race_events_history (s s' : t) (g g' : rng) :
  _update_race_events s g = Ok (s', g') -> history_same s s'.
Proof.
  unfold _update_race_events.
  destruct (_last_lap_checked s) as [last |]; simpl.
  - destruct (negb _); simpl.
    + destruct (RaceEvents.check_lap_events _ _ _ _ g) as [[events re] g1].
      destruct (RaceEvents.weather_changed events); simpl.
      * destruct (Py.div _ _) as [ratio |]; simpl; [| discriminate].
        destruct (RaceEvents.update_safety_car _ _) as [changed re'].
        intros [= <- <-]. by split.
      * destruct (RaceEvents.update_safety_car _ _) as [changed re'].
        intros [= <- <-]. by split.
    + destruct (RaceEvents.update_safety_car _ _) as [changed re'].
      intros [= <- <-]. by split.
  - destruct (RaceEvents.update_safety_car _ _) as [changed re'].
    intros [= <- <-]. by split.
Qed.

Lemma update_cars_history (s s' : t) : _update_cars s = Ok s' -> history_same s s'.
Proof.
  unfold _update_cars.
  destruct (for_each_car _ _) as [cs |]; simpl; [| discriminate].
  intros [= <-]. by split.
Qed.

Lemma update_positions_history (s s' : t) :
  _update_positions s = Ok s' -> history_same s s'.
Proof.
  unfold _update_positions.
  destruct (assign_positions _ _ _) as [cs positions].
  unfold _calculate_gaps.
  destruct (Dict.get _ _) as [leader |]; simpl; [| discriminate].
  intros [= <-]. by destruct (sorted_by_progress (car_states s)) as [| [a b] l].
Qed.

Lemma check_pair_history (defender attacker : Z * CarState.t) (s s' : t) (g g' : rng) :
  check_pair defender attacker s g = Ok (s', g') -> history_same s s'.
Proof.
  unfold check_pair. destruct attacker as [a ca], defender as [d cd].
  destruct (_ && _); [| intros [= <- <-]; by split].
  destruct (OvertakingModel.attempt_overtake _ _ _ _ _ _ _ _ _ _ _)
    as [[[result ov] g1] |]; simpl; [| discriminate].
  destruct (OvertakingModel.res_success result).
  - destruct (swap_positions _ _ _) as [cs |]; simpl; [| discriminate].
    intros [= <- <-]. by split.
  - intros [= <- <-]. by split.
Qed.

Lemma overtaking_loop_history (sorted_cars : list (Z * CarState.t)) (s s' : t)
    (g g' : rng) :
  overtaking_loop sorted_cars s g = Ok (s', g') -> history_same s s'.
Proof.
  revert s g. induction sorted_cars as [| defender rest IH]; intros s g; simpl.
  - intros [= <- <-]. by split.
  - destruct rest as [| attacker rest'].
    + intros [= <- <-]. by split.
    + destruct (check_pair defender attacker s g) as [[s1 g1] |] eqn:Hpair;
        simpl; [| discriminate].
      intros Hrest. eapply history_same_trans; [eapply check_pair_history, Hpair |].
      eapply IH, Hrest.
Qed.

Lemma check_lap_completion_history (s : t) : history_same s (_check_lap_completion s).
Proof.
  unfold _check_lap_completion. destruct (lap_completion_loop _ _ _) as [cs lap'].
  by split.
Qed.

(** One iteration of the loop, up to the point where the history may
    be stored. *)
Lemma loop_body_parts (s s' : t) (lf lf' fin : bool) (g g' : rng) :
  loop_body s lf g = Ok (s', fin, lf', g') ->
  exists x,
    s' = (if Py.int (RaceState.race_time (race_state x)) mod 5 =? 0
          then _store_history x else x)
    /\ RaceState.race_time (race_state x)
       = (RaceState.race_time (race_state s) + time_step s)%Q
    /\ history_same s x.
Proof.
  unfold loop_body.
  set (s0 := set_race_state _ s).
  destruct (if Py.leb _ _ then _ else _) as [fin0 lf0].
  destruct (_update_race_events s0 g) as [[s1 g1] |] eqn:H1; simpl; [| discriminate].
  destruct (_update_cars s1) as [s2 |] eqn:H2; simpl; [| discriminate].
  destruct (_update_positions s2) as [s3 |] eqn:H3; simpl; [| discriminate].
  destruct (_check_overtaking s3 g1) as [[s4 g4] |] eqn:H4; simpl; [| discriminate].
  intros [= <- <- <- <-].
  exists (_check_lap_completion (_update_attack_modes s4)).
  split; [reflexivity |]. split.
  - assert (sim_step s0 (_check_lap_completion (_update_attack_modes s4)))
      as (_ & _ & _ & _ & Hrt).
    { eapply sim_step_trans; [eapply update_race_events_step, H1 |].
      eapply sim_step_trans; [eapply update_cars_step, H2 |].
      eapply sim_step_trans; [eapply update_positions_step, H3 |].
      eapply sim_step_trans; [eapply check_overtaking_step, H4 |].
      eapply sim_step_trans; [apply update_attack_modes_step |].
      apply check_lap_completion_step. }
    exact Hrt.
  - apply (history_same_trans s s1); [eapply (update_race_events_history s0), H1 |].
    eapply history_same_trans; [eapply update_cars_history, H2 |].
    eapply history_same_trans; [eapply update_positions_history, H3 |].
    eapply history_same_trans; [eapply overtaking_loop_history, H4 |].
    apply (check_lap_completion_history (_update_attack_modes s4)).
Qed.

(** X28: an iteration of the loop stores the history exactly when the
    whole seconds of its clock are a multiple of 5, whatever the time
    step: it then appends one snapshot, stamped with that clock and
    holding lap, leader and positions of the race state as the
    iteration leaves them; otherwise neither the race history nor the
    position history changes.  With a time step below one second every
    iteration of such a second stores a snapshot. *)
Theorem history_sampling (s s' : t) (lf lf' fin : bool) (g g' : rng) :
  loop_body s lf g = Ok (s', fin, lf', g') ->
  (Py.int (RaceState.race_time (race_state s) + time_step s) mod 5 = 0 ->
   exists snapshot,
     race_history s' = race_history s ++ [snapshot]
     /\ RaceState.race_time snapshot
        = (RaceState.race_time (race_state s) + time_step s)%Q
     /\ RaceState.current_lap snapshot = RaceState.current_lap (race_state s')
     /\ RaceState.leader_id snapshot = RaceState.leader_id (race_state s')
     /\ RaceState.positions snapshot = RaceState.positions (race_state s'))
  /\ (Py.int (RaceState.race_time (race_state s) + time_step s) mod 5 <> 0 ->
      race_history s' = race_history s /\ position_history s' = position_history s).
Proof.
  intros Hbody. apply loop_body_parts in Hbody as (x & -> & Hrt & Hh1 & Hh2).
  rewrite Hrt. split.
  - intros Hmod. apply Z.eqb_eq in Hmod. rewrite Hmod.
    eexists. simpl. rewrite Hh1. split; [reflexivity |]. simpl.
    repeat split; exact Hrt.
  - intros Hmod. apply Z.eqb_neq in Hmod. rewrite Hmod. by split.
Qed.

End HistoryFacts.

Section RaceResultsExamples.

Import RaceSimulator RaceRuns StoreSteps Ranking.

Lemma race_results_witness :
  exists res s g,
    run_race (H := Lcg.numpy_random) 5 SampleRace.base_car
      (init (H := Lcg.numpy_random) 3 "Berlin" 0.01 0.45 (Some 42)
         SampleRace.loaded_track 7).1
      (init (H := Lcg.numpy_random) 3 "Berlin" 0.01 0.45 (Some 42)
         SampleRace.loaded_track 7).2
    = Ok (Some (res, s, g))
    /\ Forall (fun kt : Z * Q => kt.2 = 0.0%Q) (final_times res).
Proof.
  assert (match run_race (H := Lcg.numpy_random) 5 SampleRace.base_car
                  (init (H := Lcg.numpy_random) 3 "Berlin" 0.01 0.45 (Some 42)
                     SampleRace.loaded_track 7).1
                  (init (H := Lcg.numpy_random) 3 "Berlin" 0.01 0.45 (Some 42)
                     SampleRace.loaded_track 7).2 with
          | Ok (Some _) => true
          | _ => false
          end = true) as Hok by (vm_compute; reflexivity).
  destruct (run_race (H := Lcg.numpy_random) 5 SampleRace.base_car _ _)
    as [[[[res s] g] |] | e] eqn:E; try discriminate Hok.
  exists res, s, g. split; [reflexivity |].
  apply (race_results (H := Lcg.numpy_random) _ _ _ _ _ _ _ _ _ _ _ _ E).
Defined.

Lemma initialize_cars_grid_witness :
  car_states
    (_initialize_cars (H := Lcg.numpy_random) SampleRace.base_car
       (init (H := Lcg.numpy_random) 3 "Berlin" 45.0 0.45 (Some 42)
          SampleRace.loaded_track 7).1
       (init (H := Lcg.numpy_random) 3 "Berlin" 45.0 0.45 (Some 42)
          SampleRace.loaded_track 7).2).1
  = grid [0; 1; 2].
Proof.
  apply (initialize_cars_grid (H := Lcg.numpy_random) SampleRace.base_car
           (init (H := Lcg.numpy_random) 3 "Berlin" 45.0 0.45 (Some 42)
              SampleRace.loaded_track 7).1
           (init (H := Lcg.numpy_random) 3 "Berlin" 45.0 0.45 (Some 42)
              SampleRace.loaded_track 7).2); reflexivity.
Defined.

(** The first iteration of a race of 0.3 s in steps of 0.45 s. *)
Lemma race_ends_one_step_after_limit_witness :
  exists s1 fin1 lf1 g1,
    loop_body (H := Lcg.numpy_random)
      (race_start (H := Lcg.numpy_random) 3 "Berlin" 0.005 0.45 (Some 42)
         SampleRace.loaded_track SampleRace.base_car 7).1 false
      (race_start (H := Lcg.numpy_random) 3 "Berlin" 0.005 0.45 (Some 42)
         SampleRace.loaded_track SampleRace.base_car 7).2
    = Ok (s1, fin1, lf1, g1)
    /\ fin1 = false /\ lf1 = true.
Proof.
  assert (is_ok (loop_body (H := Lcg.numpy_random)
                   (race_start (H := Lcg.numpy_random) 3 "Berlin" 0.005 0.45 (Some 42)
                      SampleRace.loaded_track SampleRace.base_car 7).1 false
                   (race_start (H := Lcg.numpy_random) 3 "Berlin" 0.005 0.45 (Some 42)
                      SampleRace.loaded_track SampleRace.base_car 7).2) = true)
    as Hok by (vm_compute; reflexivity).
  destruct (loop_body (H := Lcg.numpy_random) _ false _)
    as [[[[s1 fin1] lf1] g1] |] eqn:E; [| discriminate Hok].
  exists s1, fin1, lf1, g1. split; [reflexivity |].
  destruct (race_ends_one_step_after_limit (H := Lcg.numpy_random) _ _ _ _ _ _ E)
    as (Hfin & _ & Hlimit).
  split; [exact Hfin |]. apply Hlimit. vm_compute. discriminate.
Defined.

(** The first iteration of the sample race: its clock shows 0.45 s,
    whole seconds 0, and a snapshot is stored. *)
Lemma history_sampling_witness :
  exists s1 fin1 lf1 g1 snapshot,
    loop_body (H := Lcg.numpy_random)
      (race_start (H := Lcg.numpy_random) 3 "Berlin" 45.0 0.45 (Some 42)
         SampleRace.loaded_track SampleRace.base_car 7).1 false
      (race_start (H := Lcg.numpy_random) 3 "Berlin" 45.0 0.45 (Some 42)
         SampleRace.loaded_track SampleRace.base_car 7).2
    = Ok (s1, fin1, lf1, g1)
    /\ race_history s1 = [snapshot].
Proof.
  assert (is_ok (loop_body (H := Lcg.numpy_random)
                   (race_start (H := Lcg.numpy_random) 3 "Berlin" 45.0 0.45 (Some 42)
                      SampleRace.loaded_track SampleRace.base_car 7).1 false
                   (race_start (H := Lcg.numpy_random) 3 "Berlin" 45.0 0.45 (Some 42)
                      SampleRace.loaded_track SampleRace.base_car 7).2) = true)
    as Hok by (vm_compute; reflexivity).
  destruct (loop_body (H := Lcg.numpy_random) _ false _)
    as [[[[s1 fin1] lf1] g1] |] eqn:E; [| discriminate Hok].
  destruct (history_sampling (H := Lcg.numpy_random) _ _ _ _ _ _ _ E) as [Hstored _].
  destruct Hstored as (snapshot & Hhist & _); [vm_compute; reflexivity |].
  exists s1, fin1, lf1, g1, snapshot. split; [reflexivity |].
  rewrite Hhist. vm_compute. reflexivity.
Defined.

End RaceResultsExamples.
